(** * email2pdf: a shallow embedding of [email2pdf.py] and its properties

    The development follows the layout of the Python module.  Text is
    modelled by [string]; a character stands for a code point in the range
    U+0000..U+00FF, so the character classes below are the ones Python uses
    on that range.  Bytes are [list byte].  A message is the pre-order list
    of its parts ([Message.walk()]), and a part is identified by its position
    in that list, since the Python sets of parts compare by identity. *)

From Stdlib Require Import ZArith Ascii String Lia.
From stdpp Require Import base option list gmap sets strings pretty.

Local Open Scope string_scope.
Local Open Scope nat_scope.

(** ** Python [str] operations used by the module *)

Module PyStr.

Definition code (c : ascii) : nat := nat_of_ascii c.

Definition in_range (lo hi : nat) (c : ascii) : bool :=
  (lo <=? code c)%nat && (code c <=? hi)%nat.

(** [str.isspace] on one character. *)
Definition isspace (c : ascii) : bool :=
  in_range 9 13 c || in_range 28 32 c || (code c =? 133)%nat || (code c =? 160)%nat.

(** [\d] of the [re] module. *)
Definition isdigit (c : ascii) : bool := in_range 48 57 c.

(** [\w] of the [re] module: alphanumeric characters and the underscore. *)
Definition isword (c : ascii) : bool :=
  isdigit c || in_range 65 90 c || in_range 97 122 c || (code c =? 95)%nat
  || (code c =? 170)%nat || (code c =? 178)%nat || (code c =? 179)%nat
  || (code c =? 181)%nat || (code c =? 185)%nat || (code c =? 186)%nat
  || in_range 188 190 c || in_range 192 214 c || in_range 216 246 c
  || in_range 248 255 c.

(** The line boundaries recognised by [str.splitlines]. *)
Definition islinebreak (c : ascii) : bool :=
  in_range 10 13 c || in_range 28 30 c || (code c =? 133)%nat.

Definition lower_char (c : ascii) : ascii :=
  if in_range 65 90 c || in_range 192 214 c || in_range 216 222 c
  then ascii_of_nat (code c + 32) else c.

Fixpoint lower (s : string) : string :=
  match s with
  | EmptyString => EmptyString
  | String c r => String (lower_char c) (lower r)
  end.

Fixpoint forallb (p : ascii -> bool) (s : string) : bool :=
  match s with
  | EmptyString => true
  | String c r => p c && forallb p r
  end.

(** [s.lstrip(chars)] and [s.rstrip(chars)], the character set being given
    as a predicate. *)
Fixpoint lstrip (p : ascii -> bool) (s : string) : string :=
  match s with
  | EmptyString => EmptyString
  | String c r => if p c then lstrip p r else s
  end.

Fixpoint rstrip (p : ascii -> bool) (s : string) : string :=
  match s with
  | EmptyString => EmptyString
  | String c r =>
      match rstrip p r with
      | EmptyString => if p c then EmptyString else String c EmptyString
      | r' => String c r'
      end
  end.

Definition startswith (s pre : string) : bool := String.prefix pre s.

Fixpoint endswith_char (s : string) (c : ascii) : bool :=
  match s with
  | EmptyString => false
  | String d EmptyString => Ascii.eqb d c
  | String _ r => endswith_char r c
  end.

(** [sub in s]. *)
Fixpoint contains (sub s : string) : bool :=
  String.prefix sub s ||
  match s with
  | EmptyString => false
  | String _ r => contains sub r
  end.

(** [s.replace(c, by)] for a one-character needle. *)
Fixpoint replace_char (c : ascii) (by_ : string) (s : string) : string :=
  match s with
  | EmptyString => EmptyString
  | String d r =>
      if Ascii.eqb d c then by_ +:+ replace_char c by_ r
      else String d (replace_char c by_ r)
  end.

(** [re.sub("[...]", "", s)] for a one-character class. *)
Fixpoint remove_chars (p : ascii -> bool) (s : string) : string :=
  match s with
  | EmptyString => EmptyString
  | String c r => if p c then remove_chars p r else String c (remove_chars p r)
  end.

Fixpoint join (sep : string) (l : list string) : string :=
  match l with
  | [] => EmptyString
  | [x] => x
  | x :: r => x +:+ sep +:+ join sep r
  end.

(** [str.splitlines()]: the text is cut at every line boundary, CR LF
    counting as one, and a final boundary does not open an empty line. *)
Fixpoint splitlines_go (cur : string) (s : string) : list string :=
  match s with
  | EmptyString => if String.eqb cur EmptyString then [] else [String.rev cur]
  | String c r =>
      if islinebreak c then
        String.rev cur ::
          match r with
          | String d r' =>
              if Ascii.eqb c "013" && Ascii.eqb d "010" then skip_lf r
              else splitlines_go EmptyString r
          | EmptyString => []
          end
      else splitlines_go (String c cur) r
  end
with skip_lf (s : string) : list string :=
  match s with
  | EmptyString => []
  | String _ r => splitlines_go EmptyString r
  end.

Definition splitlines (s : string) : list string := splitlines_go EmptyString s.

(** [html.escape(s)] with its default [quote=True]. *)
Fixpoint html_escape (s : string) : string :=
  match s with
  | EmptyString => EmptyString
  | String c r =>
      (if Ascii.eqb c "&" then "&amp;"
       else if Ascii.eqb c "<" then "&lt;"
       else if Ascii.eqb c ">" then "&gt;"
       else if Ascii.eqb c "034" then "&quot;"
       else if Ascii.eqb c "'" then "&#x27;"
       else String c EmptyString) +:+ html_escape r
  end.

End PyStr.

(** ** The fragment of [re] the module relies on

    Apart from the [cid:] scanner, every pattern of the module is a sequence
    of one-character items: literals, escaped literals, [.], [\d] and bracketed
    sets.  Such a pattern matches exactly as many characters as it has items. *)

Module Re.

Inductive atom : Type :=
| Lit (c : ascii)
| Dot
| Digit
| OneOf (cs : string).

Fixpoint mem (c : ascii) (cs : string) : bool :=
  match cs with
  | EmptyString => false
  | String d r => Ascii.eqb c d || mem c r
  end.

Definition atom_matches (a : atom) (c : ascii) : bool :=
  match a with
  | Lit d => Ascii.eqb c d
  | Dot => negb (Ascii.eqb c "010")
  | Digit => PyStr.isdigit c
  | OneOf cs => mem c cs
  end.

(** Reads the source text of a pattern; [cls] holds the members of the
    bracketed set being read, if any. *)
Fixpoint compile_go (cls : option string) (s : string) : list atom :=
  match s with
  | EmptyString => []
  | String c r =>
      match cls with
      | Some acc =>
          if Ascii.eqb c "]" then OneOf acc :: compile_go None r
          else compile_go (Some (String c acc)) r
      | None =>
          if Ascii.eqb c "\" then
            match r with
            | String d r' => (if Ascii.eqb d "d" then Digit else Lit d) :: compile_go None r'
            | EmptyString => []
            end
          else if Ascii.eqb c "." then Dot :: compile_go None r
          else if Ascii.eqb c "[" then compile_go (Some EmptyString) r
          else Lit c :: compile_go None r
      end
  end.

Definition compile (s : string) : list atom := compile_go None s.

(** [re.match]: does the pattern match a prefix of [s]? *)
Fixpoint match_at (pat : list atom) (s : string) : bool :=
  match pat with
  | [] => true
  | a :: pat' =>
      match s with
      | EmptyString => false
      | String c r => atom_matches a c && match_at pat' r
      end
  end.

(** [re.search]. *)
Fixpoint search (pat : list atom) (s : string) : bool :=
  match_at pat s ||
  match s with
  | EmptyString => false
  | String _ r => search pat r
  end.

(** [re.subn(pat, '', s)[0]] for a pattern of at least one item: matches
    are found from left to right and do not overlap; [skip] counts the
    characters of the current match still to be dropped. *)
Fixpoint sub_go (pat : list atom) (skip : nat) (s : string) : string :=
  match s with
  | EmptyString => EmptyString
  | String c r =>
      match skip with
      | S k => sub_go pat k r
      | O =>
          if match_at pat s then sub_go pat (length pat - 1) r
          else String c (sub_go pat 0 r)
      end
  end.

Definition remove_all (pat : list atom) (s : string) : string :=
  match pat with
  | [] => s
  | _ => sub_go pat 0 s
  end.

End Re.

(** ** [os.path] on POSIX *)

Module OsPath.

(** [s.rfind(c)], [None] standing for -1. *)
Fixpoint rfind_go (c : ascii) (s : string) (i : nat) (last : option nat) : option nat :=
  match s with
  | EmptyString => last
  | String d r => rfind_go c r (S i) (if Ascii.eqb d c then Some i else last)
  end.

Definition rfind (c : ascii) (s : string) : option nat := rfind_go c s 0 None.

(** [os.path.splitext]: the extension starts at the last dot of the last
    path component, leading dots of that component not counting. *)
Definition splitext (p : string) : string * string :=
  let start := match rfind "/" p with Some i => S i | None => 0 end in
  match rfind "." p with
  | Some dot =>
      if (start <=? dot)%nat
         && negb (PyStr.forallb (Ascii.eqb ".") (substring start (dot - start) p))
      then (substring 0 dot p, substring dot (String.length p - dot) p)
      else (p, EmptyString)
  | None => (p, EmptyString)
  end.

(** [os.path.join(a, b)]. *)
Definition join (a b : string) : string :=
  if PyStr.startswith b "/" then b
  else if String.eqb a EmptyString || PyStr.endswith_char a "/" then a +:+ b
  else a +:+ "/" +:+ b.

(** [os.path.basename]: what follows the last slash. *)
Definition basename (p : string) : string :=
  match rfind "/" p with
  | Some i => substring (S i) (String.length p - S i) p
  | None => p
  end.

(** [os.path.dirname]: what precedes the last slash, without the slashes it
    ends in unless it is made of slashes only. *)
Definition dirname (p : string) : string :=
  let head :=
    match rfind "/" p with
    | Some i => substring 0 (S i) p
    | None => EmptyString
    end in
  if negb (String.eqb head EmptyString) && negb (PyStr.forallb (Ascii.eqb "/") head)
  then PyStr.rstrip (Ascii.eqb "/") head else head.

End OsPath.

(** ** The file system

    A finite map from the paths of the regular files to their contents. *)

Abbreviation bytes := (list Byte.byte).
Abbreviation filesystem := (gmap string bytes).

Definition isfile (fs : filesystem) (p : string) : bool :=
  bool_decide (is_Some (fs !! p)).

(** [str(counter)]. *)
Definition str_of_nat (n : nat) : string := pretty n.

(** ** [get_unique_version] *)

(** The name tried when the counter is [counter]. *)
Definition numbered (file_name_parts : string * string) (counter : nat) : string :=
  file_name_parts.1 +:+ "_" +:+ str_of_nat counter +:+ file_name_parts.2.

(** The [while] loop; [fuel] bounds the number of tests of the condition. *)
Fixpoint get_unique_version_loop (fuel : nat) (fs : filesystem)
    (file_name_parts : string * string) (filename : string) (counter : nat)
    : option string :=
  match fuel with
  | O => None
  | S fuel' =>
      if isfile fs filename
      then get_unique_version_loop fuel' fs file_name_parts
             (numbered file_name_parts counter) (S counter)
      else Some filename
  end.

Definition get_unique_version_fuel (fuel : nat) (fs : filesystem) (filename : string)
    : option string :=
  get_unique_version_loop fuel fs (OsPath.splitext filename) filename 1.

(** A directory holding [n] files makes the loop test its condition at most
    [n + 2] times (see [get_unique_version_returns]). *)
Definition get_unique_version (fs : filesystem) (filename : string) : option string :=
  get_unique_version_fuel (size fs + 2) fs filename.

(** ** Messages

    A part is described by what the accessors of [email.message.Message]
    return on it. *)

Record Part : Type := {
  get_content_type : string;
  is_multipart : bool;
  (** [part['Content-ID']] *)
  header_content_id : option string;
  (** [part['Content-Transfer-Encoding']] *)
  header_content_transfer_encoding : option string;
  (** [part.get_param('name', header="Content-Type")] *)
  get_param_name : option string;
  get_filename : option string;
  get_content_charset : option string;
  (** [part.get_payload(decode=False)] of a leaf part *)
  get_payload : string;
  (** [part.get_payload(decode=True)] of a leaf part *)
  get_payload_decoded : bytes
}.

Global Instance Part_inhabited : Inhabited Part :=
  populate {| get_content_type := EmptyString; is_multipart := false;
              header_content_id := None; header_content_transfer_encoding := None;
              get_param_name := None; get_filename := None;
              get_content_charset := None; get_payload := EmptyString;
              get_payload_decoded := [] |}.

(** [walk] lists the parts in the order of [Message.walk()], the root first;
    [header name] is [message[name]]. *)
Record Message : Type := {
  header : string → option string;
  walk : list Part
}.

(** The identity of a part: its position in [walk]. *)
Abbreviation part_id := nat.

Definition part_at (message : Message) (part : part_id) : Part := walk message !!! part.

(** ** Exceptions, events and the state of a run *)

Inductive exn : Type :=
| FatalException (value : string)
| AssertionError
| UnicodeDecodeError
| LookupError
| TypeError
| IndexError
| HeaderParseError
| UnboundLocalError
| FileNotFoundError
| PdfReadError
| FetchError
(** An exception of another class, given by its name, that [str(b, charset)]
    raises: plain [UnicodeError] from the codec [undefined], [ValueError]
    for a charset that holds a NUL character. *)
| OtherException (name : string)
(** Not an exception: stands for a loop that would not end. *)
| NoReturn.

(** A reference to a Python [set] object. *)
Abbreviation loc := nat.

(** What a run does that its result does not show. *)
Inductive event : Type :=
| EvHandleAttachments (parts_to_ignore : loc) (ignored : gset part_id)
| EvWrite (path : string)
| EvUrlFetch (url : string).

(** [heap] holds the [set] objects, [files] the regular files, [warnings] the
    records logged at WARNING level (the ones [WarningCountFilter] reacts to;
    records of lower levels change nothing and are left out), [trace] the
    events in the order they happened. *)
Record state : Type := {
  heap : list (gset part_id);
  files : filesystem;
  warnings : list string;
  trace : list event
}.

Definition set_heap (h : list (gset part_id)) (σ : state) : state :=
  {| heap := h; files := files σ; warnings := warnings σ; trace := trace σ |}.
Definition set_files (f : filesystem) (σ : state) : state :=
  {| heap := heap σ; files := f; warnings := warnings σ; trace := trace σ |}.
Definition add_warning (w : string) (σ : state) : state :=
  {| heap := heap σ; files := files σ; warnings := warnings σ ++ [w]; trace := trace σ |}.
Definition add_event (e : event) (σ : state) : state :=
  {| heap := heap σ; files := files σ; warnings := warnings σ; trace := trace σ ++ [e] |}.

Inductive outcome (A : Type) : Type :=
| Return (a : A)
| Raise (e : exn).
Arguments Return {A} a.
Arguments Raise {A} e.

(** Computations: a state transformer that returns or raises. *)
Definition M (A : Type) : Type := state → outcome A * state.

Global Instance M_ret : MRet M := λ A a σ, (Return a, σ).
Global Instance M_bind : MBind M := λ A B f m σ,
  match m σ with
  | (Return a, σ') => f a σ'
  | (Raise e, σ') => (Raise e, σ')
  end.

Definition raise {A} (e : exn) : M A := λ σ, (Raise e, σ).
Definition get_state : M state := λ σ, (Return σ, σ).
Definition modify (f : state → state) : M unit := λ σ, (Return (), f σ).

(** [logger.warning(msg)] *)
Definition logger_warning (msg : string) : M unit := modify (add_warning msg).
Definition emit (e : event) : M unit := modify (add_event e).

(** [set()] *)
Definition set_new : M loc :=
  λ σ, (Return (length (heap σ)), set_heap (heap σ ++ [∅]) σ).
(** The members of the set object at [l]. *)
Definition set_read (l : loc) : M (gset part_id) :=
  λ σ, (Return (default ∅ (heap σ !! l)), σ).
(** [s.add(x)] *)
Definition set_add (l : loc) (x : part_id) : M unit :=
  λ σ, (Return (), set_heap (alter (λ s, {[x]} ∪ s) l (heap σ)) σ).
(** [a - b], a new set object *)
Definition set_difference (a b : loc) : M loc :=
  λ σ, (Return (length (heap σ)),
        set_heap (heap σ ++ [default ∅ (heap σ !! a) ∖ default ∅ (heap σ !! b)]) σ).
(** [set(a)], a new set object *)
Definition set_copy (a : loc) : M loc :=
  λ σ, (Return (length (heap σ)), set_heap (heap σ ++ [default ∅ (heap σ !! a)]) σ).

(** [open(path, 'wb').write(content)] *)
Definition write_file (path : string) (content : bytes) : M unit :=
  emit (EvWrite path) ;; modify (λ σ, set_files (<[path := content]> (files σ)) σ).

(** [for x in l: body(x)] *)
Fixpoint for_each {A} (l : list A) (body : A → M unit) : M unit :=
  match l with
  | [] => mret ()
  | x :: r => body x ;; for_each r body
  end.

(** ** What the module takes from libraries and from its environment *)

(** An item of the list [email.header.decode_header] returns. *)
Inductive chunk : Type :=
| Bytes (b : bytes)
| Text (s : string).

(** What [str(b, charset)] does: it returns a text, or raises
    [UnicodeDecodeError], or [LookupError], or an exception of another class
    (see [OtherException]). *)
Inductive decoding : Type :=
| Decoded (s : string)
| DecodeError
| UnknownCharset
| OtherError (name : string).

Inductive fetch_outcome : Type :=
| Fetched
| RaisesHTTPError
| RaisesURLError
| RaisesValueError
| RaisesOther.

(** What [Popen(...).communicate(input)] gives back, and the file the
    process left at the output path, if any. *)
Record process : Type := {
  returncode : Z;
  output : bytes;
  error : bytes;
  produced : option bytes
}.

Record Platform : Type := {
  (** [str(b, charset)] *)
  str_decode : bytes → string → decoding;
  (** [str(b, charset, errors='replace')], for a charset that is known *)
  str_decode_replace : bytes → string → string;
  (** [chardet.detect(b)["encoding"]] *)
  chardet_detect : bytes → option string;
  (** [email.header.decode_header], [None] when it raises [HeaderParseError] *)
  decode_header : string → option (list (chunk * option string));
  (** [textwrap.fill(line, width=w)] *)
  textwrap_fill : string → nat → string;
  (** [magic.from_buffer(b, mime=True)] *)
  magic_from_buffer : bytes → string;
  (** [mimetypes.guess_all_extensions] *)
  guess_all_extensions : string → list string;
  (** [datetime.now().strftime("%Y-%m-%d-")] *)
  strftime_today : string;
  (** [urlopen(Request(url))] *)
  urlopen : string → fetch_outcome;
  (** the [src] attributes of the [img] elements of a document, in document
      order, [None] for an element without one *)
  soup_img_srcs : string → list (option string);
  (** [str(soup)] once the [src] attributes have been brought to the given list *)
  soup_str : string → list (option string) → string;
  (** the rendering engine run on a payload for an output path *)
  wkhtmltopdf : string → string → process;
  (** [os.environ.get('XDG_SESSION_TYPE')] *)
  xdg_session_type : option string;
  (** the PDF with its document info merged with the given dictionary,
      [None] when the file cannot be read as a PDF *)
  pdf_merge_info : bytes → list (string * string) → option bytes;
  (** the order in which a set of strings is iterated *)
  iter_strings : list string → list string;
  iter_strings_perm : ∀ l, iter_strings l ≡ₚ l;
  (** the order in which a set of parts is iterated *)
  iter_parts : gset part_id → list part_id;
  iter_parts_perm : ∀ s, iter_parts s ≡ₚ elements s
}.

(** ** Constants of the module *)

Definition HEADER_MAPPING : list (string * string) :=
  [("Author", "From"); ("Title", "Subject"); ("X-email2pdf-To", "To")].

Definition FORMATTED_HEADERS_TO_INCLUDE : list string := ["Subject"; "From"; "To"; "Date"].

Definition MIME_TYPES_BLACKLIST : list string := ["text/html"; "text/plain"].

Definition AUTOCALCULATED_FILENAME_EXTENSION_BLACKLIST : list string := [".jpe"; ".jpeg"].

Definition AUTOGENERATED_ATTACHMENT_PREFIX : string := "floating_attachment".

Definition IMAGE_LOAD_BLACKLIST : list string := ["emltrk.com"; "trk.email"; "shim.gif"].

Definition WKHTMLTOPDF_ERRORS_IGNORE : list string :=
  ["QFont::setPixelSize: Pixel size <= 0 \(0\)";
   "Invalid SOS parameters for sequential JPEG";
   "libpng warning: Out of place sRGB chunk";
   "Exit with code 1 due to network error: ContentNotFoundError";
   "Exit with code 1 due to network error: ProtocolUnknownError";
   "Exit with code 1 due to network error: UnknownContentError";
   "libpng warning: iCCP: known incorrect sRGB profile"].

Definition WAYLAND_WARNING : string :=
  "Warning: Ignoring XDG_SESSION_TYPE=wayland on Gnome. Use QT_QPA_PLATFORM=wayland to run on Wayland anyway.".

Definition nl : string := String "010" EmptyString.

(** The options of a run that the modelled functions read. *)
Record Args : Type := {
  body : bool;
  attachments : bool;
  headers : bool;
  add_prefix_date : bool;
  ignore_floating_attachments : bool
}.

(** Truth value of an optional string: [None] and the empty string are false. *)
Definition truthy (o : option string) : bool :=
  match o with
  | Some s => negb (String.eqb s EmptyString)
  | None => false
  end.

Definition in_list (x : string) (l : list string) : bool := bool_decide (x ∈ l).

(** ** Part finders *)

Definition find_part_by_content_type_name (message : Message) (content_type_name : string)
    : option (part_id * Part) :=
  list_find (λ part, get_param_name part = Some content_type_name) (walk message).

Definition find_part_by_content_type (message : Message) (content_type : string)
    : option (part_id * Part) :=
  list_find (λ part, get_content_type part = content_type) (walk message).

Definition find_part_by_content_id (message : Message) (content_id : string)
    : option (part_id * Part) :=
  list_find (λ part, header_content_id part = Some content_id
                     ∨ header_content_id part = Some ("<" +:+ content_id +:+ ">"))
            (walk message).

Definition get_content_id (part : Part) : option string :=
  let content_id := header_content_id part in
  if truthy content_id
  then Some (PyStr.rstrip (Ascii.eqb ">")
               (PyStr.lstrip (Ascii.eqb "<") (default EmptyString content_id)))
  else content_id.

(** The least string of a list, as [sorted(l)[0]]. *)
Fixpoint least (l : list string) : option string :=
  match l with
  | [] => None
  | x :: r =>
      match least r with
      | Some y => Some (if String.leb x y then x else y)
      | None => Some x
      end
  end.

(** [cid:([\w_@.-]+)] at the start of [s]: the text of group 1, if the
    pattern matches there. *)
Definition is_cid_char (c : ascii) : bool :=
  PyStr.isword c || Re.mem c "_@.-".

Fixpoint take_while (p : ascii → bool) (s : string) : string :=
  match s with
  | EmptyString => EmptyString
  | String c r => if p c then String c (take_while p r) else EmptyString
  end.

Definition cid_match (s : string) : option string :=
  if String.prefix "cid:" s then
    match take_while is_cid_char (substring 4 (String.length s - 4) s) with
    | EmptyString => None
    | group1 => Some group1
    end
  else None.

(** [re.sub(r'cid:([\w_@.-]+)', repl, s)]: the matches are taken from left to
    right, each as long as possible, [repl] being called on them in that
    order; [skip] counts the characters of the current match still to pass. *)
Fixpoint re_sub_cid_go (repl : string → M string) (skip : nat) (s : string) : M string :=
  match s with
  | EmptyString => mret EmptyString
  | String c r =>
      match skip with
      | S k => re_sub_cid_go repl k r
      | O =>
          match cid_match s with
          | Some group1 =>
              replacement ← repl group1;
              rest ← re_sub_cid_go repl (3 + String.length group1) r;
              mret (replacement +:+ rest)
          | None =>
              rest ← re_sub_cid_go repl 0 r;
              mret (String c rest)
          end
      end
  end.

Definition re_sub_cid (repl : string → M string) (s : string) : M string :=
  re_sub_cid_go repl 0 s.

Fixpoint map_each {A B} (f : A → M B) (l : list A) : M (list B) :=
  match l with
  | [] => mret []
  | x :: r => y ← f x; ys ← map_each f r; mret (y :: ys)
  end.

Section email2pdf.
Variable P : Platform.

(** *** Header decoder *)

Fixpoint get_utf8_header_loop (decoded_header : list (chunk * option string))
    (hdr : string) : M string :=
  match decoded_header with
  | [] => mret hdr
  | (Bytes b, charset) :: rest =>
      match str_decode P b (if truthy charset then default EmptyString charset else "ASCII") with
      | Decoded s => get_utf8_header_loop rest (hdr +:+ s)
      | DecodeError => raise UnicodeDecodeError
      | UnknownCharset => raise LookupError
      | OtherError name => raise (OtherException name)
      end
  | (Text s, _) :: rest => get_utf8_header_loop rest (hdr +:+ s)
  end.

Definition get_utf8_header (header : string) : M string :=
  match decode_header P header with
  | Some decoded_header => get_utf8_header_loop decoded_header EmptyString
  | None => raise HeaderParseError
  end.

Definition get_formatted_header_info (input_email : Message) : M string :=
  header_info ←
    foldl (λ (acc : M string) (name : string),
             header_info ← acc;
             if truthy (header input_email name) then
               decoded_string ← get_utf8_header (default EmptyString (header input_email name));
               mret (header_info +:+ "<b>" +:+ name +:+ "</b>: "
                     +:+ PyStr.html_escape decoded_string +:+ "<br/>")
             else mret header_info)
          (mret EmptyString) FORMATTED_HEADERS_TO_INCLUDE;
  mret (header_info +:+ "<br/>").

(** *** Body resolver *)

Definition handle_plain_message_body (part : Part) : M string :=
  if bool_decide (header_content_transfer_encoding part = Some "8bit") then
    if is_multipart part then raise AssertionError
    else mret (get_payload part)
  else
    if is_multipart part then raise AssertionError
    else
      let charset :=
        if truthy (get_content_charset part)
        then default EmptyString (get_content_charset part) else "utf-8" in
      payload ←
        match str_decode P (get_payload_decoded part) charset with
        | Decoded s => mret s
        | DecodeError =>
            logger_warning "UnicodeDecodeErrors in plain message body, using 'replace'" ;;
            mret (str_decode_replace P (get_payload_decoded part) charset)
        | UnknownCharset => raise LookupError
        | OtherError name => raise (OtherException name)
        end;
      let payload :=
        PyStr.join nl (map (λ line, textwrap_fill P line 80) (PyStr.splitlines payload)) in
      let payload := PyStr.html_escape payload in
      mret ("<html><body><pre>" +:+ nl +:+ payload +:+ nl +:+ "</pre></body></html>").

Definition cid_replace (input_email : Message) (cid_parts_used : loc) (cid : string)
    : M string :=
  let image_part :=
    match find_part_by_content_id input_email cid with
    | Some found => Some found
    | None => find_part_by_content_type_name input_email cid
    end in
  match image_part with
  | Some (image_id, image_part) =>
      if bool_decide (header_content_transfer_encoding image_part = Some "base64") then
        if is_multipart image_part then raise TypeError
        else
          let image_base64 :=
            PyStr.remove_chars (λ c, Re.mem c (String "013" (String "010" (String "009" EmptyString))))
                               (get_payload image_part) in
          let mime_type := magic_from_buffer P (get_payload_decoded image_part) in
          set_add cid_parts_used image_id ;;
          mret ("data:" +:+ mime_type +:+ ";base64," +:+ image_base64)
      else raise AssertionError
  | None =>
      logger_warning ("Could not find image cid " +:+ cid +:+ " in email content.") ;;
      mret "broken"
  end.

Definition handle_html_message_body (input_email : Message) (part : Part)
    : M (string * loc) :=
  cid_parts_used ← set_new;
  if is_multipart part then raise TypeError
  else
    let payload := get_payload_decoded part in
    let charset :=
      if truthy (get_content_charset part)
      then default EmptyString (get_content_charset part) else "utf-8" in
    payload_unicode ←
      match str_decode P payload charset with
      | Decoded s => mret s
      | DecodeError =>
          match chardet_detect P payload with
          | Some charset =>
              match str_decode P payload charset with
              | Decoded s => mret s
              | DecodeError => raise UnicodeDecodeError
              | UnknownCharset => raise LookupError
              | OtherError name => raise (OtherException name)
              end
          | None => raise TypeError
          end
      | UnknownCharset => raise LookupError
      | OtherError name => raise (OtherException name)
      end;
    payload ← re_sub_cid (cid_replace input_email cid_parts_used) payload_unicode;
    mret (payload, cid_parts_used).

Definition handle_message_body (args : Args) (input_email : Message)
    : M (option string * loc) :=
  cid_parts_used ← set_new;
  match find_part_by_content_type input_email "text/html" with
  | None =>
      match find_part_by_content_type input_email "text/plain" with
      | None =>
          if negb (body args) then mret (None, cid_parts_used)
          else raise (FatalException "No body parts found; aborting.")
      | Some (_, part) =>
          payload ← handle_plain_message_body part;
          mret (Some payload, cid_parts_used)
      end
  | Some (_, part) =>
      '(payload, cid_parts_used) ← handle_html_message_body input_email part;
      mret (Some payload, cid_parts_used)
  end.

(** *** Rendering *)

Definition add_update_pdf_metadata (filename : string)
    (update_dictionary : list (string * string)) : M unit :=
  let full_update_dictionary := map (λ kv, ("/" +:+ kv.1, kv.2)) update_dictionary in
  σ ← get_state;
  match files σ !! filename with
  | None => raise FileNotFoundError
  | Some pdf_input =>
      match pdf_merge_info P pdf_input full_update_dictionary with
      | None => raise PdfReadError
      | Some pdf_output => modify (set_files (<[filename := pdf_output]> (files σ)))
      end
  end.

(** The patterns whose matches are removed from the diagnostic text, in
    the order in which the set is iterated. *)
Definition errors_ignore : list string :=
  if bool_decide (xdg_session_type P = Some "wayland")
  then iter_strings P (WKHTMLTOPDF_ERRORS_IGNORE ++ [WAYLAND_WARNING])
  else iter_strings P WKHTMLTOPDF_ERRORS_IGNORE.

Definition strip_errors (patterns : list string) (text : string) : string :=
  foldl (λ stripped_error error_pattern,
           Re.remove_all (Re.compile error_pattern) stripped_error)
        text patterns.

Definition output_body_pdf (input_email : Message) (payload : string)
    (output_file_name : string) : M unit :=
  let wkh2p_process := wkhtmltopdf P payload output_file_name in
  match produced wkh2p_process with
  | Some pdf => modify (λ σ, set_files (<[output_file_name := pdf]> (files σ)) σ)
  | None => mret ()
  end ;;
  if negb (bool_decide (output wkh2p_process = [])) then raise AssertionError
  else
    match str_decode P (error wkh2p_process) "utf-8" with
    | Decoded text =>
        let stripped_error := strip_errors errors_ignore text in
        let original_error := PyStr.rstrip PyStr.isspace text in
        let stripped_error := PyStr.rstrip PyStr.isspace stripped_error in
        if (0 <? returncode wkh2p_process)%Z && String.eqb original_error EmptyString then
          raise (FatalException ("wkhtmltopdf failed with exit code "
                                 +:+ pretty (returncode wkh2p_process)
                                 +:+ ", no error output."))
        else if (0 <? returncode wkh2p_process)%Z
                && negb (String.eqb stripped_error EmptyString) then
          raise (FatalException ("wkhtmltopdf failed with exit code "
                                 +:+ pretty (returncode wkh2p_process)
                                 +:+ ", stripped error: " +:+ stripped_error))
        else if negb (String.eqb stripped_error EmptyString) then
          raise (FatalException
                   ("wkhtmltopdf exited with rc = 0 but produced unknown stripped error output "
                    +:+ stripped_error))
        else
          add_metadata_obj ←
            foldl (λ (acc : M (list (string * string))) (entry : string * string),
                     add_metadata_obj ← acc;
                     match header input_email entry.2 with
                     | Some value =>
                         decoded ← get_utf8_header value;
                         mret (add_metadata_obj ++ [(entry.1, decoded)])%list
                     | None => mret add_metadata_obj
                     end)
                  (mret []) HEADER_MAPPING;
          add_update_pdf_metadata output_file_name
            (add_metadata_obj ++ [("Producer", "email2pdf")])%list
    | DecodeError => raise UnicodeDecodeError
    | UnknownCharset => raise LookupError
    | OtherError name => raise (OtherException name)
    end.

(** *** Remote images *)

Definition can_url_fetch (src : string) : M bool :=
  let encoded_src := PyStr.replace_char " " "%20" src in
  emit (EvUrlFetch encoded_src) ;;
  match urlopen P encoded_src with
  | Fetched => mret true
  | RaisesHTTPError | RaisesURLError | RaisesValueError => mret false
  | RaisesOther => raise FetchError
  end.

(** The body of the loop over the [img] elements: the [src] attribute the
    element is left with. *)
Definition check_img (img_src : option string) : M (option string) :=
  match img_src with
  | Some src =>
      let lower_src := PyStr.lower src in
      if String.eqb lower_src "broken" then mret None
      else if negb (PyStr.startswith lower_src "data") then
        let found_blacklist :=
          existsb (λ image_load_blacklist_item, PyStr.contains image_load_blacklist_item lower_src)
                  IMAGE_LOAD_BLACKLIST in
        if negb found_blacklist then
          fetchable ← can_url_fetch src;
          if negb fetchable then
            logger_warning ("Could not retrieve img URL " +:+ src +:+ ", replacing with blank.") ;;
            mret None
          else mret (Some src)
        else mret None
      else mret (Some src)
  | None => mret None
  end.

Definition remove_invalid_urls (payload : string) : M string :=
  srcs ← map_each check_img (soup_img_srcs P payload);
  mret (soup_str P payload srcs).

(** *** Attachment extractor *)

Definition extract_part_filename (part : Part) : M (option string) :=
  match get_filename part with
  | Some filename =>
      match decode_header P filename with
      | Some ((data, Some charset) :: _) =>
          match data with
          | Bytes b =>
              match str_decode P b charset with
              | Decoded s => mret (Some s)
              | DecodeError => raise UnicodeDecodeError
              | UnknownCharset => raise LookupError
              | OtherError name => raise (OtherException name)
              end
          | Text _ => raise TypeError
          end
      | Some ((_, None) :: _) => mret (Some filename)
      | Some [] => raise IndexError
      | None => raise HeaderParseError
      end
  | None => mret None
  end.

Definition get_type_extension (content_type : string) : option string :=
  let filetypes :=
    filter (λ e, e ∉ AUTOCALCULATED_FILENAME_EXTENSION_BLACKLIST)
           (guess_all_extensions P content_type) in
  least filetypes.

Definition find_all_attachments (message : Message) (parts_to_ignore : loc) : M loc :=
  parts ← set_new;
  for_each (imap (λ i part, (i, part)) (walk message))
    (λ '(id, part),
       ignored ← set_read parts_to_ignore;
       if negb (bool_decide (id ∈ ignored)) && negb (is_multipart part) then
         if negb (in_list (get_content_type part) MIME_TYPES_BLACKLIST)
         then set_add parts id else mret ()
       else mret ()) ;;
  mret parts.

Definition filter_filenamed_parts (message : Message) (parts : loc) : M loc :=
  new_parts ← set_new;
  members ← set_read parts;
  for_each (iter_parts P members)
    (λ id, if bool_decide (get_filename (part_at message id) ≠ None)
           then set_add new_parts id else mret ()) ;;
  mret new_parts.

Definition DATE_PATTERN : string := "\d\d\d\d[-_]\d\d[-_]\d\d".

(** The body of the loop of [handle_attachments]. *)
Definition handle_attachment (input_email : Message) (output_directory : string)
    (add_prefix_date ignore_floating_attachments : bool) (id : part_id) : M unit :=
  let part := part_at input_email id in
  filename ← extract_part_filename part;
  let named :=
    if negb (truthy filename) then
      if ignore_floating_attachments then None
      else
        let filename := get_content_id part in
        let filename :=
          if negb (truthy filename) then AUTOGENERATED_ATTACHMENT_PREFIX
          else default EmptyString filename in
        let extension := get_type_extension (get_content_type part) in
        Some (if truthy extension then filename +:+ default EmptyString extension
              else filename)
    else Some (default EmptyString filename) in
  match named with
  | None => mret ()
  | Some filename =>
      let filename :=
        if add_prefix_date && negb (Re.search (Re.compile DATE_PATTERN) filename)
        then strftime_today P +:+ filename else filename in
      let full_filename := OsPath.join output_directory filename in
      σ ← get_state;
      match get_unique_version (files σ) full_filename with
      | Some full_filename => write_file full_filename (get_payload_decoded part)
      | None => raise NoReturn
      end
  end.

Definition handle_attachments (input_email : Message) (output_directory : string)
    (add_prefix_date ignore_floating_attachments : bool) (parts_to_ignore : loc)
    : M nat :=
  ignored ← set_read parts_to_ignore;
  emit (EvHandleAttachments parts_to_ignore ignored) ;;
  parts ← find_all_attachments input_email parts_to_ignore;
  members ← set_read parts;
  for_each (iter_parts P members)
    (handle_attachment input_email output_directory add_prefix_date
       ignore_floating_attachments) ;;
  mret (size members).

(** *** The run, from the parsed message to the second attachment pass *)

Definition SECOND_TRY_WARNING : string :=
  "Second try: didn't print body (on request) and still didn't find any attachments even when looked for referenced ones with a filename. Giving up.".

Definition main (args : Args) (input_email : Message)
    (output_directory output_file_name : string) : M unit :=
  '(payload, parts_already_used) ← handle_message_body args input_email;
  (if body args then
     match payload with
     | Some payload =>
         payload ← remove_invalid_urls payload;
         payload ←
           (if headers args then
              header_info ← get_formatted_header_info input_email;
              mret (header_info +:+ payload)
            else mret payload);
         output_body_pdf input_email payload output_file_name
     | None => raise TypeError
     end
   else mret ()) ;;
  number_of_attachments ←
    (if attachments args then
       n ← handle_attachments input_email output_directory (add_prefix_date args)
             (ignore_floating_attachments args) parts_already_used;
       mret (Some n)
     else mret None);
  if negb (body args) then
    match number_of_attachments with
    | Some n =>
        if n =? 0 then
          parts_with_a_filename ← filter_filenamed_parts input_email parts_already_used;
          named ← set_read parts_with_a_filename;
          n ←
            (if 0 <? size named then
               difference ← set_difference parts_already_used parts_with_a_filename;
               relaxed ← set_copy difference;
               handle_attachments input_email output_directory (add_prefix_date args)
                 (ignore_floating_attachments args) relaxed
             else mret n);
          if n =? 0 then logger_warning SECOND_TRY_WARNING else mret ()
        else mret ()
    | None => raise UnboundLocalError
    end
  else mret ().

End email2pdf.

(** ** The header decoder as the specification words it

    Each segment is decoded on its own with the charset it declares, ASCII
    when it declares none, and the decoded segments are put one after the
    other with nothing in between. *)

Definition segment_decoding (P : Platform) (segment : chunk * option string) : decoding :=
  match segment with
  | (Bytes b, Some charset) =>
      str_decode P b (if String.eqb charset EmptyString then "ASCII" else charset)
  | (Bytes b, None) => str_decode P b "ASCII"
  | (Text s, _) => Decoded s
  end.

Fixpoint concatenation (texts : list string) : string :=
  match texts with
  | [] => EmptyString
  | text :: rest => text +:+ concatenation rest
  end.

(** ** Resolution of a [cid:] reference as the specification words it

    A reference resolves to the first part, in walk order, whose Content-ID
    is the token, bare or in angle brackets; failing that, to the first part
    whose content-type [name] parameter is the token. *)

Definition has_content_id (cid : string) (part : Part) : Prop :=
  header_content_id part = Some cid ∨ header_content_id part = Some ("<" +:+ cid +:+ ">").

Definition has_name (cid : string) (part : Part) : Prop :=
  get_param_name part = Some cid.

Definition first_part (Q : Part → Prop) (message : Message) (id : part_id) (part : Part)
    : Prop :=
  walk message !! id = Some part ∧ Q part
  ∧ ∀ j other, walk message !! j = Some other → j < id → ¬ Q other.

Definition resolves_to (message : Message) (cid : string) (id : part_id) (part : Part)
    : Prop :=
  first_part (has_content_id cid) message id part
  ∨ (Forall (λ other, ¬ has_content_id cid other) (walk message)
     ∧ first_part (has_name cid) message id part).

Definition unresolved (message : Message) (cid : string) : Prop :=
  Forall (λ other, ¬ has_content_id cid other) (walk message)
  ∧ Forall (λ other, ¬ has_name cid other) (walk message).

(** The part [cid_replace] looks at. *)
Definition lookup_cid (message : Message) (cid : string) : option (part_id * Part) :=
  match find_part_by_content_id message cid with
  | Some found => Some found
  | None => find_part_by_content_type_name message cid
  end.


(** ** The scan of an HTML body *)

(** The text [handle_html_message_body] scans: the payload of the part
    decoded with the charset the part declares, utf-8 when it declares none,
    or, when the bytes do not decode with it, with the charset
    [chardet.detect] gives; [None] when the call raises before it scans. *)
Definition html_text (P : Platform) (part : Part) : option string :=
  if is_multipart part then None
  else
    let payload := get_payload_decoded part in
    let charset :=
      if truthy (get_content_charset part)
      then default EmptyString (get_content_charset part) else "utf-8" in
    match str_decode P payload charset with
    | Decoded text => Some text
    | DecodeError =>
        match chardet_detect P payload with
        | Some charset =>
            match str_decode P payload charset with
            | Decoded text => Some text
            | _ => None
            end
        | None => None
        end
    | _ => None
    end.

(** [scans_to pre rest]: the scan of the text [pre +:+ rest], which goes
    from left to right, passes over a match of [cid:([\w_@.-]+)] as a whole
    and over one character where no match begins, comes to look for a match
    at the beginning of [rest]. *)
Inductive scans_to : string → string → Prop :=
| scans_to_here (rest : string) : scans_to EmptyString rest
| scans_to_char (c : ascii) (pre rest : string) :
    cid_match (String c (pre +:+ rest)) = None →
    scans_to pre rest →
    scans_to (String c pre) rest
| scans_to_match (group1 pre rest : string) :
    cid_match ("cid:" +:+ group1 +:+ pre +:+ rest) = Some group1 →
    scans_to pre rest →
    scans_to ("cid:" +:+ group1 +:+ pre) rest.

(** The [data:] address that stands for an image part. *)
Definition data_uri (P : Platform) (image_part : Part) : string :=
  "data:" +:+ magic_from_buffer P (get_payload_decoded image_part) +:+ ";base64,"
  +:+ PyStr.remove_chars
        (λ c, Ascii.eqb c "013" || Ascii.eqb c "010" || Ascii.eqb c "009")
        (get_payload image_part).


(** The state once the part [id] has been added to the set object at [l]. *)
Definition added (l : loc) (id : part_id) (σ : state) : state :=
  set_heap (alter (λ s, {[id]} ∪ s) l (heap σ)) σ.

(** ** The candidates for extraction as the specification words them

    All leaf parts that are not in the exclude-set and whose content type is
    neither [text/html] nor [text/plain]. *)

Definition is_candidate (ignored : gset part_id) (entry : part_id * Part) : Prop :=
  (entry.1 ∉ ignored) ∧ is_multipart entry.2 = false
  ∧ (get_content_type entry.2 ∉ MIME_TYPES_BLACKLIST).

Global Instance is_candidate_dec ignored entry : Decision (is_candidate ignored entry).
Proof. unfold is_candidate. apply _. Defined.

Definition attachment_candidates (message : Message) (ignored : gset part_id)
    : gset part_id :=
  list_to_set (fst <$> filter (is_candidate ignored) (imap (λ i part, (i, part)) (walk message))).

(** The members of a set of parts that carry a file name. *)
Definition filenamed (message : Message) (parts : gset part_id) : gset part_id :=
  filter (λ id, get_filename (part_at message id) ≠ None) parts.

(** The members of the set object at [l]. *)
Definition members (σ : state) (l : loc) : gset part_id := default ∅ (heap σ !! l).

(** ** Relations between the states of a run *)

(** No set object loses a member, and none disappears. *)
Definition heap_grows (σ σ' : state) : Prop :=
  ∀ l s, heap σ !! l = Some s → ∃ s', heap σ' !! l = Some s' ∧ s ⊆ s'.

(** The set objects at the references below [n] are left as they are. *)
Definition same_below (n : nat) (σ σ' : state) : Prop :=
  n ≤ length (heap σ) →
  n ≤ length (heap σ') ∧ ∀ l, l < n → heap σ' !! l = heap σ !! l.

(** The calls of [handle_attachments] a trace records. *)
Definition attachment_passes (t : list event) : list (loc * gset part_id) :=
  omap (λ e, match e with
             | EvHandleAttachments l ignored => Some (l, ignored)
             | _ => None
             end) t.

(** The files a trace records as written. *)
Definition files_written (t : list event) : list string :=
  omap (λ e, match e with EvWrite path => Some path | _ => None end) t.

(** The set objects are untouched and [handle_attachments] is not called. *)
Definition quiet (σ σ' : state) : Prop :=
  heap σ' = heap σ ∧ attachment_passes (trace σ') = attachment_passes (trace σ).

(** [handle_attachments] is not called. *)
Definition no_pass (σ σ' : state) : Prop :=
  attachment_passes (trace σ') = attachment_passes (trace σ).

(** A run keeps a property of the state. *)
Definition keeps (I : state → Prop) (σ σ' : state) : Prop := I σ → I σ'.

(** Once the heap holds [n] set objects: those stay as they are, and every
    further call of [handle_attachments] is given either the object at [used]
    or one created later. *)
Definition settled (used : loc) (n : nat) (σ σ' : state) : Prop :=
  n ≤ length (heap σ) →
  n ≤ length (heap σ')
  ∧ (∀ l, l < n → heap σ' !! l = heap σ !! l)
  ∧ ∃ new, attachment_passes (trace σ') = (attachment_passes (trace σ) ++ new)%list
           ∧ Forall (λ pass, pass.1 = used ∨ n ≤ pass.1) new.

(** Every run of [m] relates the state it starts from to the one it ends in,
    whether it returns or raises. *)
Definition run_rel {A} (R : state → state → Prop) (m : M A) : Prop :=
  ∀ σ, R σ (m σ).2.

(** ** Further notions the properties are stated with *)

(** [m] never raises the fatal failure. *)
Definition never_fatal {A} (m : M A) : Prop :=
  ∀ σ value σ', m σ ≠ (Raise (FatalException value), σ').

(** The state once [handle_attachments] has been entered with the exclude-set
    at [l]. *)
Definition entered (l : loc) (σ : state) : state :=
  add_event (EvHandleAttachments l (members σ l)) σ.

(** The set object at [used] exists, and every member of it is a part some
    [cid:] token resolves to. *)
Definition all_resolved (message : Message) (used : loc) (σ : state) : Prop :=
  used < length (heap σ)
  ∧ ∀ id, id ∈ members σ used → ∃ cid part, resolves_to message cid id part.

(** ** A concrete platform

    Used to run the model on examples: ASCII and Latin-1 codecs, a table for
    the few headers and types the examples use, a rendering engine whose
    result is given. *)

Module Example.

Definition bytes_of (s : string) : bytes := list_byte_of_string s.

Definition is_ascii_byte (b : Byte.byte) : bool := nat_of_ascii (ascii_of_byte b) <? 128.

Definition codec (b : bytes) (charset : string) : decoding :=
  let charset := PyStr.lower charset in
  if in_list charset ["ascii"; "us-ascii"; "utf-8"; "utf8"] then
    if forallb is_ascii_byte b then Decoded (string_of_list_byte b) else DecodeError
  else if in_list charset ["iso-8859-1"; "latin-1"; "latin1"] then
    Decoded (string_of_list_byte b)
  else if String.eqb charset "undefined" then OtherError "UnicodeError"
  else UnknownCharset.

Definition codec_replace (b : bytes) (charset : string) : string :=
  string_of_list_byte (map (λ x, if is_ascii_byte x then x else Byte.x3f) b).

Definition header_table (header : string) : option (list (chunk * option string)) :=
  if String.eqb header "=?utf-8?q?report?=.pdf" then
    Some [(Bytes (bytes_of "report"), Some "utf-8"); (Bytes (bytes_of ".pdf"), None)]
  else if String.eqb header "=?iso-8859-1?q?r=E9sum=E9?= 2024.pdf" then
    Some [(Bytes (bytes_of "r" ++ [Byte.xe9] ++ bytes_of "sum" ++ [Byte.xe9]),
           Some "iso-8859-1");
          (Bytes (bytes_of " 2024.pdf"), None)]
  else if String.eqb header "=?undefined?q?abc?=" then
    Some [(Bytes (bytes_of "abc"), Some "undefined")]
  else Some [(Text header, None)].

Definition extension_table (content_type : string) : list string :=
  if String.eqb content_type "image/png" then [".png"]
  else if String.eqb content_type "image/jpeg" then [".jpe"; ".jpeg"; ".jpg"]
  else if String.eqb content_type "application/pdf" then [".pdf"]
  else [].

Definition reachability (url : string) : fetch_outcome :=
  if String.prefix "http://reachable/" url then Fetched
  else if String.prefix "http://" url then RaisesURLError
  else RaisesValueError.

Definition platform (engine : process) : Platform :=
  {| str_decode := codec;
     str_decode_replace := codec_replace;
     chardet_detect := λ _, Some "iso-8859-1";
     decode_header := header_table;
     textwrap_fill := λ line _, line;
     magic_from_buffer := λ _, "image/png";
     guess_all_extensions := extension_table;
     strftime_today := "2026-11-03-";
     urlopen := reachability;
     soup_img_srcs := λ _, [];
     soup_str := λ payload _, payload;
     wkhtmltopdf := λ _ _, engine;
     xdg_session_type := None;
     pdf_merge_info := λ pdf _, Some pdf;
     iter_strings := λ l, l;
     iter_strings_perm := λ l, reflexivity l;
     iter_parts := elements;
     iter_parts_perm := λ s, reflexivity (elements s) |}.

Definition quiet_engine : process :=
  {| returncode := 0; output := []; error := []; produced := Some [] |}.

(** A platform whose HTML parser finds the same seven [img] elements in
    every document, and whose network times out on one host. *)
Definition gallery_srcs : list (option string) :=
  [Some "http://reachable/a b.png"; None; Some "data:image/png;base64,AA==";
   Some "broken"; Some "http://gone/x.png"; Some "http://timeout/y.png";
   Some "http://reachable/z.png"].

Definition gallery (network : string → fetch_outcome) : Platform :=
  let P := platform quiet_engine in
  {| str_decode := str_decode P;
     str_decode_replace := str_decode_replace P;
     chardet_detect := chardet_detect P;
     decode_header := decode_header P;
     textwrap_fill := textwrap_fill P;
     magic_from_buffer := magic_from_buffer P;
     guess_all_extensions := guess_all_extensions P;
     strftime_today := strftime_today P;
     urlopen := network;
     soup_img_srcs := λ _, gallery_srcs;
     soup_str := λ payload srcs, String.concat " " (map (default "-") srcs);
     wkhtmltopdf := wkhtmltopdf P;
     xdg_session_type := xdg_session_type P;
     pdf_merge_info := pdf_merge_info P;
     iter_strings := iter_strings P;
     iter_strings_perm := iter_strings_perm P;
     iter_parts := iter_parts P;
     iter_parts_perm := iter_parts_perm P |}.

Definition timeouts (url : string) : fetch_outcome :=
  if String.prefix "http://timeout/" url then RaisesOther else reachability url.

Definition leaf (content_type : string) : Part :=
  {| get_content_type := content_type; is_multipart := false;
     header_content_id := None; header_content_transfer_encoding := None;
     get_param_name := None; get_filename := None; get_content_charset := None;
     get_payload := EmptyString; get_payload_decoded := [] |}.

Definition multipart (content_type : string) : Part :=
  {| get_content_type := content_type; is_multipart := true;
     header_content_id := None; header_content_transfer_encoding := None;
     get_param_name := None; get_filename := None; get_content_charset := None;
     get_payload := EmptyString; get_payload_decoded := [] |}.

Definition with_filename (name : string) (part : Part) : Part :=
  {| get_content_type := get_content_type part; is_multipart := is_multipart part;
     header_content_id := header_content_id part;
     header_content_transfer_encoding := header_content_transfer_encoding part;
     get_param_name := get_param_name part; get_filename := Some name;
     get_content_charset := get_content_charset part;
     get_payload := get_payload part; get_payload_decoded := get_payload_decoded part |}.

Definition with_content_id (cid : string) (part : Part) : Part :=
  {| get_content_type := get_content_type part; is_multipart := is_multipart part;
     header_content_id := Some cid;
     header_content_transfer_encoding := header_content_transfer_encoding part;
     get_param_name := get_param_name part; get_filename := get_filename part;
     get_content_charset := get_content_charset part;
     get_payload := get_payload part; get_payload_decoded := get_payload_decoded part |}.

Definition with_payload (encoding : option string) (text : string) (part : Part) : Part :=
  {| get_content_type := get_content_type part; is_multipart := is_multipart part;
     header_content_id := header_content_id part;
     header_content_transfer_encoding := encoding;
     get_param_name := get_param_name part; get_filename := get_filename part;
     get_content_charset := get_content_charset part;
     get_payload := text; get_payload_decoded := bytes_of text |}.

Definition message (parts : list Part) : Message :=
  {| header := λ _, None; walk := parts |}.

Definition initial : state :=
  {| heap := []; files := ∅; warnings := []; trace := [] |}.

Definition no_body : Args :=
  {| body := false; attachments := true; headers := false;
     add_prefix_date := false; ignore_floating_attachments := false |}.

Definition everything : Args :=
  {| body := true; attachments := true; headers := false;
     add_prefix_date := false; ignore_floating_attachments := false |}.

(** A plain-text message carrying an image that has neither a file name
    nor a Content-ID. *)
Definition floating : Message :=
  message [multipart "multipart/mixed";
           with_payload (Some "7bit") "hello" (leaf "text/plain");
           with_payload (Some "base64") "/9j/4AAQ" (leaf "image/jpeg")].

(** An HTML body that shows a logo sent along as [logo.png]. *)
Definition logo_part : Part :=
  with_filename "logo.png"
    (with_content_id "<logo@example>"
       (with_payload (Some "base64") "iVBORw0KGgo=" (leaf "image/png"))).

(** The same logo sent with a transfer encoding other than base64. *)
Definition plain_logo_part : Part :=
  with_content_id "<logo@example>"
    (with_payload (Some "7bit") "not base64" (leaf "image/png")).

Definition html_part : Part :=
  with_payload (Some "7bit") "<img src=cid:logo@example>" (leaf "text/html").

Definition newsletter : Message :=
  message [multipart "multipart/related";
           with_payload (Some "7bit") "<img src=cid:logo@example>" (leaf "text/html");
           logo_part].

End Example.

(** ** Names of the output files *)

(** [get_modified_output_file_name]: the name of a file that goes with the
    output file, its extension replaced by [append]. *)
Definition get_modified_output_file_name (output_file_name append : string) : string :=
  let partial_name := (OsPath.splitext output_file_name).1 in
  OsPath.join (OsPath.dirname partial_name) (OsPath.basename partial_name +:+ append).

(** [get_output_file_name]: [output_file] is [args.output_file] and [now] is
    [datetime.now().strftime("%Y-%m-%dT%H-%M-%S")]. *)
Definition get_output_file_name (output_file : option string) (now : string)
    (output_directory : string) : M string :=
  σ ← get_state;
  if truthy output_file then
    let output_file_name := default EmptyString output_file in
    if isfile (files σ) output_file_name then
      raise (FatalException ("Output file " +:+ output_file_name +:+ " already exists."))
    else mret output_file_name
  else
    match get_unique_version (files σ) (OsPath.join output_directory (now +:+ ".pdf")) with
    | Some output_file_name => mret output_file_name
    | None => raise NoReturn
    end.

(** ** [get_content_disposition]

    [value] is [part.get('content-disposition')]; the first item of
    [email.message._splitparam(value)] is what precedes the first semicolon,
    without the white space around it. *)
Definition strip (s : string) : string :=
  PyStr.lstrip PyStr.isspace (PyStr.rstrip PyStr.isspace s).

Definition get_content_disposition (value : option string) : option string :=
  match value with
  | Some value =>
      Some (PyStr.lower (strip (take_while (λ c, negb (Ascii.eqb c ";")) value)))
  | None => None
  end.

(** ** Notions the further properties are stated with *)

(** [m] raises nothing but exceptions in [Q]. *)
Definition raises_only {A} (Q : exn → Prop) (m : M A) : Prop :=
  ∀ σ e σ', m σ = (Raise e, σ') → Q e.

(** *** What a run leaves alone

    [files] holds what the code itself writes: the rendered body and the
    attachments.  The records of [warnings] are kept apart, and so is what a
    logging handler does with them. *)

(** The addresses a trace records as fetched. *)
Definition urls_fetched (t : list event) : list string :=
  omap (λ e, match e with EvUrlFetch url => Some url | _ => None end) t.

(** No address is fetched. *)
Definition no_fetch (σ σ' : state) : Prop :=
  urls_fetched (trace σ') = urls_fetched (trace σ).

(** No attachment is written. *)
Definition no_write (σ σ' : state) : Prop :=
  files_written (trace σ') = files_written (trace σ).

(** Every file there is keeps its contents, except perhaps the one at
    [keep]. *)
Definition files_kept_but (keep : option string) (σ σ' : state) : Prop :=
  ∀ path content,
    Some path ≠ keep → files σ !! path = Some content → files σ' !! path = Some content.

(** No file appears, disappears or changes, except perhaps the one at
    [keep]. *)
Definition files_same_but (keep : string) (σ σ' : state) : Prop :=
  ∀ path, path ≠ keep → files σ' !! path = files σ !! path.

(** Nothing changes but the files. *)
Definition only_files (σ σ' : state) : Prop :=
  heap σ' = heap σ ∧ warnings σ' = warnings σ ∧ trace σ' = trace σ.

(** The [src] attributes [remove_invalid_urls] asks the network about: those
    that are not [broken], do not begin with [data] and contain no item of
    the blacklist. *)
Definition is_fetched (src : string) : bool :=
  let lower_src := PyStr.lower src in
  negb (String.eqb lower_src "broken")
  && negb (PyStr.startswith lower_src "data")
  && negb (existsb (λ item, PyStr.contains item lower_src) IMAGE_LOAD_BLACKLIST).

(** The fetch raises an exception [can_url_fetch] does not catch. *)
Definition uncaught (o : fetch_outcome) : bool :=
  match o with RaisesOther => true | _ => false end.

(** The fetch raises [HTTPError], [URLError] or [ValueError]. *)
Definition caught (o : fetch_outcome) : bool :=
  match o with RaisesHTTPError | RaisesURLError | RaisesValueError => true | _ => false end.

(** The address [can_url_fetch] opens for [src]. *)
Definition encoded (src : string) : string := PyStr.replace_char " " "%20" src.

(** The fetch of [src] raises an exception that is not caught. *)
Definition fetch_stops (P : Platform) (src : string) : bool :=
  uncaught (urlopen P (encoded src)).

(** The fetch of [src] raises an exception that is caught. *)
Definition fetch_gives_up (P : Platform) (src : string) : bool :=
  caught (urlopen P (encoded src)).

Definition retrieval_warning (src : string) : string :=
  "Could not retrieve img URL " +:+ src +:+ ", replacing with blank.".

(** The [src] attribute an [img] element is left with when the run goes on:
    kept when it begins with [data] (and is not [broken]) or when its address
    was asked for and fetched, deleted otherwise. *)
Definition checked (P : Platform) (img_src : option string) : option string :=
  match img_src with
  | Some src =>
      if negb (String.eqb (PyStr.lower src) "broken")
         && PyStr.startswith (PyStr.lower src) "data"
         || is_fetched src && negb (fetch_stops P src) && negb (fetch_gives_up P src)
      then Some src else None
  | None => None
  end.

(** *** Kinds of exceptions *)

(** Raised while a header value is decoded. *)
Definition is_header_error (e : exn) : bool :=
  match e with
  | UnicodeDecodeError | LookupError | HeaderParseError | OtherException _ => true
  | _ => false
  end.

(** Raised while the file name of a part is decoded. *)
Definition is_filename_error (e : exn) : bool :=
  match e with
  | UnicodeDecodeError | LookupError | HeaderParseError | TypeError | IndexError
  | OtherException _ => true
  | _ => false
  end.

(** Raised while the body is resolved, the fatal failure apart. *)
Definition is_body_error (e : exn) : bool :=
  match e with
  | UnicodeDecodeError | LookupError | TypeError | AssertionError | OtherException _ => true
  | _ => false
  end.

Definition is_fatal (e : exn) : bool :=
  match e with
  | FatalException _ => true
  | _ => false
  end.

(** The fatal failures of the modelled part of a run: no body part, or the
    rendering engine. *)
Definition is_run_fatal (e : exn) : bool :=
  match e with
  | FatalException value =>
      String.eqb value "No body parts found; aborting."
      || String.prefix "wkhtmltopdf " value
  | _ => false
  end.

(** Everything the modelled part of a run can raise. *)
Definition is_run_error (e : exn) : bool :=
  match e with
  | FatalException _ => is_run_fatal e
  | NoReturn | UnboundLocalError => false
  | _ => true
  end.

(** * Properties *)

Local Open Scope list_scope.

(** ** Strings *)

Lemma string_app_length (s t : string) :
  String.length (s +:+ t) = String.length s + String.length t.
Proof. induction s as [|c s IH]; simpl; [done | by rewrite IH]. Qed.

Lemma string_app_nil_l (s : string) : EmptyString +:+ s = s.
Proof. reflexivity. Qed.

Lemma string_app_cons (c : ascii) (s t : string) :
  String c s +:+ t = String c (s +:+ t).
Proof. reflexivity. Qed.

Lemma string_app_empty_r (s : string) : s +:+ EmptyString = s.
Proof. induction s as [|c s IH]; [done|]. by rewrite string_app_cons, IH. Qed.

Lemma string_app_assoc (s t u : string) : (s +:+ t) +:+ u = s +:+ (t +:+ u).
Proof.
  induction s as [|c s IH]; [done|]. by rewrite !string_app_cons, IH.
Qed.

Lemma string_app_inj_r (t s1 s2 : string) : s1 +:+ t = s2 +:+ t → s1 = s2.
Proof.
  revert s2. induction s1 as [|c s1 IH]; intros [|d s2] Heq; simpl in Heq.
  - done.
  - apply (f_equal String.length) in Heq.
    rewrite ?string_app_length in Heq. simpl in Heq.
    rewrite ?string_app_length in Heq. lia.
  - apply (f_equal String.length) in Heq.
    rewrite ?string_app_length in Heq. simpl in Heq.
    rewrite ?string_app_length in Heq. lia.
  - injection Heq as -> Heq. f_equal. by apply IH.
Qed.

(** ** The string functions on small inputs

    The expected values are what Python 3 gives. *)

Example splitext_examples :
  map OsPath.splitext
    ["a/b.txt"; "a.b/c"; ".bashrc"; "a/..x"; "a/.x.y"; "x.tar.gz"; "a."; "/a/b/."; ".."]
  = [("a/b", ".txt"); ("a.b/c", EmptyString); (".bashrc", EmptyString);
     ("a/..x", EmptyString); ("a/.x", ".y"); ("x.tar", ".gz"); ("a", ".");
     ("/a/b/.", EmptyString); ("..", EmptyString)].
Proof. reflexivity. Qed.

Example join_examples :
  [OsPath.join "out" "a"; OsPath.join "out/" "a"; OsPath.join "out" "/a";
   OsPath.join EmptyString "a"]
  = ["out/a"; "out/a"; "/a"; "a"].
Proof. reflexivity. Qed.

Example str_of_nat_examples : map str_of_nat [1; 9; 10; 123] = ["1"; "9"; "10"; "123"].
Proof. reflexivity. Qed.

Example splitlines_example :
  PyStr.splitlines ("a" +:+ String "013" nl +:+ "b" +:+ nl +:+ nl +:+ "c" +:+ nl)
  = ["a"; "b"; EmptyString; "c"].
Proof. reflexivity. Qed.

Example rstrip_example : PyStr.rstrip PyStr.isspace ("ab " +:+ nl +:+ String "009" EmptyString) = "ab".
Proof. reflexivity. Qed.

Example strip_brackets_example :
  PyStr.rstrip (Ascii.eqb ">") (PyStr.lstrip (Ascii.eqb "<") "<<a>>") = "a".
Proof. reflexivity. Qed.

Example html_escape_example : PyStr.html_escape "a<b>&'" = "a&lt;b&gt;&amp;&#x27;".
Proof. reflexivity. Qed.

Example date_pattern_examples :
  map (Re.search (Re.compile DATE_PATTERN)) ["scan 2020-01_02.pdf"; "2020-1-02.pdf"]
  = [true; false].
Proof. reflexivity. Qed.

Example remove_all_example :
  Re.remove_all (Re.compile "Pixel size <= 0 \(0\)") "x Pixel size <= 0 (0) y" = "x  y".
Proof. reflexivity. Qed.

Example re_sub_cid_example :
  (re_sub_cid (λ group1, mret ("[" +:+ group1 +:+ "]"))
     "cid:xcid:abc <img src=cid:a.b@c-d_e> cid:" Example.initial).1
  = Return "[xcid]:abc <img src=[a.b@c-d_e]> cid:".
Proof. reflexivity. Qed.

Example least_example : least [".jpg"; ".jfif"; ".jpe"] = Some ".jfif".
Proof. reflexivity. Qed.

(** ** [get_unique_version] *)

Section unique_version.
Variable fs : filesystem.
Variable parts : string * string.

Lemma numbered_inj : Inj (=) (=) (numbered parts).
Proof.
  intros m n Heq. unfold numbered, str_of_nat in Heq.
  apply (inj (String.app _)) in Heq.
  apply (inj (String.app _)) in Heq.
  apply string_app_inj_r in Heq.
  by apply (inj pretty) in Heq.
Qed.

(** Among the first [size fs + 1] numbered names one is free. *)
Lemma numbered_free :
  ∃ N, 1 ≤ N ≤ size fs + 1 ∧ isfile fs (numbered parts N) = false.
Proof.
  set (cands := numbered parts <$> seq 1 (S (size fs))).
  destruct (decide (Forall (λ p, isfile fs p = true) cands)) as [Hall|Hex].
  - exfalso.
    assert (Hsub : list_to_set (C := gset string) cands ⊆ dom fs).
    { intros p Hp. apply elem_of_list_to_set in Hp.
      rewrite Forall_forall in Hall. apply Hall in Hp.
      apply elem_of_dom. unfold isfile in Hp. by apply bool_decide_eq_true in Hp. }
    apply subseteq_size in Hsub.
    rewrite size_list_to_set, size_dom in Hsub.
    + unfold cands in Hsub. rewrite length_fmap, length_seq in Hsub. lia.
    + apply NoDup_fmap_2_strong; [|apply NoDup_seq]. intros ?? _ _. apply numbered_inj.
  - apply not_Forall_Exists in Hex; [|intros p; apply _].
    apply Exists_exists in Hex as (p & Hp & Hfree).
    apply list_elem_of_fmap in Hp as (N & -> & HN).
    apply elem_of_seq in HN.
    exists N. split; [lia|]. by apply not_true_is_false.
Qed.

Lemma get_unique_version_loop_total fuel filename counter N :
  counter ≤ N → N + 2 ≤ counter + fuel →
  isfile fs (numbered parts N) = false →
  is_Some (get_unique_version_loop fuel fs parts filename counter).
Proof.
  revert filename counter.
  induction fuel as [|fuel IH]; intros filename counter Hle Hfuel Hfree; [lia|].
  simpl. destruct (isfile fs filename); [|by eexists].
  destruct (decide (N = counter)) as [->|Hne].
  - destruct fuel as [|fuel]; [lia|]. simpl. rewrite Hfree. by eexists.
  - apply IH; [lia|lia|done].
Qed.

(** What the loop returns: the name it was entered with when that one is
    free, and otherwise the numbered name of least counter that is free. *)
Lemma get_unique_version_loop_sound fuel filename counter r :
  get_unique_version_loop fuel fs parts filename counter = Some r →
  isfile fs r = false ∧
  (isfile fs filename = false ∧ r = filename
   ∨ isfile fs filename = true ∧
     ∃ N, counter ≤ N ∧ r = numbered parts N ∧
          ∀ M, counter ≤ M < N → isfile fs (numbered parts M) = true).
Proof.
  revert filename counter.
  induction fuel as [|fuel IH]; intros filename counter Hr; [done|].
  simpl in Hr. destruct (isfile fs filename) eqn:Hfile.
  - apply IH in Hr as [Hfree [[Hnow ->]|[Hnow (N & HN & -> & Hbelow)]]].
    + split; [done|]. right. split; [done|]. exists counter.
      split; [lia|]. split; [done|]. intros M HM. lia.
    + split; [done|]. right. split; [done|]. exists N.
      split; [lia|]. split; [done|]. intros M HM.
      destruct (decide (M = counter)) as [->|Hne]; [done|]. apply Hbelow. lia.
  - injection Hr as <-. split; [done|]. by left.
Qed.

Lemma get_unique_version_loop_mono fuel fuel' filename counter r :
  fuel ≤ fuel' →
  get_unique_version_loop fuel fs parts filename counter = Some r →
  get_unique_version_loop fuel' fs parts filename counter = Some r.
Proof.
  revert fuel' filename counter.
  induction fuel as [|fuel IH]; intros fuel' filename counter Hle Hr; [done|].
  destruct fuel' as [|fuel']; [lia|]. simpl in *.
  destruct (isfile fs filename); [|done]. apply IH; [lia|done].
Qed.
End unique_version.

(** The loop ends, on a path at which there is no file. *)
Lemma get_unique_version_returns (fs : filesystem) (p : string) :
  ∃ r, get_unique_version fs p = Some r ∧ isfile fs r = false.
Proof.
  destruct (numbered_free fs (OsPath.splitext p)) as (N & HN & Hfree).
  destruct (get_unique_version_loop_total fs (OsPath.splitext p)
              (size fs + 2) p 1 N) as [r Hr]; [lia|lia|done|].
  exists r. split; [done|].
  by apply get_unique_version_loop_sound in Hr as [Hr _].
Qed.

(** C7. [get_unique_version] always returns: for every candidate path [p]
    and every (finite) file system it yields a path at which there is no
    file; that path is [p] itself when no file exists at [p], and otherwise
    it is [root_N ext], where [(root, ext)] splits the original [p] at its
    extension and [N] is the least of 1, 2, ... whose name is free.  More
    fuel does not change the result. *)
Theorem get_unique_version_spec (fs : filesystem) (p : string) :
  ∃ r, get_unique_version fs p = Some r ∧
       (∀ fuel, size fs + 2 ≤ fuel → get_unique_version_fuel fuel fs p = Some r) ∧
       isfile fs r = false ∧
       (isfile fs p = false → r = p) ∧
       (isfile fs p = true →
        ∃ N, 1 ≤ N ∧
             r = (OsPath.splitext p).1 +:+ "_" +:+ str_of_nat N +:+ (OsPath.splitext p).2 ∧
             ∀ M, 1 ≤ M < N →
                  isfile fs ((OsPath.splitext p).1 +:+ "_" +:+ str_of_nat M
                             +:+ (OsPath.splitext p).2) = true).
Proof.
  destruct (numbered_free fs (OsPath.splitext p)) as (N & HN & Hfree).
  destruct (get_unique_version_loop_total fs (OsPath.splitext p)
              (size fs + 2) p 1 N) as [r Hr]; [lia|lia|done|].
  exists r. split; [done|]. split.
  { intros fuel Hfuel. unfold get_unique_version_fuel.
    by apply (get_unique_version_loop_mono _ _ (size fs + 2)). }
  apply get_unique_version_loop_sound in Hr as [Hr [[Hp ->]|[Hp Hnum]]].
  - split; [done|]. split; [done|]. intros Hp'. congruence.
  - split; [done|]. split; [intros Hp'; congruence|]. intros _. exact Hnum.
Qed.

(** The two halves of [os.path.splitext] make up the path again. *)
Lemma splitext_app (p : string) :
  (OsPath.splitext p).1 +:+ (OsPath.splitext p).2 = p.
Proof.
  assert (Hfull : ∀ s, substring 0 (String.length s) s = s).
  { intros s. induction s as [|d s IH]; simpl; [done|by rewrite IH]. }
  assert (Hsplit : ∀ n s, n ≤ String.length s →
            substring 0 n s +:+ substring n (String.length s - n) s = s).
  { intros n s. revert n. induction s as [|c s IH]; intros [|n] Hn.
    - done.
    - simpl in Hn. lia.
    - change (substring 0 (String.length (String c s)) (String c s) = String c s).
      apply Hfull.
    - change (String c (substring 0 n s +:+ substring n (String.length s - n) s)
              = String c s).
      f_equal. apply IH. simpl in Hn. lia. }
  assert (Hfind : ∀ c s i last d, OsPath.rfind_go c s i last = Some d →
            last = Some d ∨ d < i + String.length s).
  { intros c s. induction s as [|e s IH]; intros i last d Hd; simpl in *.
    - by left.
    - apply IH in Hd as [Hd|Hd]; [|right; lia].
      destruct (Ascii.eqb e c); [injection Hd as <-; right; lia|by left]. }
  unfold OsPath.splitext.
  destruct (OsPath.rfind "." p) as [dot|] eqn:Hdot; [|apply string_app_empty_r].
  match goal with |- context [if ?b then _ else _] => destruct b end;
    [|apply string_app_empty_r].
  simpl. apply Hsplit. unfold OsPath.rfind in Hdot.
  apply Hfind in Hdot as [Hdot|Hdot]; [done|]. simpl in Hdot. lia.
Qed.

(** ** Runs *)

Ltac unfold_monad :=
  unfold mbind, M_bind, mret, M_ret, raise, logger_warning, emit, modify, get_state,
    set_new, set_read, set_add, set_difference, set_copy, write_file in *.

Lemma bind_return {A B} (m : M A) (f : A → M B) σ a σ' :
  m σ = (Return a, σ') → (m ≫= f) σ = f a σ'.
Proof. intros Hm. unfold mbind, M_bind. by rewrite Hm. Qed.

Lemma bind_unfold {A B} (m : M A) (f : A → M B) σ :
  (m ≫= f) σ
  = match m σ with
    | (Return a, σ') => f a σ'
    | (Raise e, σ') => (Raise e, σ')
    end.
Proof. reflexivity. Qed.

(** ** Header decoder *)

Section header_decoder.
Variable P : Platform.

Lemma get_utf8_header_loop_concat segments texts hdr σ :
  Forall2 (λ segment text, segment_decoding P segment = Decoded text) segments texts →
  get_utf8_header_loop P segments hdr σ = (Return (hdr +:+ concatenation texts), σ).
Proof.
  intros Hall. revert hdr.
  induction Hall as [|[[b|s] charset] text segments texts Hseg _ IH]; intros hdr; simpl.
  - by rewrite string_app_empty_r.
  - assert (Hdec : str_decode P b
              (if truthy charset then default EmptyString charset else "ASCII")
            = Decoded text).
    { destruct charset as [charset|]; simpl in *; [|done].
      by destruct (String.eqb charset EmptyString). }
    rewrite Hdec, IH. by rewrite string_app_assoc.
  - simpl in Hseg. injection Hseg as ->. rewrite IH. by rewrite string_app_assoc.
Qed.

(** The first segment that cannot be decoded stops the decoder. *)
Lemma get_utf8_header_loop_fails segments texts segment rest hdr σ :
  Forall2 (λ segment text, segment_decoding P segment = Decoded text) segments texts →
  (∀ text, segment_decoding P segment ≠ Decoded text) →
  ∃ e, get_utf8_header_loop P (segments ++ segment :: rest) hdr σ = (Raise e, σ).
Proof.
  intros Hall Hbad. revert hdr.
  induction Hall as [|[[b|s] charset] text segments texts Hseg _ IH]; intros hdr; simpl.
  - destruct segment as [[b|s] charset]; [|by destruct (Hbad s)].
    assert (Hsame : str_decode P b
              (if truthy charset then default EmptyString charset else "ASCII")
            = segment_decoding P (Bytes b, charset)).
    { destruct charset as [charset|]; simpl; [|done].
      by destruct (String.eqb charset EmptyString). }
    rewrite Hsame.
    destruct (segment_decoding P (Bytes b, charset)) eqn:Hd;
      [by destruct (Hbad s)|by eexists|by eexists|by eexists].
  - assert (Hdec : str_decode P b
              (if truthy charset then default EmptyString charset else "ASCII")
            = Decoded text).
    { destruct charset as [charset|]; simpl in *; [|done].
      by destruct (String.eqb charset EmptyString). }
    rewrite Hdec. apply IH.
  - apply IH.
Qed.
End header_decoder.

(** C6. Whenever [decode_header] splits a header value into segments and
    every segment can be decoded with the charset it declares (ASCII for a
    segment of bytes that declares none), [get_utf8_header] returns the
    decoded segments put one after the other, in their order, with nothing
    between them, and changes nothing else. *)
Theorem get_utf8_header_concatenation (P : Platform) (header : string)
    (segments : list (chunk * option string)) (texts : list string) (σ : state) :
  decode_header P header = Some segments →
  Forall2 (λ segment text, segment_decoding P segment = Decoded text) segments texts →
  get_utf8_header P header σ = (Return (concatenation texts), σ).
Proof.
  intros Hsplit Hall. unfold get_utf8_header. rewrite Hsplit.
  by rewrite (get_utf8_header_loop_concat P segments texts).
Qed.

Lemma get_utf8_header_concatenation_witness :
  get_utf8_header (Example.platform Example.quiet_engine)
    "=?utf-8?q?report?=.pdf" Example.initial
  = (Return "report.pdf", Example.initial).
Proof.
  apply (get_utf8_header_concatenation (Example.platform Example.quiet_engine)
           "=?utf-8?q?report?=.pdf"
           [(Bytes (Example.bytes_of "report"), Some "utf-8");
            (Bytes (Example.bytes_of ".pdf"), None)]
           ["report"; ".pdf"]).
  - reflexivity.
  - repeat constructor.
Defined.

(** [extract_part_filename] decodes the first segment of an encoded file
    name and returns it, whatever segments follow. *)
Lemma extract_part_filename_first_segment (P : Platform) (part : Part) (filename : string)
    (b : bytes) (charset : string) (rest : list (chunk * option string)) (text : string)
    (σ : state) :
  get_filename part = Some filename →
  decode_header P filename = Some ((Bytes b, Some charset) :: rest) →
  str_decode P b charset = Decoded text →
  extract_part_filename P part σ = (Return (Some text), σ).
Proof.
  intros Hname Hsplit Hdecode. unfold extract_part_filename.
  by rewrite Hname, Hsplit, Hdecode.
Qed.

(** C5. On the file name [=?utf-8?q?report?=.pdf], which [decode_header]
    splits into the segment [report] in UTF-8 and the plain segment [.pdf],
    [extract_part_filename] returns [report]: the first segment only, while
    the header decoder returns [report.pdf]. *)
Theorem extract_part_filename_first_segment_only :
  let P := Example.platform Example.quiet_engine in
  let part := Example.with_filename "=?utf-8?q?report?=.pdf" (Example.leaf "application/pdf") in
  extract_part_filename P part Example.initial = (Return (Some "report"), Example.initial)
  ∧ get_utf8_header P "=?utf-8?q?report?=.pdf" Example.initial
    = (Return "report.pdf", Example.initial).
Proof. split; reflexivity. Qed.

(** ** Plain-text bodies *)

(** Under the transfer encoding [8bit] the text of the part is returned as
    it is. *)
Lemma handle_plain_message_body_8bit (P : Platform) (part : Part) (σ : state) :
  header_content_transfer_encoding part = Some "8bit" →
  is_multipart part = false →
  handle_plain_message_body P part σ = (Return (get_payload part), σ).
Proof.
  intros Hcte Hleaf. unfold handle_plain_message_body.
  by rewrite bool_decide_eq_true_2, Hleaf.
Qed.

(** Under any other transfer encoding the decoded text is wrapped line by
    line, escaped and enclosed; a payload that does not decode is decoded
    with replacement and a warning is logged. *)
Lemma handle_plain_message_body_decoded (P : Platform) (part : Part) (σ : state) :
  header_content_transfer_encoding part ≠ Some "8bit" →
  is_multipart part = false →
  let charset :=
    match get_content_charset part with
    | Some charset => if String.eqb charset EmptyString then "utf-8" else charset
    | None => "utf-8"
    end in
  let document (text : string) :=
    "<html><body><pre>" +:+ nl
    +:+ PyStr.html_escape
          (PyStr.join nl (map (λ line, textwrap_fill P line 80) (PyStr.splitlines text)))
    +:+ nl +:+ "</pre></body></html>" in
  handle_plain_message_body P part σ =
    match str_decode P (get_payload_decoded part) charset with
    | Decoded text => (Return (document text), σ)
    | DecodeError =>
        (Return (document (str_decode_replace P (get_payload_decoded part) charset)),
         add_warning "UnicodeDecodeErrors in plain message body, using 'replace'" σ)
    | UnknownCharset => (Raise LookupError, σ)
    | OtherError name => (Raise (OtherException name), σ)
    end.
Proof.
  intros Hcte Hleaf charset document. unfold handle_plain_message_body.
  rewrite bool_decide_eq_false_2, Hleaf by done.
  assert (Hcharset : (if truthy (get_content_charset part)
                      then default EmptyString (get_content_charset part) else "utf-8")
                     = charset).
  { unfold charset. destruct (get_content_charset part) as [cs|]; simpl; [|done].
    by destruct (String.eqb cs EmptyString). }
  rewrite Hcharset. unfold_monad.
  by destruct (str_decode P (get_payload_decoded part) charset).
Qed.

(** C3. A [text/plain] part whose Content-Transfer-Encoding is [8bit] and
    whose text is [1 < 2] comes back from [handle_plain_message_body] as it
    is: not escaped and not enclosed in an HTML document, while the same
    text under another transfer encoding comes back escaped inside
    [<html><body><pre>]. *)
Theorem handle_plain_message_body_8bit_unescaped :
  let P := Example.platform Example.quiet_engine in
  handle_plain_message_body P
    (Example.with_payload (Some "8bit") "1 < 2" (Example.leaf "text/plain")) Example.initial
  = (Return "1 < 2", Example.initial)
  ∧ handle_plain_message_body P
      (Example.with_payload (Some "7bit") "1 < 2" (Example.leaf "text/plain")) Example.initial
    = (Return ("<html><body><pre>" +:+ nl +:+ "1 &lt; 2" +:+ nl +:+ "</pre></body></html>"),
       Example.initial).
Proof. split; reflexivity. Qed.

(** ** Remote images *)



(** ** Rendering engine *)


Lemma never_fatal_ret {A} (a : A) : never_fatal (mret a).
Proof. intros σ value σ'. unfold_monad. congruence. Qed.

Lemma never_fatal_raise {A} (e : exn) :
  (∀ value, e ≠ FatalException value) → never_fatal (raise (A := A) e).
Proof. intros He σ value σ'. unfold_monad. specialize (He value). congruence. Qed.

Lemma never_fatal_bind {A B} (m : M A) (f : A → M B) :
  never_fatal m → (∀ a, never_fatal (f a)) → never_fatal (m ≫= f).
Proof.
  intros Hm Hf σ value σ'. unfold mbind, M_bind.
  destruct (m σ) as [[a|e] σ1] eqn:Hrun; [apply Hf|].
  intros [= -> ->]. by apply Hm in Hrun.
Qed.

Lemma never_fatal_modify (f : state → state) : never_fatal (modify f).
Proof. intros σ value σ'. unfold_monad. congruence. Qed.

Lemma never_fatal_get_state : never_fatal get_state.
Proof. intros σ value σ'. unfold_monad. congruence. Qed.

Create HintDb never_fatal.
#[local] Hint Resolve never_fatal_ret never_fatal_raise never_fatal_bind
  never_fatal_modify never_fatal_get_state : never_fatal.

Lemma never_fatal_get_utf8_header (P : Platform) (header : string) :
  never_fatal (get_utf8_header P header).
Proof.
  unfold get_utf8_header. destruct (decode_header P header) as [segments|];
    [|by apply never_fatal_raise].
  generalize EmptyString.
  induction segments as [|[[b|s] charset] segments IH]; intros hdr; simpl.
  - apply never_fatal_ret.
  - destruct (str_decode P b _); [apply IH|by apply never_fatal_raise..].
  - apply IH.
Qed.

Lemma never_fatal_add_update_pdf_metadata (P : Platform) filename update_dictionary :
  never_fatal (add_update_pdf_metadata P filename update_dictionary).
Proof.
  unfold add_update_pdf_metadata.
  apply never_fatal_bind; [apply never_fatal_get_state|]. intros σ.
  destruct (files σ !! filename) as [pdf|]; [|by apply never_fatal_raise].
  destruct (pdf_merge_info P pdf _); [apply never_fatal_modify|by apply never_fatal_raise].
Qed.

(** C2, counterexample. The engine ends with code 1 and the diagnostic
    "Exit with code 1 due to network error: ContentNotFoundError": the run
    goes on, no failure is raised.  And it ends with code 0 and a libpng
    warning followed by a line feed: removing the benign patterns leaves the
    line feed, which is not empty, and again nothing is raised. *)
Lemma output_body_pdf_benign_exit_code :
  let engine1 :=
    {| returncode := 1; output := [];
       error := Example.bytes_of
                  ("Exit with code 1 due to network error: ContentNotFoundError" +:+ nl);
       produced := Some [] |} in
  let engine0 :=
    {| returncode := 0; output := [];
       error := Example.bytes_of
                  ("libpng warning: iCCP: known incorrect sRGB profile" +:+ nl);
       produced := Some [] |} in
  returncode engine1 ≠ 0%Z
  ∧ (output_body_pdf (Example.platform engine1) (Example.message []) "<p>body</p>"
       "out/mail.pdf" Example.initial).1 = Return ()
  ∧ strip_errors (errors_ignore (Example.platform engine0))
      ("libpng warning: iCCP: known incorrect sRGB profile" +:+ nl) = nl
  ∧ (output_body_pdf (Example.platform engine0) (Example.message []) "<p>body</p>"
       "out/mail.pdf" Example.initial).1 = Return ().
Proof. repeat split; try reflexivity. discriminate. Qed.

(** C2, amended. Let the engine have written nothing on its standard
    output, its diagnostic text be valid UTF-8 and its exit code be 0 or
    more.  Then [output_body_pdf] raises [FatalException] exactly when the
    exit code is positive and the diagnostic text is empty up to trailing
    white space, or when the text left after removing the matches of the
    benign patterns is not empty up to trailing white space.  So a positive
    exit code whose whole diagnostic is benign is not fatal, and white space
    left over after the removal is not an error. *)
Theorem output_body_pdf_fatal_iff (P : Platform) (input_email : Message)
    (payload output_file_name : string) (σ : state) (text : string) :
  let wkh2p_process := wkhtmltopdf P payload output_file_name in
  output wkh2p_process = [] →
  str_decode P (error wkh2p_process) "utf-8" = Decoded text →
  (0 ≤ returncode wkh2p_process)%Z →
  let original_error := PyStr.rstrip PyStr.isspace text in
  let stripped_error := PyStr.rstrip PyStr.isspace (strip_errors (errors_ignore P) text) in
  (∃ value σ', output_body_pdf P input_email payload output_file_name σ
               = (Raise (FatalException value), σ'))
  ↔ ((0 < returncode wkh2p_process)%Z ∧ original_error = EmptyString)
    ∨ stripped_error ≠ EmptyString.
Proof.
  intros proc Hout Herr Hrc original_error stripped_error.
  unfold output_body_pdf. fold proc. rewrite Hout, Herr.
  fold original_error stripped_error.
  rewrite bool_decide_eq_true_2 by done. simpl negb. cbv iota.
  set (first := match produced proc with
                | Some pdf => modify (λ σ, set_files (<[output_file_name:=pdf]> (files σ)) σ)
                | None => mret ()
                end).
  assert (Hfirst : ∃ σ1, first σ = (Return (), σ1)).
  { unfold first. destruct (produced proc); unfold_monad; by eexists. }
  destruct Hfirst as [σ1 Hfirst].
  rewrite (bind_return _ _ _ _ _ Hfirst).
  destruct (Z.ltb_spec 0 (returncode proc)) as [Hpos|Hpos];
    destruct (String.eqb_spec original_error EmptyString) as [Horig|Horig];
    destruct (String.eqb_spec stripped_error EmptyString) as [Hstrip|Hstrip]; simpl.
  all: try (split; [intros _; tauto|intros _; unfold_monad; do 2 eexists; reflexivity]).
  all: split; [|intros [[? ?]|?]; first [congruence | lia | tauto]].
  all: intros (value & σ' & Hrun); exfalso; revert Hrun.
  all: apply never_fatal_bind;
    [|intros ?; apply never_fatal_add_update_pdf_metadata].
  all: unfold HEADER_MAPPING; simpl.
  all: repeat (apply never_fatal_bind; [|intros ?]);
    repeat match goal with
           | |- never_fatal (match ?x with _ => _ end) => destruct x
           end;
    repeat (apply never_fatal_bind; [|intros ?]);
    auto using never_fatal_ret, never_fatal_get_utf8_header.
Qed.

Lemma output_body_pdf_fatal_iff_witness :
  let engine :=
    {| returncode := 1; output := [];
       error := Example.bytes_of ("Segmentation fault" +:+ nl); produced := None |} in
  ∃ value σ', output_body_pdf (Example.platform engine) (Example.message []) "<p>body</p>"
                "out/mail.pdf" Example.initial
              = (Raise (FatalException value), σ').
Proof.
  intros engine.
  apply (output_body_pdf_fatal_iff (Example.platform engine) (Example.message [])
           "<p>body</p>" "out/mail.pdf" Example.initial ("Segmentation fault" +:+ nl)).
  - reflexivity.
  - reflexivity.
  - simpl. lia.
  - right. vm_compute. discriminate.
Defined.

(** ** Inline images *)

Lemma substring_full (s : string) : substring 0 (String.length s) s = s.
Proof. induction s as [|d s IH]; simpl; [done|by rewrite IH]. Qed.

Lemma take_while_app (p : ascii → bool) (s post : string) :
  PyStr.forallb p s = true →
  match post with String c _ => p c = false | EmptyString => True end →
  take_while p (s +:+ post) = s.
Proof.
  intros Hs Hpost. induction s as [|c s IH].
  - rewrite string_app_nil_l. destruct post as [|c post]; simpl; [done|by rewrite Hpost].
  - rewrite string_app_cons. simpl in *. apply andb_prop in Hs as [-> Hs].
    by rewrite IH.
Qed.

Lemma cid_match_here (group1 post : string) :
  group1 ≠ EmptyString →
  PyStr.forallb is_cid_char group1 = true →
  match post with String c _ => is_cid_char c = false | EmptyString => True end →
  cid_match ("cid:" +:+ group1 +:+ post) = Some group1.
Proof.
  intros Hne Hall Hpost. unfold cid_match.
  change ("cid:" +:+ group1 +:+ post)
    with (String "c" (String "i" (String "d" (String ":" (group1 +:+ post))))).
  simpl String.prefix. simpl String.length. simpl substring.
  replace (String.length (group1 +:+ post) - 0) with (String.length (group1 +:+ post)) by lia.
  rewrite substring_full, take_while_app by done.
  by destruct group1.
Qed.

Lemma re_sub_cid_go_skip (repl : string → M string) (passed rest : string) (σ : state) :
  re_sub_cid_go repl (String.length passed) (passed +:+ rest) σ
  = re_sub_cid_go repl 0 rest σ.
Proof.
  induction passed as [|c passed IH]; [done|].
  rewrite string_app_cons. simpl. apply IH.
Qed.

(** At a match the replacement is computed first, then the scan goes on
    behind the match. *)
Lemma re_sub_cid_go_here (repl : string → M string) (c : ascii) (r : string) :
  re_sub_cid_go repl 0 (String c r) =
    match cid_match (String c r) with
    | Some group1 =>
        replacement ← repl group1;
        rest ← re_sub_cid_go repl (3 + String.length group1) r;
        mret (replacement +:+ rest)
    | None => rest ← re_sub_cid_go repl 0 r; mret (String c rest)
    end.
Proof. reflexivity. Qed.

Lemma re_sub_cid_at_match (repl : string → M string) (group1 post : string) (σ : state) :
  group1 ≠ EmptyString →
  PyStr.forallb is_cid_char group1 = true →
  match post with String c _ => is_cid_char c = false | EmptyString => True end →
  re_sub_cid repl ("cid:" +:+ group1 +:+ post) σ
  = (replacement ← repl group1; rest ← re_sub_cid repl post; mret (replacement +:+ rest)) σ.
Proof.
  intros Hne Hall Hpost. unfold re_sub_cid.
  pose proof (cid_match_here group1 post Hne Hall Hpost) as Hmatch.
  change ("cid:" +:+ group1 +:+ post)
    with (String "c" ("id:" +:+ group1 +:+ post)) in *.
  rewrite re_sub_cid_go_here, Hmatch.
  unfold mbind, M_bind. destruct (repl group1 σ) as [[replacement|e] σ1]; [|done].
  replace ("id:" +:+ group1 +:+ post) with (("id:" +:+ group1) +:+ post)
    by (by rewrite string_app_assoc).
  replace (3 + String.length group1) with (String.length ("id:" +:+ group1))
    by (by rewrite string_app_length).
  by rewrite re_sub_cid_go_skip.
Qed.

(** Where no match starts the character is kept. *)
Lemma re_sub_cid_no_match (repl : string → M string) (c : ascii) (r : string) (σ : state) :
  cid_match (String c r) = None →
  re_sub_cid repl (String c r) σ
  = (rest ← re_sub_cid repl r; mret (String c rest)) σ.
Proof. intros Hno. unfold re_sub_cid. by rewrite re_sub_cid_go_here, Hno. Qed.

Lemma re_sub_cid_without_cid (repl : string → M string) (s : string) (σ : state) :
  PyStr.contains "cid:" s = false → re_sub_cid repl s σ = (Return s, σ).
Proof.
  induction s as [|c r IH]; [done|]. intros Hno.
  cbn [PyStr.contains] in Hno. apply orb_false_elim in Hno as [Hhere Hrest].
  rewrite re_sub_cid_no_match.
  - unfold mbind, M_bind. by rewrite IH.
  - unfold cid_match. by rewrite Hhere.
Qed.

Lemma find_by_content_id_first (message : Message) (cid : string) id part :
  find_part_by_content_id message cid = Some (id, part)
  ↔ first_part (has_content_id cid) message id part.
Proof. unfold find_part_by_content_id, first_part. apply list_find_Some. Qed.

Lemma find_by_content_id_none (message : Message) (cid : string) :
  find_part_by_content_id message cid = None
  ↔ Forall (λ other, ¬ has_content_id cid other) (walk message).
Proof. unfold find_part_by_content_id. apply list_find_None. Qed.

Lemma find_by_name_first (message : Message) (cid : string) id part :
  find_part_by_content_type_name message cid = Some (id, part)
  ↔ first_part (has_name cid) message id part.
Proof. unfold find_part_by_content_type_name, first_part. apply list_find_Some. Qed.

Lemma find_by_name_none (message : Message) (cid : string) :
  find_part_by_content_type_name message cid = None
  ↔ Forall (λ other, ¬ has_name cid other) (walk message).
Proof. unfold find_part_by_content_type_name. apply list_find_None. Qed.

Lemma lookup_cid_resolves (message : Message) (cid : string) id part :
  lookup_cid message cid = Some (id, part) ↔ resolves_to message cid id part.
Proof.
  unfold lookup_cid, resolves_to.
  destruct (find_part_by_content_id message cid) as [[id' part']|] eqn:Hfind.
  - apply find_by_content_id_first in Hfind as Hfirst. split.
    + intros [= <- <-]. by left.
    + intros [Hthis|[Hnone _]].
      * apply find_by_content_id_first in Hthis. congruence.
      * apply find_by_content_id_none in Hnone. congruence.
  - apply find_by_content_id_none in Hfind as Hnone. rewrite find_by_name_first. split.
    + intros Hname. by right.
    + intros [Hthis|[_ Hname]]; [|done].
      apply find_by_content_id_first in Hthis. congruence.
Qed.

Lemma lookup_cid_unresolved (message : Message) (cid : string) :
  lookup_cid message cid = None ↔ unresolved message cid.
Proof.
  unfold lookup_cid, unresolved.
  rewrite <- find_by_content_id_none, <- find_by_name_none.
  destruct (find_part_by_content_id message cid) as [found|].
  - split; [done|]. by intros [? _].
  - split; [by intros ->|]. by intros [_ ?].
Qed.

Lemma remove_chars_ext (p q : ascii → bool) (s : string) :
  (∀ c, p c = q c) → PyStr.remove_chars p s = PyStr.remove_chars q s.
Proof. intros Hpq. induction s as [|c s IH]; simpl; [done|]. by rewrite Hpq, IH. Qed.

Lemma cid_replace_cases (P : Platform) (message : Message) (used : loc) (cid : string)
    (σ : state) :
  cid_replace P message used cid σ =
    match lookup_cid message cid with
    | Some (id, image_part) =>
        if bool_decide (header_content_transfer_encoding image_part = Some "base64") then
          if is_multipart image_part then (Raise TypeError, σ)
          else (Return (data_uri P image_part), added used id σ)
        else (Raise AssertionError, σ)
    | None =>
        (Return "broken",
         add_warning ("Could not find image cid " +:+ cid +:+ " in email content.") σ)
    end.
Proof.
  unfold cid_replace. fold (lookup_cid message cid).
  destruct (lookup_cid message cid) as [[id image_part]|]; [|done].
  case_bool_decide; [|done]. destruct (is_multipart image_part); [done|].
  unfold_monad. unfold data_uri, added.
  rewrite (remove_chars_ext _ (λ c, Ascii.eqb c "013" || Ascii.eqb c "010" || Ascii.eqb c "009"));
    [done|].
  intros c. simpl. by rewrite orb_false_r, orb_assoc.
Qed.

(** ** Relations kept by every run *)

Global Instance heap_grows_preorder : PreOrder heap_grows.
Proof.
  split.
  - intros σ l s Hl. by exists s.
  - intros σ1 σ2 σ3 H12 H23 l s Hl.
    destruct (H12 l s Hl) as (s2 & Hl2 & Hsub2).
    destruct (H23 l s2 Hl2) as (s3 & Hl3 & Hsub3).
    exists s3. split; [done|set_solver].
Qed.

Global Instance same_below_preorder n : PreOrder (same_below n).
Proof.
  split.
  - intros σ Hn. by split.
  - intros σ1 σ2 σ3 H12 H23 Hn.
    destruct (H12 Hn) as [Hn2 Heq2]. destruct (H23 Hn2) as [Hn3 Heq3].
    split; [done|]. intros l Hl. by rewrite Heq3, Heq2.
Qed.

Global Instance quiet_preorder : PreOrder quiet.
Proof.
  split.
  - by intros σ.
  - intros σ1 σ2 σ3 [Hh12 Hp12] [Hh23 Hp23]. split; congruence.
Qed.

Global Instance no_pass_preorder : PreOrder no_pass.
Proof.
  split.
  - by intros σ.
  - intros σ1 σ2 σ3 H12 H23. unfold no_pass in *. congruence.
Qed.

Lemma quiet_heap_grows σ σ' : quiet σ σ' → heap_grows σ σ'.
Proof. intros [Hheap _] l s Hl. exists s. by rewrite Hheap. Qed.

Lemma quiet_same_below n σ σ' : quiet σ σ' → same_below n σ σ'.
Proof. intros [Hheap _] Hn. by rewrite Hheap. Qed.

Lemma quiet_no_pass σ σ' : quiet σ σ' → no_pass σ σ'.
Proof. by intros [_ Hpass]. Qed.

Lemma run_rel_weaken {A} (R R' : state → state → Prop) (m : M A) :
  (∀ σ σ', R σ σ' → R' σ σ') → run_rel R m → run_rel R' m.
Proof. intros Himp Hm σ. apply Himp, Hm. Qed.

Section run_rel.
Context (R : state → state → Prop) `{!PreOrder R}.

Lemma run_rel_ret {A} (a : A) : run_rel R (mret a).
Proof. intros σ. unfold_monad. simpl. reflexivity. Qed.

Lemma run_rel_raise {A} (e : exn) : run_rel R (raise (A := A) e).
Proof. intros σ. unfold_monad. simpl. reflexivity. Qed.

Lemma run_rel_get_state : run_rel R get_state.
Proof. intros σ. unfold_monad. simpl. reflexivity. Qed.

Lemma run_rel_set_read l : run_rel R (set_read l).
Proof. intros σ. unfold_monad. simpl. reflexivity. Qed.

Lemma run_rel_bind {A B} (m : M A) (f : A → M B) :
  run_rel R m → (∀ a, run_rel R (f a)) → run_rel R (m ≫= f).
Proof.
  intros Hm Hf σ. unfold mbind, M_bind. specialize (Hm σ).
  destruct (m σ) as [[a|e] σ1]; simpl in *; [|done].
  transitivity σ1; [done|apply Hf].
Qed.

Lemma run_rel_for_each {A} (l : list A) (body : A → M unit) :
  (∀ x, run_rel R (body x)) → run_rel R (for_each l body).
Proof.
  intros Hbody. induction l as [|x l IH]; simpl.
  - apply run_rel_ret.
  - apply run_rel_bind; [apply Hbody|by intros _].
Qed.

Lemma run_rel_map_each {A B} (f : A → M B) (l : list A) :
  (∀ x, run_rel R (f x)) → run_rel R (map_each f l).
Proof.
  intros Hf. induction l as [|x l IH]; simpl.
  - apply run_rel_ret.
  - apply run_rel_bind; [apply Hf|intros y].
    apply run_rel_bind; [apply IH|intros ys]. apply run_rel_ret.
Qed.
End run_rel.

(** Splits a goal [run_rel R m] along the structure of [m]. *)
Ltac run_rel_step :=
  lazymatch goal with
  | |- run_rel _ (mret _) => apply run_rel_ret; apply _
  | |- run_rel _ (raise _) => apply run_rel_raise; apply _
  | |- run_rel _ get_state => apply run_rel_get_state; apply _
  | |- run_rel _ (set_read _) => apply run_rel_set_read; apply _
  | |- run_rel _ (mbind _ _) => apply run_rel_bind; [apply _| |intros ?]
  | |- run_rel _ (for_each _ _) => apply run_rel_for_each; [apply _|intros ?]
  | |- run_rel _ (map_each _ _) => apply run_rel_map_each; [apply _|intros ?]
  | |- run_rel _ (if ?b then _ else _) => destruct b
  | |- run_rel _ (match ?x with _ => _ end) => destruct x
  end.

Ltac run_rel_auto :=
  repeat (cbv beta; first [solve [eauto with run_rel] | run_rel_step]); eauto with run_rel.

Lemma quiet_logger_warning msg : run_rel quiet (logger_warning msg).
Proof. by intros σ. Qed.

Lemma quiet_set_files f : run_rel quiet (modify (λ σ, set_files (f σ) σ)).
Proof. by intros σ. Qed.

Lemma quiet_emit_write path : run_rel quiet (emit (EvWrite path)).
Proof.
  intros σ. split; [done|]. unfold_monad. simpl. unfold attachment_passes.
  by rewrite omap_app, app_nil_r.
Qed.

Lemma quiet_emit_fetch url : run_rel quiet (emit (EvUrlFetch url)).
Proof.
  intros σ. split; [done|]. unfold_monad. simpl. unfold attachment_passes.
  by rewrite omap_app, app_nil_r.
Qed.

Lemma quiet_write_file path content : run_rel quiet (write_file path content).
Proof.
  unfold write_file. apply run_rel_bind; [apply _|apply quiet_emit_write|intros _].
  apply quiet_set_files.
Qed.

Create HintDb run_rel.
#[local] Hint Resolve quiet_logger_warning quiet_set_files quiet_emit_write
  quiet_emit_fetch quiet_write_file : run_rel.

Lemma quiet_get_utf8_header (P : Platform) header : run_rel quiet (get_utf8_header P header).
Proof.
  unfold get_utf8_header. destruct (decode_header P header) as [segments|];
    [|run_rel_auto].
  generalize EmptyString.
  induction segments as [|[[b|s] charset] segments IH]; intros hdr; simpl;
    run_rel_auto.
Qed.
#[local] Hint Resolve quiet_get_utf8_header : run_rel.

Lemma quiet_get_formatted_header_info (P : Platform) input_email :
  run_rel quiet (get_formatted_header_info P input_email).
Proof.
  unfold get_formatted_header_info, FORMATTED_HEADERS_TO_INCLUDE. simpl.
  run_rel_auto.
Qed.
#[local] Hint Resolve quiet_get_formatted_header_info : run_rel.

Lemma quiet_handle_plain_message_body (P : Platform) part :
  run_rel quiet (handle_plain_message_body P part).
Proof. unfold handle_plain_message_body. run_rel_auto. Qed.
#[local] Hint Resolve quiet_handle_plain_message_body : run_rel.

Lemma quiet_add_update_pdf_metadata (P : Platform) filename update_dictionary :
  run_rel quiet (add_update_pdf_metadata P filename update_dictionary).
Proof.
  unfold add_update_pdf_metadata. run_rel_auto.
Qed.
#[local] Hint Resolve quiet_add_update_pdf_metadata : run_rel.

Lemma quiet_output_body_pdf (P : Platform) input_email payload output_file_name :
  run_rel quiet (output_body_pdf P input_email payload output_file_name).
Proof.
  unfold output_body_pdf, HEADER_MAPPING. simpl.
  run_rel_auto.
Qed.
#[local] Hint Resolve quiet_output_body_pdf : run_rel.

Lemma quiet_can_url_fetch (P : Platform) src : run_rel quiet (can_url_fetch P src).
Proof. unfold can_url_fetch. run_rel_auto. Qed.
#[local] Hint Resolve quiet_can_url_fetch : run_rel.

Lemma quiet_check_img (P : Platform) img_src : run_rel quiet (check_img P img_src).
Proof. unfold check_img. run_rel_auto. Qed.
#[local] Hint Resolve quiet_check_img : run_rel.

Lemma quiet_remove_invalid_urls (P : Platform) payload : run_rel quiet (remove_invalid_urls P payload).
Proof. unfold remove_invalid_urls. run_rel_auto. Qed.
#[local] Hint Resolve quiet_remove_invalid_urls : run_rel.

Lemma quiet_extract_part_filename (P : Platform) part : run_rel quiet (extract_part_filename P part).
Proof. unfold extract_part_filename. run_rel_auto. Qed.
#[local] Hint Resolve quiet_extract_part_filename : run_rel.

Lemma quiet_handle_attachment (P : Platform) input_email output_directory add_prefix ignore_floating id :
  run_rel quiet (handle_attachment P input_email output_directory add_prefix
                   ignore_floating id).
Proof.
  unfold handle_attachment. run_rel_auto.
Qed.
#[local] Hint Resolve quiet_handle_attachment : run_rel.

(** ** What the set operations do to the heap *)

Ltac from_quiet :=
  lazymatch goal with
  | |- run_rel heap_grows _ => apply (run_rel_weaken quiet); [apply quiet_heap_grows|]
  | |- run_rel (same_below _) _ => apply (run_rel_weaken quiet); [apply quiet_same_below|]
  | |- run_rel no_pass _ => apply (run_rel_weaken quiet); [apply quiet_no_pass|]
  end;
  eauto with run_rel.

Lemma heap_grows_app σ h :
  heap_grows σ (set_heap (heap σ ++ h) σ).
Proof.
  intros l s Hl. exists s. split; [|done]. simpl.
  rewrite lookup_app_l; [done|]. by apply lookup_lt_Some in Hl.
Qed.

Lemma same_below_app n σ h :
  same_below n σ (set_heap (heap σ ++ h) σ).
Proof.
  intros Hn. simpl. split; [rewrite length_app; lia|].
  intros l Hl. apply lookup_app_l. lia.
Qed.

Lemma heap_grows_set_new : run_rel heap_grows set_new.
Proof. intros σ. apply heap_grows_app. Qed.

Lemma heap_grows_set_difference a b : run_rel heap_grows (set_difference a b).
Proof. intros σ. apply heap_grows_app. Qed.

Lemma heap_grows_set_copy a : run_rel heap_grows (set_copy a).
Proof. intros σ. apply heap_grows_app. Qed.

Lemma heap_grows_added l id σ : heap_grows σ (added l id σ).
Proof.
  intros l' s Hl'. unfold added. simpl.
  destruct (decide (l = l')) as [->|Hne].
  - exists ({[id]} ∪ s). rewrite list_lookup_alter_eq, Hl'. split; [done|set_solver].
  - exists s. by rewrite list_lookup_alter_ne.
Qed.

Lemma heap_grows_set_add l id : run_rel heap_grows (set_add l id).
Proof. intros σ. apply heap_grows_added. Qed.

Lemma heap_grows_emit e : run_rel heap_grows (emit e).
Proof. intros σ l s Hl. by exists s. Qed.

Lemma same_below_set_new n : run_rel (same_below n) set_new.
Proof. intros σ. apply same_below_app. Qed.

Lemma same_below_set_difference n a b : run_rel (same_below n) (set_difference a b).
Proof. intros σ. apply same_below_app. Qed.

Lemma same_below_set_copy n a : run_rel (same_below n) (set_copy a).
Proof. intros σ. apply same_below_app. Qed.

Lemma same_below_set_add n l id : n ≤ l → run_rel (same_below n) (set_add l id).
Proof.
  intros Hnl σ Hn. simpl. rewrite length_alter. split; [done|].
  intros l' Hl'. apply list_lookup_alter_ne. lia.
Qed.

Lemma same_below_emit n e : run_rel (same_below n) (emit e).
Proof. intros σ Hn. by split. Qed.

Lemma no_pass_set_new : run_rel no_pass set_new.
Proof. by intros σ. Qed.

Lemma no_pass_set_add l id : run_rel no_pass (set_add l id).
Proof. by intros σ. Qed.

Lemma no_pass_set_difference a b : run_rel no_pass (set_difference a b).
Proof. by intros σ. Qed.

Lemma no_pass_set_copy a : run_rel no_pass (set_copy a).
Proof. by intros σ. Qed.

#[local] Hint Resolve heap_grows_set_new heap_grows_set_difference heap_grows_set_copy
  heap_grows_set_add heap_grows_emit same_below_set_new same_below_set_difference
  same_below_set_copy same_below_emit no_pass_set_new no_pass_set_add
  no_pass_set_difference no_pass_set_copy : run_rel.

#[local] Hint Extern 5 (run_rel heap_grows _) => from_quiet : run_rel.
#[local] Hint Extern 5 (run_rel (same_below _) _) => from_quiet : run_rel.
#[local] Hint Extern 5 (run_rel no_pass _) => from_quiet : run_rel.

(** *** Body resolution *)

Lemma heap_grows_cid_replace (P : Platform) message used cid :
  run_rel heap_grows (cid_replace P message used cid).
Proof. unfold cid_replace. run_rel_auto. Qed.
#[local] Hint Resolve heap_grows_cid_replace : run_rel.

Lemma no_pass_cid_replace (P : Platform) message used cid :
  run_rel no_pass (cid_replace P message used cid).
Proof. unfold cid_replace. run_rel_auto. Qed.
#[local] Hint Resolve no_pass_cid_replace : run_rel.

Lemma run_rel_re_sub_cid_go (R : state → state → Prop) `{!PreOrder R}
    (repl : string → M string) (skip : nat) (s : string) :
  (∀ group1, run_rel R (repl group1)) → run_rel R (re_sub_cid_go repl skip s).
Proof.
  intros Hrepl. revert skip. induction s as [|c r IH]; intros skip.
  - apply run_rel_ret, _.
  - destruct skip as [|k]; [|apply IH].
    rewrite re_sub_cid_go_here. destruct (cid_match (String c r)) as [group1|].
    + apply run_rel_bind; [apply _|apply Hrepl|intros replacement].
      apply run_rel_bind; [apply _|apply IH|intros rest]. apply run_rel_ret, _.
    + apply run_rel_bind; [apply _|apply IH|intros rest]. apply run_rel_ret, _.
Qed.

Lemma heap_grows_handle_html_message_body (P : Platform) input_email part :
  run_rel heap_grows (handle_html_message_body P input_email part).
Proof.
  unfold handle_html_message_body, re_sub_cid. run_rel_auto.
  apply run_rel_re_sub_cid_go; [apply _|]. intros. apply heap_grows_cid_replace.
Qed.
#[local] Hint Resolve heap_grows_handle_html_message_body : run_rel.

Lemma no_pass_handle_html_message_body (P : Platform) input_email part :
  run_rel no_pass (handle_html_message_body P input_email part).
Proof.
  unfold handle_html_message_body, re_sub_cid. run_rel_auto.
  apply run_rel_re_sub_cid_go; [apply _|]. intros. apply no_pass_cid_replace.
Qed.
#[local] Hint Resolve no_pass_handle_html_message_body : run_rel.

Lemma heap_grows_handle_message_body (P : Platform) args input_email :
  run_rel heap_grows (handle_message_body P args input_email).
Proof. unfold handle_message_body. run_rel_auto. Qed.
#[local] Hint Resolve heap_grows_handle_message_body : run_rel.

Lemma no_pass_handle_message_body (P : Platform) args input_email :
  run_rel no_pass (handle_message_body P args input_email).
Proof. unfold handle_message_body. run_rel_auto. Qed.
#[local] Hint Resolve no_pass_handle_message_body : run_rel.

(** *** Attachment enumeration *)

Lemma members_added_ne σ l l' id : l ≠ l' → members (added l id σ) l' = members σ l'.
Proof. intros Hne. unfold members, added. simpl. by rewrite list_lookup_alter_ne. Qed.

Lemma added_added σ l (X : gset part_id) id :
  set_heap (alter (λ s, X ∪ s) l (heap (added l id σ))) (added l id σ)
  = set_heap (alter (λ s, ({[id]} ∪ X) ∪ s) l (heap σ)) σ.
Proof.
  unfold added, set_heap. simpl. f_equal.
  rewrite list_alter_alter_eq. apply list_alter_ext; [|done].
  intros s _. simpl. set_solver.
Qed.

Lemma alter_empty_union σ l :
  set_heap (alter (λ s, (∅ : gset part_id) ∪ s) l (heap σ)) σ = σ.
Proof.
  destruct σ as [h f w t]. unfold set_heap. simpl. f_equal.
  apply list_alter_id. intros s. set_solver.
Qed.

Lemma find_all_attachments_loop (entries : list (part_id * Part)) (ignore parts : loc)
    (σ : state) :
  ignore ≠ parts →
  for_each entries
    (λ '(id, part),
       ignored ← set_read ignore;
       if negb (bool_decide (id ∈ ignored)) && negb (is_multipart part) then
         if negb (in_list (get_content_type part) MIME_TYPES_BLACKLIST)
         then set_add parts id else mret ()
       else mret ()) σ
  = (Return (),
     set_heap (alter (λ s, list_to_set (fst <$> filter (is_candidate (members σ ignore)) entries) ∪ s)
                     parts (heap σ)) σ).
Proof.
  intros Hne. revert σ. induction entries as [|[id part] entries IH]; intros σ.
  - simpl. unfold_monad. by rewrite alter_empty_union.
  - cbn [for_each]. unfold mbind at 1, M_bind at 1.
    assert (Hbody :
      (ignored ← set_read ignore;
       if negb (bool_decide (id ∈ ignored)) && negb (is_multipart part) then
         if negb (in_list (get_content_type part) MIME_TYPES_BLACKLIST)
         then set_add parts id else mret ()
       else mret ()) σ
      = (Return (), if decide (is_candidate (members σ ignore) (id, part))
                    then added parts id σ else σ)).
    { unfold_monad. fold (members σ ignore). unfold in_list, is_candidate. simpl.
      destruct (decide _) as [(Hin & -> & Hct)|Hno].
      - rewrite bool_decide_eq_false_2, bool_decide_eq_false_2 by done. done.
      - case_bool_decide; [done|]. destruct (is_multipart part); [done|].
        simpl. case_bool_decide; [done|]. destruct Hno. done. }
    rewrite Hbody. rewrite IH. rewrite filter_cons.
    destruct (decide (is_candidate (members σ ignore) (id, part))) as [Hc|Hc].
    + rewrite members_added_ne by done. rewrite added_added. by do 3 f_equal.
    + done.
Qed.

Lemma find_all_attachments_spec (message : Message) (ignore : loc) (σ : state) :
  ignore < length (heap σ) →
  find_all_attachments message ignore σ
  = (Return (length (heap σ)),
     set_heap (heap σ ++ [attachment_candidates message (members σ ignore)]) σ).
Proof.
  intros Hlt. unfold find_all_attachments. unfold mbind at 1, M_bind at 1, set_new.
  unfold mbind at 1, M_bind at 1.
  rewrite find_all_attachments_loop by (simpl; lia).
  unfold_monad. unfold attachment_candidates. simpl. f_equal.
  unfold set_heap. simpl. f_equal.
  replace (length (heap σ)) with (length (heap σ) + 0) at 1 by lia.
  rewrite alter_app_r. simpl. do 2 f_equal.
  unfold members. simpl. rewrite lookup_app_l by done.
  set_solver.
Qed.

Lemma filter_filenamed_parts_loop (message : Message) (l : list part_id) (new_parts : loc)
    (σ : state) :
  for_each l
    (λ id, if bool_decide (get_filename (part_at message id) ≠ None)
           then set_add new_parts id else mret ()) σ
  = (Return (),
     set_heap (alter (λ s, list_to_set
                             (filter (λ id, get_filename (part_at message id) ≠ None) l) ∪ s)
                     new_parts (heap σ)) σ).
Proof.
  revert σ. induction l as [|id l IH]; intros σ.
  - simpl. unfold_monad. by rewrite alter_empty_union.
  - cbn [for_each]. unfold mbind at 1, M_bind at 1.
    assert (Hbody :
      (if bool_decide (get_filename (part_at message id) ≠ None)
       then set_add new_parts id else mret ()) σ
      = (Return (), if decide (get_filename (part_at message id) ≠ None)
                    then added new_parts id σ else σ)).
    { case_bool_decide; destruct (decide _); try done; reflexivity. }
    rewrite Hbody, IH, filter_cons.
    destruct (decide (get_filename (part_at message id) ≠ None)); [|done].
    rewrite added_added. by do 3 f_equal.
Qed.

Lemma filter_filenamed_parts_spec (P : Platform) (message : Message) (parts : loc)
    (σ : state) :
  filter_filenamed_parts P message parts σ
  = (Return (length (heap σ)),
     set_heap (heap σ ++ [filenamed message (members σ parts)]) σ).
Proof.
  unfold filter_filenamed_parts. unfold mbind at 1, M_bind at 1, set_new.
  unfold mbind at 1, M_bind at 1, set_read. unfold mbind at 1, M_bind at 1.
  rewrite filter_filenamed_parts_loop. unfold_monad. simpl. f_equal.
  unfold set_heap. simpl. f_equal.
  replace (length (heap σ)) with (length (heap σ) + 0) at 1 by lia.
  rewrite alter_app_r. simpl. do 2 f_equal.
  unfold filenamed, members.
  apply set_eq. intros id.
  rewrite elem_of_union, elem_of_list_to_set, list_elem_of_filter, elem_of_filter.
  rewrite (iter_parts_perm P), elem_of_elements.
  destruct (decide (parts < length (heap σ))) as [Hlt|Hge].
  - rewrite lookup_app_l by done. set_solver.
  - destruct (decide (parts = length (heap σ))) as [->|Hne].
    + rewrite list_lookup_middle by done. rewrite lookup_ge_None_2 by lia. set_solver.
    + rewrite !lookup_ge_None_2; [set_solver|lia|rewrite length_app; simpl; lia].
Qed.

(** *** One call of [handle_attachments] *)


Lemma handle_attachments_unfold (P : Platform) (input_email : Message)
    (output_directory : string) (add_prefix ignore_floating : bool) (l : loc) (σ : state) :
  l < length (heap σ) →
  let candidates := attachment_candidates input_email (members σ l) in
  handle_attachments P input_email output_directory add_prefix ignore_floating l σ
  = match for_each (iter_parts P candidates)
            (handle_attachment P input_email output_directory add_prefix ignore_floating)
            (set_heap (heap σ ++ [candidates]) (entered l σ)) with
    | (Return _, σ') => (Return (size candidates), σ')
    | (Raise e, σ') => (Raise e, σ')
    end.
Proof.
  intros Hlt candidates. unfold handle_attachments.
  unfold mbind at 1, M_bind at 1, set_read. fold (members σ l).
  unfold mbind at 1, M_bind at 1. change (emit ?e σ) with (Return (), add_event e σ).
  fold (entered l σ). cbv iota beta.
  unfold mbind at 1, M_bind at 1. rewrite find_all_attachments_spec by done.
  change (members (entered l σ) l) with (members σ l). fold candidates.
  change (heap (entered l σ)) with (heap σ).
  unfold mbind at 1, M_bind at 1. cbv iota beta.
  change (heap (set_heap ?h _)) with h.
  rewrite list_lookup_middle by done. cbn [default].
  unfold mbind at 1, M_bind at 1.
  by destruct (for_each _ _ _) as [[[]|e] σ'].
Qed.

Lemma handle_attachments_returns (P : Platform) input_email output_directory add_prefix
    ignore_floating l σ n σ' :
  l < length (heap σ) →
  handle_attachments P input_email output_directory add_prefix ignore_floating l σ
  = (Return n, σ') →
  n = size (attachment_candidates input_email (members σ l)).
Proof.
  intros Hlt. rewrite handle_attachments_unfold by done.
  destruct (for_each _ _ _) as [[[]|e] σ'']; congruence.
Qed.

Lemma handle_attachments_final (P : Platform) input_email output_directory add_prefix
    ignore_floating l σ :
  l < length (heap σ) →
  quiet (set_heap (heap σ ++ [attachment_candidates input_email (members σ l)])
           (entered l σ))
        (handle_attachments P input_email output_directory add_prefix ignore_floating l σ).2.
Proof.
  intros Hlt. rewrite handle_attachments_unfold by done.
  match goal with
  | |- context [for_each ?xs ?body ?σ0] =>
      pose proof (run_rel_for_each quiet xs body
                    (quiet_handle_attachment P input_email output_directory add_prefix
                       ignore_floating) σ0) as Hloop;
      destruct (for_each xs body σ0) as [[[]|e] σ']
  end; exact Hloop.
Qed.

Lemma attachment_passes_snoc t l ignored :
  attachment_passes (t ++ [EvHandleAttachments l ignored])
  = (attachment_passes t ++ [(l, ignored)])%list.
Proof. unfold attachment_passes. by rewrite omap_app. Qed.

(** A call of [handle_attachments] shows in the trace as one pass, with the
    members its exclude-set had when it was called. *)
Lemma handle_attachments_passes (P : Platform) input_email output_directory add_prefix
    ignore_floating l σ :
  l < length (heap σ) →
  attachment_passes
    (trace (handle_attachments P input_email output_directory add_prefix
              ignore_floating l σ).2)
  = (attachment_passes (trace σ) ++ [(l, members σ l)])%list.
Proof.
  intros Hlt.
  destruct (handle_attachments_final P input_email output_directory add_prefix
              ignore_floating l σ Hlt) as [_ Hpass].
  rewrite Hpass. simpl. apply attachment_passes_snoc.
Qed.

Lemma handle_attachments_same_below (P : Platform) input_email output_directory add_prefix
    ignore_floating l σ :
  l < length (heap σ) →
  ∀ n, same_below n σ
         (handle_attachments P input_email output_directory add_prefix ignore_floating l σ).2.
Proof.
  intros Hlt n.
  destruct (handle_attachments_final P input_email output_directory add_prefix
              ignore_floating l σ Hlt) as [Hheap _].
  intros Hn. rewrite Hheap. simpl. split; [rewrite length_app; lia|].
  intros l' Hl'. apply lookup_app_l. lia.
Qed.

(** *** After body resolution *)

Global Instance keeps_preorder (I : state → Prop) : PreOrder (keeps I).
Proof. split; unfold keeps; [intros σ|intros σ1 σ2 σ3]; tauto. Qed.

Global Instance settled_preorder used n : PreOrder (settled used n).
Proof.
  split.
  - intros σ Hn. split; [done|]. split; [done|]. exists []. by rewrite app_nil_r.
  - intros σ1 σ2 σ3 H12 H23 Hn.
    destruct (H12 Hn) as (Hn2 & Heq2 & new2 & Hp2 & Hq2).
    destruct (H23 Hn2) as (Hn3 & Heq3 & new3 & Hp3 & Hq3).
    split; [done|]. split; [intros l Hl; by rewrite Heq3, Heq2|].
    exists (new2 ++ new3). split; [by rewrite Hp3, Hp2, app_assoc|].
    by apply Forall_app.
Qed.

Lemma quiet_settled used n σ σ' : quiet σ σ' → settled used n σ σ'.
Proof.
  intros [Hheap Hpass] Hn. rewrite Hheap. split; [done|]. split; [done|].
  exists []. by rewrite app_nil_r.
Qed.

#[local] Hint Extern 5 (run_rel (settled _ _) _) =>
  (apply (run_rel_weaken quiet); [apply quiet_settled|]; eauto with run_rel) : run_rel.

Lemma settled_app used n σ h : settled used n σ (set_heap (heap σ ++ h) σ).
Proof.
  intros Hn. simpl. split; [rewrite length_app; lia|].
  split; [intros l Hl; apply lookup_app_l; lia|].
  exists []. by rewrite app_nil_r.
Qed.

Lemma settled_filter_filenamed_parts (P : Platform) used n message parts :
  run_rel (settled used n) (filter_filenamed_parts P message parts).
Proof. intros σ. rewrite filter_filenamed_parts_spec. apply settled_app. Qed.

Lemma settled_handle_attachments (P : Platform) used n input_email output_directory
    add_prefix ignore_floating l σ :
  l < length (heap σ) → l = used ∨ n ≤ l →
  settled used n σ
    (handle_attachments P input_email output_directory add_prefix ignore_floating l σ).2.
Proof.
  intros Hlt Hl Hn.
  destruct (handle_attachments_same_below P input_email output_directory add_prefix
              ignore_floating l σ Hlt n Hn) as [Hn' Heq].
  split; [done|]. split; [done|].
  exists [(l, members σ l)]. split; [by apply handle_attachments_passes|].
  by constructor.
Qed.

Lemma settled_first_pass (P : Platform) used n input_email output_directory
    add_prefix ignore_floating :
  used < n →
  run_rel (settled used n)
    (handle_attachments P input_email output_directory add_prefix ignore_floating used).
Proof.
  intros Hused σ Hn.
  apply settled_handle_attachments; [lia|by left|done].
Qed.

Lemma settled_second_pass (P : Platform) used n input_email output_directory
    add_prefix ignore_floating a b :
  run_rel (settled used n)
    (difference ← set_difference a b;
     relaxed ← set_copy difference;
     handle_attachments P input_email output_directory add_prefix ignore_floating relaxed).
Proof.
  intros σ. unfold mbind at 1, M_bind at 1, set_difference.
  unfold mbind at 1, M_bind at 1, set_copy. cbv beta iota.
  match goal with
  | |- settled _ _ _ (handle_attachments _ _ _ _ _ ?l ?σ5).2 =>
      set (relaxed := l); set (σ' := σ5)
  end.
  intros Hn.
  assert (H1 : settled used n σ σ').
  { unfold σ'. etransitivity; [apply (settled_app _ _ σ)|].
    match goal with |- settled _ _ ?σ4 _ => apply (settled_app _ _ σ4) end. }
  assert (H2 : settled used n σ'
                 (handle_attachments P input_email output_directory add_prefix
                    ignore_floating relaxed σ').2).
  { apply settled_handle_attachments.
    - unfold relaxed, σ'. simpl. rewrite !length_app. simpl. lia.
    - right. unfold relaxed. simpl. rewrite length_app. lia. }
  exact (transitivity H1 H2 Hn).
Qed.

#[local] Hint Resolve settled_filter_filenamed_parts settled_second_pass : run_rel.

Lemma settled_main_tail (P : Platform) used n args input_email output_directory
    output_file_name payload :
  used < n →
  run_rel (settled used n)
    ((if body args then
        match payload with
        | Some payload =>
            payload ← remove_invalid_urls P payload;
            payload ←
              (if headers args then
                 header_info ← get_formatted_header_info P input_email;
                 mret (header_info +:+ payload)
               else mret payload);
            output_body_pdf P input_email payload output_file_name
        | None => raise TypeError
        end
      else mret ()) ;;
     number_of_attachments ←
       (if attachments args then
          n ← handle_attachments P input_email output_directory (add_prefix_date args)
                (ignore_floating_attachments args) used;
          mret (Some n)
        else mret None);
     if negb (body args) then
       match number_of_attachments with
       | Some n =>
           if n =? 0 then
             parts_with_a_filename ← filter_filenamed_parts P input_email used;
             named ← set_read parts_with_a_filename;
             n ←
               (if 0 <? size named then
                  difference ← set_difference used parts_with_a_filename;
                  relaxed ← set_copy difference;
                  handle_attachments P input_email output_directory (add_prefix_date args)
                    (ignore_floating_attachments args) relaxed
                else mret n);
             if n =? 0 then logger_warning SECOND_TRY_WARNING else mret ()
           else mret ()
       | None => raise UnboundLocalError
       end
     else mret ()).
Proof.
  intros Hused.
  pose proof (settled_first_pass P used n input_email output_directory
                (add_prefix_date args) (ignore_floating_attachments args) Hused).
  run_rel_auto.
Qed.

Lemma heap_grows_find_all_attachments message parts_to_ignore :
  run_rel heap_grows (find_all_attachments message parts_to_ignore).
Proof. unfold find_all_attachments. run_rel_auto. Qed.
#[local] Hint Resolve heap_grows_find_all_attachments : run_rel.

Lemma heap_grows_filter_filenamed_parts (P : Platform) message parts :
  run_rel heap_grows (filter_filenamed_parts P message parts).
Proof. unfold filter_filenamed_parts. run_rel_auto. Qed.
#[local] Hint Resolve heap_grows_filter_filenamed_parts : run_rel.

Lemma heap_grows_handle_attachments (P : Platform) input_email output_directory
    add_prefix ignore_floating parts_to_ignore :
  run_rel heap_grows
    (handle_attachments P input_email output_directory add_prefix ignore_floating
       parts_to_ignore).
Proof. unfold handle_attachments. run_rel_auto. Qed.
#[local] Hint Resolve heap_grows_handle_attachments : run_rel.

Lemma heap_grows_main (P : Platform) args input_email output_directory output_file_name :
  run_rel heap_grows (main P args input_email output_directory output_file_name).
Proof. unfold main. run_rel_auto. Qed.

Lemma heap_grows_length σ σ' : heap_grows σ σ' → length (heap σ) ≤ length (heap σ').
Proof.
  intros Hgrows. destruct (heap σ) as [|s h] eqn:Hheap using rev_ind; [simpl; lia|].
  destruct (Hgrows (length h) s) as (s' & Hl & _).
  { rewrite Hheap. by apply list_lookup_middle. }
  apply lookup_lt_Some in Hl. rewrite length_app. simpl. lia.
Qed.

(** *** Where the consumed set comes from *)

Lemma bind_inv_return {A B} (m : M A) (f : A → M B) σ b σ' :
  (m ≫= f) σ = (Return b, σ') →
  ∃ a σ1, m σ = (Return a, σ1) ∧ f a σ1 = (Return b, σ').
Proof.
  unfold mbind, M_bind. destruct (m σ) as [[a|e] σ1]; [|done]. by exists a, σ1.
Qed.


Lemma keeps_all_resolved_cid_replace (P : Platform) message used cid :
  run_rel (keeps (all_resolved message used)) (cid_replace P message used cid).
Proof.
  intros σ [Hlt Hres]. rewrite cid_replace_cases.
  destruct (lookup_cid message cid) as [[id image_part]|] eqn:Hlook; [|done].
  case_bool_decide; [|done]. destruct (is_multipart image_part); [done|].
  simpl. split.
  - unfold added. simpl. by rewrite length_alter.
  - intros id'. unfold members, added. simpl. rewrite list_lookup_alter_eq.
    destruct (heap σ !! used) as [s|] eqn:Hs; simpl.
    + intros [->%elem_of_singleton|Hin]%elem_of_union.
      * exists cid, image_part. by apply lookup_cid_resolves.
      * apply Hres. unfold members. by rewrite Hs.
    + set_solver.
Qed.

Lemma handle_html_message_body_consumed (P : Platform) input_email part σ payload used σ1 :
  handle_html_message_body P input_email part σ = (Return (payload, used), σ1) →
  used = length (heap σ) ∧ all_resolved input_email used σ1.
Proof.
  unfold handle_html_message_body. intros Hrun.
  apply bind_inv_return in Hrun as (used' & σ0 & Hnew & Hrun).
  unfold set_new in Hnew. injection Hnew as <- <-.
  destruct (is_multipart part); [done|].
  apply bind_inv_return in Hrun as (payload_unicode & σ0' & Hdecode & Hrun).
  assert (σ0' = set_heap (heap σ ++ [∅]) σ) as ->.
  { revert Hdecode. unfold_monad.
    repeat match goal with
           | |- context [match ?x with _ => _ end] => destruct x
           end; congruence. }
  apply bind_inv_return in Hrun as (text & σ2 & Hsub & Hret).
  unfold mret, M_ret in Hret. injection Hret as <- <- <-.
  split; [done|].
  pose proof (run_rel_re_sub_cid_go (keeps (all_resolved input_email (length (heap σ))))
                (cid_replace P input_email (length (heap σ))) 0 payload_unicode
                (keeps_all_resolved_cid_replace P input_email (length (heap σ)))
                (set_heap (heap σ ++ [∅]) σ)) as Hkeeps.
  unfold re_sub_cid in Hsub. rewrite Hsub in Hkeeps. apply Hkeeps.
  split.
  - simpl. rewrite length_app. simpl. lia.
  - intros id. unfold members. simpl. rewrite list_lookup_middle by done. set_solver.
Qed.

Lemma handle_message_body_consumed (P : Platform) args input_email σ payload used σ1 :
  handle_message_body P args input_email σ = (Return (payload, used), σ1) →
  length (heap σ) ≤ used ∧ all_resolved input_email used σ1
  ∧ (find_part_by_content_type input_email "text/html" = None → members σ1 used = ∅).
Proof.
  unfold handle_message_body. intros Hrun.
  apply bind_inv_return in Hrun as (used0 & σ0 & Hnew & Hrun).
  unfold set_new in Hnew. injection Hnew as <- <-.
  assert (Hnone : members (set_heap (heap σ ++ [∅]) σ) (length (heap σ)) = ∅).
  { unfold members. simpl. by rewrite list_lookup_middle. }
  assert (Hempty : all_resolved input_email (length (heap σ)) (set_heap (heap σ ++ [∅]) σ)).
  { split.
    - simpl. rewrite length_app. simpl. lia.
    - intros id. rewrite Hnone. set_solver. }
  destruct (find_part_by_content_type input_email "text/html") as [[? html]|].
  - apply bind_inv_return in Hrun as ([payload' used'] & σ2 & Hhtml & Hret).
    unfold mret, M_ret in Hret. injection Hret as <- <- <-.
    apply handle_html_message_body_consumed in Hhtml as [-> Hres].
    split; [|done]. simpl. rewrite length_app. lia.
  - destruct (find_part_by_content_type input_email "text/plain") as [[? plain]|].
    + apply bind_inv_return in Hrun as (payload' & σ2 & Hplain & Hret).
      unfold mret, M_ret in Hret. injection Hret as <- <- <-.
      split; [done|].
      pose proof (quiet_handle_plain_message_body P plain (set_heap (heap σ ++ [∅]) σ))
        as [Hheap _].
      rewrite Hplain in Hheap. simpl in Hheap.
      destruct Hempty as [Hlt Hres]. unfold all_resolved, members in *.
      by rewrite Hheap.
    + destruct (body args); [done|]. simpl in Hrun.
      unfold mret, M_ret in Hrun. by injection Hrun as <- <- <-.
Qed.

(** *** The second try *)





Lemma main_after_body (P : Platform) args input_email output_directory output_file_name
    σ payload used σ1 :
  handle_message_body P args input_email σ = (Return (payload, used), σ1) →
  used < length (heap σ1) →
  settled used (length (heap σ1)) σ1
    (main P args input_email output_directory output_file_name σ).2
  ∧ heap_grows σ1 (main P args input_email output_directory output_file_name σ).2.
Proof.
  intros Hbody Hlt. unfold main. rewrite (bind_return _ _ _ _ _ Hbody). cbv beta iota.
  split.
  - apply (settled_main_tail P used (length (heap σ1)) args input_email
             output_directory output_file_name payload Hlt σ1).
  - match goal with
    | |- heap_grows σ1 (?m σ1).2 => assert (Hm : run_rel heap_grows m) by run_rel_auto
    end.
    apply Hm.
Qed.

(** ** Inline image references *)

Lemma heap_grows_members σ σ' l :
  heap_grows σ σ' → l < length (heap σ) → members σ l ⊆ members σ' l.
Proof.
  intros Hgrows Hlt. unfold members.
  destruct (lookup_lt_is_Some_2 _ _ Hlt) as [s Hs].
  destruct (Hgrows l s Hs) as (s' & Hs' & Hsub). by rewrite Hs, Hs'.
Qed.

Lemma members_added σ l id : l < length (heap σ) → id ∈ members (added l id σ) l.
Proof.
  intros Hlt. unfold members, added. simpl. rewrite list_lookup_alter_eq.
  destruct (lookup_lt_is_Some_2 _ _ Hlt) as [s ->]. simpl. set_solver.
Qed.

(** C4, counterexample. The body refers to [cid:logo@example], the message
    has a part with that Content-ID, found by the lookup, but its transfer
    encoding is [7bit]: the reference is not replaced, the run stops on the
    assertion. *)
Lemma cid_reference_not_base64 :
  let P := Example.platform Example.quiet_engine in
  let message :=
    Example.message [Example.multipart "multipart/related"; Example.html_part;
                     Example.plain_logo_part] in
  find_part_by_content_id message "logo@example" = Some (2, Example.plain_logo_part)
  ∧ (handle_html_message_body P message Example.html_part Example.initial).1
    = Raise AssertionError.
Proof. split; reflexivity. Qed.

(** *** Where the scan comes by *)

Lemma take_while_inv (p : ascii → bool) (s post : string) :
  take_while p (s +:+ post) = s →
  PyStr.forallb p s = true
  ∧ match post with String c _ => p c = false | EmptyString => True end.
Proof.
  induction s as [|c s IH].
  - rewrite string_app_nil_l. destruct post as [|c post]; [done|].
    simpl. by destruct (p c).
  - rewrite string_app_cons. simpl. destruct (p c); [|done].
    intros [= Hrest]. by apply IH in Hrest.
Qed.

Lemma cid_match_inv (group1 post : string) :
  cid_match ("cid:" +:+ group1 +:+ post) = Some group1 →
  group1 ≠ EmptyString
  ∧ PyStr.forallb is_cid_char group1 = true
  ∧ match post with String c _ => is_cid_char c = false | EmptyString => True end.
Proof.
  unfold cid_match.
  change ("cid:" +:+ group1 +:+ post)
    with (String "c" (String "i" (String "d" (String ":" (group1 +:+ post))))).
  simpl String.prefix. simpl String.length. simpl substring.
  replace (String.length (group1 +:+ post) - 0) with (String.length (group1 +:+ post)) by lia.
  rewrite substring_full.
  replace (String.prefix EmptyString (group1 +:+ post)) with true
    by (by destruct (group1 +:+ post)).
  destruct (take_while is_cid_char (group1 +:+ post)) as [|c g] eqn:Htake; [done|].
  intros [= <-]. split; [done|]. by apply take_while_inv.
Qed.

Lemma prefix_cid_inv (s : string) :
  String.prefix "cid:" s = true → ∃ r, s = "cid:" +:+ r.
Proof.
  destruct s as [|c1 [|c2 [|c3 [|c4 r]]]]; cbn [String.prefix];
    repeat match goal with
           | |- context [ascii_dec ?a ?b] => destruct (ascii_dec a b) as [<-|]
           end; try done.
  intros _. by exists r.
Qed.

(** A match does not go away when the text goes on. *)
Lemma cid_match_app_None (s t : string) :
  cid_match (s +:+ t) = None → cid_match s = None.
Proof.
  intros Hnone. destruct (cid_match s) as [group1|] eqn:Hmatch; [|done].
  exfalso. revert Hmatch Hnone. unfold cid_match.
  destruct (String.prefix "cid:" s) eqn:Hprefix; [|done].
  apply prefix_cid_inv in Hprefix as [r ->].
  change (("cid:" +:+ r) +:+ t)
    with (String "c" (String "i" (String "d" (String ":" (r +:+ t))))).
  change ("cid:" +:+ r) with (String "c" (String "i" (String "d" (String ":" r)))).
  simpl String.prefix. simpl String.length. simpl substring.
  rewrite !Nat.sub_0_r, !substring_full.
  destruct r as [|c r]; [done|]. rewrite string_app_cons. simpl.
  by destruct (is_cid_char c).
Qed.

(** The scan of a text is the scan of what comes before a place the scan
    comes by, followed by the scan of what comes behind it. *)
Lemma re_sub_cid_app (repl : string → M string) (pre rest : string) (σ : state) :
  scans_to pre rest →
  re_sub_cid repl (pre +:+ rest) σ
  = match re_sub_cid repl pre σ with
    | (Return before, σ1) =>
        match re_sub_cid repl rest σ1 with
        | (Return behind, σ2) => (Return (before +:+ behind), σ2)
        | (Raise e, σ2) => (Raise e, σ2)
        end
    | (Raise e, σ1) => (Raise e, σ1)
    end.
Proof.
  intros Hscan. revert σ.
  induction Hscan as [rest|c pre rest Hnone _ IH|group1 pre rest Hmatch _ IH]; intros σ.
  - rewrite string_app_nil_l. unfold re_sub_cid at 2. simpl.
    by destruct (re_sub_cid repl rest σ) as [[behind|e] σ2].
  - rewrite string_app_cons, re_sub_cid_no_match by done.
    rewrite (re_sub_cid_no_match repl c pre) by (by eapply cid_match_app_None).
    rewrite !bind_unfold, IH.
    destruct (re_sub_cid repl pre σ) as [[before|e] σ1]; [|done].
    unfold mret, M_ret. simpl.
    by destruct (re_sub_cid repl rest σ1) as [[behind|e] σ2].
  - apply cid_match_inv in Hmatch as (Hne & Hall & Hpost).
    rewrite !string_app_assoc.
    rewrite (re_sub_cid_at_match repl group1 (pre +:+ rest)) by done.
    rewrite (re_sub_cid_at_match repl group1 pre);
      [|done|done|by destruct pre].
    rewrite !bind_unfold.
    destruct (repl group1 σ) as [[replacement|e] σ0]; [|done].
    rewrite !bind_unfold, IH.
    destruct (re_sub_cid repl pre σ0) as [[before|e] σ1]; [|done].
    unfold mret, M_ret.
    destruct (re_sub_cid repl rest σ1) as [[behind|e] σ2]; [|done].
    by rewrite string_app_assoc.
Qed.

(** Before the first [cid:] of a text the scan passes one character after
    the other. *)
Lemma scans_to_literal (pre rest : string) :
  PyStr.contains "cid:" pre = false → scans_to pre ("cid:" +:+ rest).
Proof.
  induction pre as [|c pre IH]; [constructor|]. intros Hno.
  cbn [PyStr.contains] in Hno. apply orb_false_elim in Hno as [Hhere Hbehind].
  constructor; [|by apply IH].
  unfold cid_match.
  destruct (String.prefix "cid:" (String c (pre +:+ "cid:" +:+ rest))) eqn:Hprefix;
    [|done].
  exfalso. revert Hhere Hprefix. clear.
  change ("cid:" +:+ rest) with (String "c" (String "i" (String "d" (String ":" rest)))).
  destruct pre as [|c2 [|c3 [|c4 pre]]];
    rewrite ?string_app_cons, ?string_app_nil_l; cbn [String.prefix];
    repeat match goal with
           | |- context [ascii_dec ?a ?b] => destruct (ascii_dec a b) as [<-|]
           end; try done.
  by destruct pre.
Qed.

(** The resolver: an empty set is made, and the text of the part is
    scanned. *)
Lemma handle_html_message_body_scan (P : Platform) (input_email : Message) (html : Part)
    (text : string) (σ : state) :
  html_text P html = Some text →
  handle_html_message_body P input_email html σ
  = match re_sub_cid (cid_replace P input_email (length (heap σ))) text
            (set_heap (heap σ ++ [∅]) σ) with
    | (Return payload, σ') => (Return (payload, length (heap σ)), σ')
    | (Raise e, σ') => (Raise e, σ')
    end.
Proof.
  unfold html_text, handle_html_message_body. intros Htext.
  rewrite bind_unfold. unfold set_new. cbv iota beta.
  destruct (is_multipart html); [done|]. cbv zeta in Htext |- *.
  rewrite bind_unfold.
  destruct (str_decode P (get_payload_decoded html) _) as [s| | |name]; [| |done|done].
  - injection Htext as ->. unfold mret at 1, M_ret at 1. cbv iota beta.
    rewrite bind_unfold.
    by destruct (re_sub_cid _ text _) as [[payload|e] σ'].
  - destruct (chardet_detect P (get_payload_decoded html)) as [charset|]; [|done].
    destruct (str_decode P (get_payload_decoded html) charset) as [s| | |name];
      [|done|done|done].
    injection Htext as ->. unfold mret at 1, M_ret at 1. cbv iota beta.
    rewrite bind_unfold.
    by destruct (re_sub_cid _ text _) as [[payload|e] σ'].
Qed.

Lemma heap_grows_re_sub_cid (P : Platform) message used text :
  run_rel heap_grows (re_sub_cid (cid_replace P message used) text).
Proof.
  unfold re_sub_cid. apply run_rel_re_sub_cid_go; [apply _|].
  intros. apply heap_grows_cid_replace.
Qed.

Lemma cid_replace_adds (P : Platform) (input_email : Message) (used : loc) (cid : string)
    (σ : state) :
  let step := cid_replace P input_email used cid σ in
  (∀ l, l ≠ used → heap step.2 !! l = heap σ !! l)
  ∧ (members step.2 used = members σ used
     ∨ ∃ id part, resolves_to input_email cid id part
                  ∧ members step.2 used = {[id]} ∪ members σ used).
Proof.
  intros step. unfold step. rewrite cid_replace_cases.
  destruct (lookup_cid input_email cid) as [[id part]|] eqn:Hlookup;
    [|split; [done|by left]].
  case_bool_decide; [|split; [done|by left]].
  destruct (is_multipart part); [split; [done|by left]|].
  split.
  - intros l Hne. unfold added. simpl. by apply list_lookup_alter_ne.
  - destruct (decide (used < length (heap σ))) as [Hlt|Hge].
    + right. exists id, part. split; [by apply lookup_cid_resolves|].
      unfold members, added. simpl. rewrite list_lookup_alter_eq.
      by destruct (lookup_lt_is_Some_2 _ _ Hlt) as [s ->].
    + left. unfold members, added. simpl. rewrite list_lookup_alter_eq.
      rewrite lookup_ge_None_2 by lia. done.
Qed.

Lemma handle_html_message_body_undecoded (P : Platform) (input_email : Message)
    (html : Part) (σ : state) :
  html_text P html = None →
  ∃ e, handle_html_message_body P input_email html σ
       = (Raise e, set_heap (heap σ ++ [∅]) σ).
Proof.
  unfold html_text, handle_html_message_body. intros Htext.
  rewrite bind_unfold. unfold set_new. cbv iota beta.
  destruct (is_multipart html); [by eexists|]. cbv zeta in Htext |- *.
  rewrite bind_unfold.
  destruct (str_decode P (get_payload_decoded html) _) as [s| | |name];
    [done| |by eexists|by eexists].
  destruct (chardet_detect P (get_payload_decoded html)) as [charset|]; [|by eexists].
  destruct (str_decode P (get_payload_decoded html) charset) as [s| | |name];
    [done|by eexists|by eexists|by eexists].
Qed.

Lemma handle_message_body_html (P : Platform) (args : Args) (input_email : Message)
    (id : part_id) (html : Part) (σ : state) :
  find_part_by_content_type input_email "text/html" = Some (id, html) →
  handle_message_body P args input_email σ
  = match handle_html_message_body P input_email html (set_heap (heap σ ++ [∅]) σ) with
    | (Return (payload, used), σ1) => (Return (Some payload, used), σ1)
    | (Raise e, σ1) => (Raise e, σ1)
    end.
Proof.
  intros Hfind. unfold handle_message_body. rewrite bind_unfold. unfold set_new.
  cbv iota beta. rewrite Hfind. rewrite bind_unfold.
  by destruct (handle_html_message_body P input_email html _) as [[[payload used]|e] σ1].
Qed.

Lemma set_heap_twice (σ : state) :
  set_heap (heap (set_heap (heap σ ++ [∅]) σ) ++ [∅]) (set_heap (heap σ ++ [∅]) σ)
  = set_heap (heap σ ++ [∅; ∅]) σ.
Proof. unfold set_heap. simpl. by rewrite <- app_assoc. Qed.

(** The body of a message with an HTML part: two sets are made, both empty,
    and the text of the part is scanned with the second one. *)
Lemma handle_message_body_scan (P : Platform) (args : Args) (input_email : Message)
    (id : part_id) (html : Part) (σ : state) :
  find_part_by_content_type input_email "text/html" = Some (id, html) →
  let used := S (length (heap σ)) in
  let σ0 := set_heap (heap σ ++ [∅; ∅]) σ in
  match html_text P html with
  | Some text =>
      handle_message_body P args input_email σ
      = match re_sub_cid (cid_replace P input_email used) text σ0 with
        | (Return payload, σ1) => (Return (Some payload, used), σ1)
        | (Raise e, σ1) => (Raise e, σ1)
        end
  | None => ∃ e, handle_message_body P args input_email σ = (Raise e, σ0)
  end.
Proof.
  intros Hfind used σ0. rewrite (handle_message_body_html P args input_email id html σ Hfind).
  assert (Hused : length (heap (set_heap (heap σ ++ [∅]) σ)) = used).
  { simpl. rewrite length_app. simpl. unfold used. lia. }
  destruct (html_text P html) as [text|] eqn:Htext.
  - rewrite (handle_html_message_body_scan P input_email html text _ Htext).
    rewrite Hused, set_heap_twice. fold σ0.
    by destruct (re_sub_cid _ text σ0) as [[payload|e] σ1].
  - destruct (handle_html_message_body_undecoded P input_email html
                (set_heap (heap σ ++ [∅]) σ) Htext) as [e ->].
    exists e. by rewrite set_heap_twice.
Qed.

(** C9. During a run no set object ever loses a member, body resolution
    included.  The consumed set is an object created during body resolution:
    it is empty when the message has no HTML part, and all it ever holds are
    parts that some [cid:] token of the body resolved to.  Whatever the run
    does after body resolution leaves that object as it is, and
    [handle_attachments] is only ever given that object or an object created
    later, as the set difference built for the second pass is.

    Body resolution step by step.  For a message with an HTML part the
    consumed set is the second object body resolution makes; it is empty
    when the scan of the text starts, and the result of body resolution is
    the result of that scan, returned with that object.  When the text cannot
    be decoded the call raises, with the set still empty.  Each treatment of
    a [cid:] token, whatever the set holds at that moment, leaves every other
    set object as it is, and leaves the consumed set either as it is or with
    the one part the token resolves to added; so does, step after step, the
    scan of any text: no set object loses a member. *)
Theorem consumed_set_only_grows (P : Platform) (args : Args) (input_email : Message)
    (output_directory output_file_name : string) (σ : state) :
  let run := main P args input_email output_directory output_file_name σ in
  heap_grows σ run.2
  ∧ heap_grows σ (handle_message_body P args input_email σ).2
  ∧ (∀ payload used σ1,
       handle_message_body P args input_email σ = (Return (payload, used), σ1) →
       heap σ !! used = None
       ∧ (find_part_by_content_type input_email "text/html" = None → members σ1 used = ∅)
       ∧ (∀ id, id ∈ members σ1 used → ∃ cid part, resolves_to input_email cid id part)
       ∧ heap_grows σ1 run.2
       ∧ heap run.2 !! used = heap σ1 !! used
       ∧ ∀ pass, pass ∈ attachment_passes (trace run.2) →
           pass ∈ attachment_passes (trace σ) ∨ pass.1 = used ∨ length (heap σ1) ≤ pass.1)
  ∧ (∀ id html,
       find_part_by_content_type input_email "text/html" = Some (id, html) →
       let used := S (length (heap σ)) in
       let σ0 := set_heap (heap σ ++ [∅; ∅]) σ in
       heap σ !! used = None
       ∧ members σ0 used = ∅
       ∧ match html_text P html with
         | Some text =>
             handle_message_body P args input_email σ
             = match re_sub_cid (cid_replace P input_email used) text σ0 with
               | (Return payload, σ1) => (Return (Some payload, used), σ1)
               | (Raise e, σ1) => (Raise e, σ1)
               end
         | None => ∃ e, handle_message_body P args input_email σ = (Raise e, σ0)
         end)
  ∧ (∀ used cid σ0,
       let step := cid_replace P input_email used cid σ0 in
       heap_grows σ0 step.2
       ∧ (∀ l, l ≠ used → heap step.2 !! l = heap σ0 !! l)
       ∧ (members step.2 used = members σ0 used
          ∨ ∃ id part, resolves_to input_email cid id part
                       ∧ members step.2 used = {[id]} ∪ members σ0 used))
  ∧ (∀ used text σ0,
       heap_grows σ0 (re_sub_cid (cid_replace P input_email used) text σ0).2
       ∧ ∀ l, members σ0 l ⊆ members (re_sub_cid (cid_replace P input_email used) text σ0).2 l).
Proof.
  intros run. split; [apply heap_grows_main|].
  split; [apply heap_grows_handle_message_body|].
  split; [|split; [|split]].
  - intros payload used σ1 Hbody.
    apply handle_message_body_consumed in Hbody as Hcons.
    destruct Hcons as (Hfresh & [Hlt Hres] & Hplain).
    split; [by apply lookup_ge_None_2|]. split; [done|]. split; [done|].
    destruct (main_after_body P args input_email output_directory output_file_name
                σ payload used σ1 Hbody Hlt) as [Hsettled Hgrows].
    fold run in Hsettled, Hgrows.
    destruct (Hsettled (le_n _)) as (_ & Hsame & new & Hpasses & Hnew).
    split; [done|]. split; [by apply Hsame|].
    intros pass Hpass. rewrite Hpasses in Hpass.
    apply elem_of_app in Hpass as [Hold|Hpass].
    + left. pose proof (no_pass_handle_message_body P args input_email σ) as Hno.
      rewrite Hbody in Hno. simpl in Hno. by rewrite <- Hno.
    + right. rewrite Forall_forall in Hnew. by apply Hnew.
  - intros id html Hfind used σ0.
    split; [apply lookup_ge_None_2; unfold used; lia|].
    split.
    + unfold members, σ0, used. simpl.
      rewrite lookup_app_r by lia. by replace (S (length (heap σ)) - length (heap σ)) with 1 by lia.
    + apply (handle_message_body_scan P args input_email id html σ Hfind).
  - intros used cid σ0 step. split; [apply heap_grows_cid_replace|].
    apply cid_replace_adds.
  - intros used text σ0.
    pose proof (heap_grows_re_sub_cid P input_email used text σ0) as Hgrows.
    split; [done|]. intros l. unfold members.
    destruct (heap σ0 !! l) as [s|] eqn:Hl; [|set_solver].
    destruct (Hgrows l s Hl) as (s' & -> & Hsub). done.
Qed.

(** C4, amended. Take an HTML part whose text [handle_html_message_body]
    can decode, and any place of that text at which the scan finds a match of
    [cid:([\w_@.-]+)], with token [group1], text [pre] before it and text
    [post] behind it.  What the call does is: make a new, empty set, scan
    [pre], treat the match, scan [post], and return the three results put
    together along with the set.  If the scan of [pre] raises, so does the
    call.  Otherwise, if the token resolves to a part (first by Content-ID,
    bare or in angle brackets, else by the [name] parameter of the content
    type) and that part is a leaf whose Content-Transfer-Encoding is
    [base64], the match is replaced by
    [data:<sniffed type>;base64,<payload without CR, LF and TAB>], the part
    is added to the set, and it is a member of the set returned with the
    text.  If the part's transfer encoding is not [base64] the call raises
    [AssertionError].  If the token resolves to no part, the match is
    replaced by [broken] and a warning is logged.  Text before the first
    [cid:] is returned as it is. *)
Theorem cid_reference_replaced (P : Platform) (input_email : Message) (html : Part)
    (text pre group1 post : string) (σ : state) :
  html_text P html = Some text →
  text = pre +:+ "cid:" +:+ group1 +:+ post →
  scans_to pre ("cid:" +:+ group1 +:+ post) →
  cid_match ("cid:" +:+ group1 +:+ post) = Some group1 →
  let used := length (heap σ) in
  let scan := re_sub_cid (cid_replace P input_email used) in
  let run := handle_html_message_body P input_email html σ in
  let then_rest (before replacement : string) (σ2 : state) :=
    match scan post σ2 with
    | (Return behind, σ3) => (Return (before +:+ replacement +:+ behind, used), σ3)
    | (Raise e, σ3) => (Raise e, σ3)
    end in
  (∀ σ0, PyStr.contains "cid:" pre = false → scan pre σ0 = (Return pre, σ0))
  ∧ match scan pre (set_heap (heap σ ++ [∅]) σ) with
    | (Raise e, σ1) => run = (Raise e, σ1)
    | (Return before, σ1) =>
        (∀ id part,
           resolves_to input_email group1 id part →
           header_content_transfer_encoding part = Some "base64" →
           is_multipart part = false →
           run = then_rest before (data_uri P part) (added used id σ1)
           ∧ ∀ payload consumed σ',
               run = (Return (payload, consumed), σ') →
               consumed = used ∧ id ∈ members σ' consumed)
        ∧ (∀ id part,
             resolves_to input_email group1 id part →
             header_content_transfer_encoding part ≠ Some "base64" →
             run = (Raise AssertionError, σ1))
        ∧ (unresolved input_email group1 →
           run = then_rest before "broken"
                   (add_warning ("Could not find image cid " +:+ group1
                                 +:+ " in email content.") σ1))
    end.
Proof.
  intros Htext -> Hscan Hmatch used scan run then_rest.
  split; [intros σ0 Hno; by apply re_sub_cid_without_cid|].
  assert (Hrun : run = match scan (pre +:+ "cid:" +:+ group1 +:+ post)
                               (set_heap (heap σ ++ [∅]) σ) with
                       | (Return payload, σ') => (Return (payload, used), σ')
                       | (Raise e, σ') => (Raise e, σ')
                       end).
  { unfold run. by apply handle_html_message_body_scan. }
  unfold scan at 1 in Hrun. rewrite re_sub_cid_app in Hrun by done.
  fold scan in Hrun.
  pose proof (heap_grows_re_sub_cid P input_email used pre (set_heap (heap σ ++ [∅]) σ))
    as Hgrows. fold scan in Hgrows.
  destruct (scan pre (set_heap (heap σ ++ [∅]) σ)) as [[before|e] σ1]; [|done].
  simpl in Hgrows.
  assert (Hlt : used < length (heap σ1)).
  { apply heap_grows_length in Hgrows. simpl in Hgrows.
    rewrite length_app in Hgrows. simpl in Hgrows. unfold used. lia. }
  apply cid_match_inv in Hmatch as (Hne & Hall & Hpost).
  unfold scan at 1 in Hrun. rewrite re_sub_cid_at_match in Hrun by done.
  rewrite bind_unfold, cid_replace_cases in Hrun.
  assert (Hthen : ∀ replacement σ2,
            match
              match (rest ← re_sub_cid (cid_replace P input_email used) post;
                     mret (replacement +:+ rest)) σ2 with
              | (Return behind, σ3) => (Return (before +:+ behind), σ3)
              | (Raise e, σ3) => (Raise e, σ3)
              end
            with
            | (Return payload, σ') =>
                (Return (payload, used), σ') : outcome (string * loc) * state
            | (Raise e, σ') => (Raise e, σ')
            end = then_rest before replacement σ2).
  { intros replacement σ2. rewrite bind_unfold. unfold then_rest, scan.
    by destruct (re_sub_cid _ post σ2) as [[behind|e] σ3]. }
  split; [|split].
  - intros id part Hres Hcte Hleaf.
    apply lookup_cid_resolves in Hres. rewrite Hres in Hrun.
    rewrite bool_decide_eq_true_2 in Hrun by done. rewrite Hleaf in Hrun.
    rewrite Hthen in Hrun. split; [done|].
    intros payload consumed σ' Hret. rewrite Hrun in Hret. unfold then_rest in Hret.
    pose proof (heap_grows_re_sub_cid P input_email used post (added used id σ1))
      as Hbehind. fold scan in Hbehind.
    destruct (scan post (added used id σ1)) as [[behind|e] σ3]; [|done].
    injection Hret as <- <- <-. split; [done|].
    apply (heap_grows_members _ _ _ Hbehind).
    + unfold added. simpl. by rewrite length_alter.
    + by apply members_added.
  - intros id part Hres Hcte. apply lookup_cid_resolves in Hres. rewrite Hres in Hrun.
    by rewrite bool_decide_eq_false_2 in Hrun by done.
  - intros Hun. apply lookup_cid_unresolved in Hun. rewrite Hun in Hrun.
    by rewrite Hthen in Hrun.
Qed.

Lemma cid_reference_replaced_witness :
  let P := Example.platform Example.quiet_engine in
  let σ' := added 0 2 (set_heap [∅] Example.initial) in
  handle_html_message_body P Example.newsletter Example.html_part Example.initial
  = (Return ("<img src=data:image/png;base64,iVBORw0KGgo=>", 0), σ')
  ∧ 0 = 0 ∧ 2 ∈ members σ' 0.
Proof.
  intros P.
  destruct (cid_reference_replaced P Example.newsletter Example.html_part
              "<img src=cid:logo@example>" "<img src=" "logo@example" ">"
              Example.initial) as [_ Hmatch].
  - reflexivity.
  - reflexivity.
  - apply scans_to_literal. reflexivity.
  - reflexivity.
  - destruct Hmatch as [Hfound _].
    destruct (Hfound 2 Example.logo_part) as [Hrun Hmember].
    + apply lookup_cid_resolves. reflexivity.
    + reflexivity.
    + reflexivity.
    + split; [exact Hrun|].
      exact (Hmember "<img src=data:image/png;base64,iVBORw0KGgo=>" 0
               (added 0 2 (set_heap [∅] Example.initial)) Hrun).
Defined.

(** ** Attachment extraction *)

(** C1. With the option to ignore floating attachments set, a message whose
    only candidate is an image without a file name makes
    [handle_attachments] return 1 although no file is written: the part is
    skipped, yet it is counted. *)
Theorem handle_attachments_counts_skipped_parts :
  let P := Example.platform Example.quiet_engine in
  let σ := set_heap [∅] Example.initial in
  let run := handle_attachments P Example.floating "out" false true 0 σ in
  run.1 = Return 1 ∧ files_written (trace run.2) = [] ∧ files run.2 = ∅.
Proof. repeat split; reflexivity. Qed.

Lemma extract_part_filename_pure (P : Platform) part σ :
  (extract_part_filename P part σ).2 = σ.
Proof.
  unfold extract_part_filename. unfold_monad.
  repeat match goal with
         | |- context [match ?x with _ => _ end] => destruct x
         end; reflexivity.
Qed.

Lemma files_written_snoc t path :
  files_written (t ++ [EvWrite path]) = files_written t ++ [path].
Proof. unfold files_written. by rewrite omap_app. Qed.

(** Unless floating attachments are ignored, a part that is handled without
    an exception is written to a path at which there was no file. *)
Lemma handle_attachment_writes (P : Platform) input_email output_directory add_prefix id
    σ σ' :
  handle_attachment P input_email output_directory add_prefix false id σ = (Return (), σ') →
  ∃ path, files σ !! path = None
          ∧ files σ' = <[path := get_payload_decoded (part_at input_email id)]> (files σ)
          ∧ trace σ' = trace σ ++ [EvWrite path]
          ∧ heap σ' = heap σ.
Proof.
  unfold handle_attachment. intros Hrun.
  apply bind_inv_return in Hrun as (filename & σ0 & Hname & Hrun).
  pose proof (extract_part_filename_pure P (part_at input_email id) σ) as Hpure.
  rewrite Hname in Hpure. simpl in Hpure. revert Hpure Hrun. intros -> Hrun.
  cbv zeta in Hrun. destruct (truthy filename); simpl in Hrun.
  all: apply bind_inv_return in Hrun as (σ1 & σ1' & Hget & Hrun).
  all: unfold get_state in Hget; injection Hget as <- <-.
  all: match type of Hrun with
       | context [get_unique_version ?fs ?full] =>
           destruct (get_unique_version_returns fs full) as (path & Hpath & Hfree)
       end.
  all: rewrite Hpath in Hrun; unfold write_file in Hrun; unfold_monad; simpl in Hrun.
  all: injection Hrun as <-; exists path; repeat split.
  all: unfold isfile in Hfree; apply bool_decide_eq_false in Hfree.
  all: by apply eq_None_not_Some.
Qed.

Lemma handle_attachment_loop_writes (P : Platform) input_email output_directory add_prefix
    (ids : list part_id) σ σ' :
  for_each ids (handle_attachment P input_email output_directory add_prefix false) σ
  = (Return (), σ') →
  length (files_written (trace σ')) = length (files_written (trace σ)) + length ids
  ∧ size (files σ') = size (files σ) + length ids.
Proof.
  revert σ. induction ids as [|id ids IH]; intros σ Hrun.
  - simpl in Hrun. unfold mret, M_ret in Hrun. injection Hrun as <-. simpl. lia.
  - cbn [for_each] in Hrun.
    apply bind_inv_return in Hrun as ([] & σ1 & Hone & Hrest).
    apply handle_attachment_writes in Hone as (path & Hfree & Hfiles & Htrace & _).
    apply IH in Hrest as [Hwritten Hsize].
    rewrite Hwritten, Hsize, Htrace, Hfiles, files_written_snoc, length_app.
    rewrite map_size_insert_None by done. simpl. lia.
Qed.

(** When floating attachments are not ignored, the number
    [handle_attachments] returns is the number of files it wrote: so many
    write events are recorded, and so many files were added. *)
Lemma handle_attachments_count_is_files_written (P : Platform) input_email
    output_directory add_prefix l σ n σ' :
  l < length (heap σ) →
  handle_attachments P input_email output_directory add_prefix false l σ = (Return n, σ') →
  n = size (attachment_candidates input_email (members σ l))
  ∧ length (files_written (trace σ')) = length (files_written (trace σ)) + n
  ∧ size (files σ') = size (files σ) + n.
Proof.
  intros Hlt Hrun. rewrite handle_attachments_unfold in Hrun by done.
  destruct (for_each _ _ _) as [[[]|e] σ''] eqn:Hloop; [|done].
  injection Hrun as <- <-.
  apply handle_attachment_loop_writes in Hloop as [Hwritten Hsize].
  split; [done|].
  assert (Hlen : length (iter_parts P (attachment_candidates input_email (members σ l)))
                 = size (attachment_candidates input_email (members σ l))).
  { by rewrite (iter_parts_perm P). }
  rewrite Hlen in Hwritten, Hsize. split.
  - rewrite Hwritten. unfold entered, files_written. simpl.
    by rewrite omap_app, app_nil_r.
  - done.
Qed.

(** * Further properties *)

Example dirname_basename_examples :
  map (λ p, (OsPath.dirname p, OsPath.basename p))
    ["a/b"; "a//b"; "/b"; "//b"; "b"; "a/"; "/"; "a/b/c.d"; "a/b//"]
  = [("a", "b"); ("a", "b"); ("/", "b"); ("//", "b"); (EmptyString, "b");
     ("a", EmptyString); ("/", EmptyString); ("a/b", "c.d"); ("a/b", EmptyString)].
Proof. reflexivity. Qed.

Example get_modified_output_file_name_examples :
  map (λ p, get_modified_output_file_name p "_original.eml")
    ["out/mail.pdf"; "mail.pdf"; "out//mail.pdf"; "/mail.pdf"; "out/.pdf"; "out/";
     "a.b/c"; "out/mail.tar.gz"]
  = ["out/mail_original.eml"; "mail_original.eml"; "out/mail_original.eml";
     "/mail_original.eml"; "out/.pdf_original.eml"; "out/_original.eml";
     "a.b/c_original.eml"; "out/mail.tar_original.eml"].
Proof. reflexivity. Qed.

Example get_content_disposition_example :
  get_content_disposition (Some " Attachment ; filename=x;y") = Some "attachment".
Proof. reflexivity. Qed.

(** ** Extension inference *)

Lemma string_leb_refl (s : string) : String.leb s s = true.
Proof. destruct (total String.le s s) as [H|H]; by apply Is_true_true in H. Qed.

Lemma string_leb_total (s t : string) : String.leb s t = false → String.leb t s = true.
Proof.
  intros Hst. destruct (total String.le s t) as [H|H]; apply Is_true_true in H; [|done].
  unfold String.le in H. congruence.
Qed.

Lemma string_leb_trans (s t u : string) :
  String.leb s t = true → String.leb t u = true → String.leb s u = true.
Proof.
  intros Hst Htu. apply Is_true_true. change (String.le s u).
  transitivity t; by apply Is_true_true.
Qed.

Lemma least_spec (l : list string) :
  match least l with
  | Some x => x ∈ l ∧ ∀ y, y ∈ l → String.leb x y = true
  | None => l = []
  end.
Proof.
  induction l as [|x l IH]; [done|]. simpl.
  destruct (least l) as [y|].
  - destruct IH as [Hy Hleast].
    destruct (String.leb x y) eqn:Hxy.
    + split; [apply list_elem_of_here|]. intros z Hz.
      apply elem_of_cons in Hz as [Heq|Hz]; [subst z; apply string_leb_refl|].
      apply (string_leb_trans _ y); [done|by apply Hleast].
    + split; [by apply list_elem_of_further|]. intros z Hz.
      apply elem_of_cons in Hz as [Heq|Hz]; [subst z; by apply string_leb_total|].
      by apply Hleast.
  - subst l. split; [apply list_elem_of_here|]. intros z Hz.
    apply elem_of_cons in Hz as [Heq|Hz]; [subst z; apply string_leb_refl|].
    by apply not_elem_of_nil in Hz.
Qed.

(** X1. The extension [get_type_extension] returns is one of the extensions
    guessed for the type, is neither [.jpe] nor [.jpeg], and no other
    admissible guess comes before it in the order of strings; it returns
    nothing exactly when every guess is [.jpe] or [.jpeg]. *)
Theorem get_type_extension_least (P : Platform) (content_type : string) :
  match get_type_extension P content_type with
  | Some extension =>
      extension ∈ guess_all_extensions P content_type
      ∧ (extension ∉ AUTOCALCULATED_FILENAME_EXTENSION_BLACKLIST)
      ∧ ∀ other, other ∈ guess_all_extensions P content_type →
                 other ∉ AUTOCALCULATED_FILENAME_EXTENSION_BLACKLIST →
                 String.leb extension other = true
  | None =>
      ∀ other, other ∈ guess_all_extensions P content_type →
               other ∈ AUTOCALCULATED_FILENAME_EXTENSION_BLACKLIST
  end.
Proof.
  unfold get_type_extension.
  pose proof (least_spec
                (filter (λ e, e ∉ AUTOCALCULATED_FILENAME_EXTENSION_BLACKLIST)
                        (guess_all_extensions P content_type))) as Hleast.
  destruct (least _) as [extension|].
  - destruct Hleast as [[Hin Hok]%list_elem_of_filter Hmin].
    split; [done|]. split; [done|]. intros other Hother Hallowed.
    apply Hmin. by apply list_elem_of_filter.
  - intros other Hother.
    destruct (decide (other ∈ AUTOCALCULATED_FILENAME_EXTENSION_BLACKLIST)) as [|Hno];
      [done|].
    assert (Hin : other ∈ filter (λ e, e ∉ AUTOCALCULATED_FILENAME_EXTENSION_BLACKLIST)
                            (guess_all_extensions P content_type))
      by by apply list_elem_of_filter.
    rewrite Hleast in Hin. by apply not_elem_of_nil in Hin.
Qed.

(** ** Content-ID *)

Lemma lstrip_no_prefix (p : ascii → bool) (s : string) :
  match PyStr.lstrip p s with
  | String c _ => p c = false
  | EmptyString => True
  end.
Proof.
  induction s as [|c s IH]; [done|]. simpl.
  destruct (p c) eqn:Hc; [done|]. simpl. done.
Qed.

Lemma rstrip_cons (p : ascii → bool) (c : ascii) (s : string) :
  PyStr.rstrip p (String c s) = EmptyString
  ∨ ∃ r, PyStr.rstrip p (String c s) = String c r.
Proof.
  simpl. destruct (PyStr.rstrip p s) as [|d r].
  - destruct (p c); [by left|right; by eexists].
  - right. by eexists.
Qed.

Lemma rstrip_no_suffix (p : ascii → bool) (s : string) (c : ascii) :
  p c = true → PyStr.endswith_char (PyStr.rstrip p s) c = false.
Proof.
  intros Hc. induction s as [|d s IH]; [done|]. simpl.
  destruct (PyStr.rstrip p s) as [|e r] eqn:Hr.
  - destruct (p d) eqn:Hd; [done|]. simpl.
    destruct (Ascii.eqb_spec d c) as [->|]; [congruence|done].
  - simpl in *. done.
Qed.

Lemma rstrip_app_char (p : ascii → bool) (s : string) (c : ascii) :
  p c = true → (∀ d, p d = true → PyStr.endswith_char s d = false) →
  PyStr.rstrip p (s +:+ String c EmptyString) = PyStr.rstrip p s.
Proof.
  intros Hc. induction s as [|d s IH]; intros Hend.
  - simpl. by rewrite Hc.
  - rewrite string_app_cons. simpl. rewrite IH; [done|].
    intros e He. specialize (Hend e He). simpl in Hend.
    destruct s; [done|done].
Qed.

Lemma rstrip_id (p : ascii → bool) (s : string) :
  (∀ d, p d = true → PyStr.endswith_char s d = false) → PyStr.rstrip p s = s.
Proof.
  induction s as [|c s IH]; intros Hend; [done|]. simpl.
  destruct s as [|d s].
  - simpl. destruct (p c) eqn:Hc; [|done].
    specialize (Hend c Hc). simpl in Hend. by rewrite Ascii.eqb_refl in Hend.
  - rewrite IH; [done|]. intros e He. apply (Hend e He).
Qed.

Lemma startswith_char (c d : ascii) (r : string) :
  PyStr.startswith (String c r) (String d EmptyString) = true ↔ d = c.
Proof.
  unfold PyStr.startswith. cbn [String.prefix].
  destruct (ascii_dec d c) as [->|Hne]; [|split; [done|by intros ->]].
  split; [done|]. intros _. by destruct r.
Qed.

(** X2. What [get_content_id] returns neither begins with [<] nor ends
    with [>]. *)
Theorem get_content_id_stripped (part : Part) (content_id : string) :
  get_content_id part = Some content_id →
  PyStr.startswith content_id "<" = false ∧ PyStr.endswith_char content_id ">" = false.
Proof.
  unfold get_content_id. destruct (header_content_id part) as [raw|]; [|done].
  simpl. destruct (String.eqb_spec raw EmptyString) as [->|Hne]; simpl.
  - by intros [= <-].
  - intros [= <-]. split; [|by apply rstrip_no_suffix].
    pose proof (lstrip_no_prefix (Ascii.eqb "<") raw) as Hfirst.
    destruct (PyStr.lstrip (Ascii.eqb "<") raw) as [|c r]; [done|].
    destruct (rstrip_cons (Ascii.eqb ">") c r) as [->|[r' ->]]; [done|].
    apply not_true_is_false. intros Heq%startswith_char. subst c.
    by rewrite Ascii.eqb_refl in Hfirst.
Qed.

Lemma get_content_id_stripped_witness :
  PyStr.startswith "logo@example" "<" = false
  ∧ PyStr.endswith_char "logo@example" ">" = false.
Proof.
  apply (get_content_id_stripped Example.logo_part "logo@example"). reflexivity.
Defined.

(** X3. A part of the message whose Content-ID is [<x>], where [x] itself
    has no bracket at its ends, is named [x] by [get_content_id], and
    looking [x] up with [find_part_by_content_id] finds a part with that
    Content-ID, bare or bracketed: the part itself or one before it. *)
Theorem content_id_round_trip (message : Message) (id : part_id) (part : Part)
    (x : string) :
  walk message !! id = Some part →
  header_content_id part = Some ("<" +:+ x +:+ ">") →
  PyStr.startswith x "<" = false →
  PyStr.endswith_char x ">" = false →
  get_content_id part = Some x
  ∧ ∃ id' part', find_part_by_content_id message x = Some (id', part')
                 ∧ id' ≤ id ∧ has_content_id x part'.
Proof.
  intros Hpart Hcid Hfirst Hlast. split.
  - unfold get_content_id. rewrite Hcid.
    change ("<" +:+ x +:+ ">") with (String "<" (x +:+ ">")).
    change (default EmptyString (Some ?v)) with v.
    cbn [truthy String.eqb negb]. f_equal.
    cbn [PyStr.lstrip]. rewrite Ascii.eqb_refl.
    assert (Hl : PyStr.lstrip (Ascii.eqb "<") (x +:+ ">") = x +:+ ">").
    { destruct x as [|c x]; [done|]. rewrite string_app_cons. cbn [PyStr.lstrip].
      destruct (Ascii.eqb_spec "<" c) as [<-|]; [|done].
      by rewrite (proj2 (startswith_char "<" "<" x)) in Hfirst. }
    rewrite Hl, rstrip_app_char; [|done|].
    + apply rstrip_id. intros d Hd. apply Ascii.eqb_eq in Hd. by subst d.
    + intros d Hd. apply Ascii.eqb_eq in Hd. by subst d.
  - assert (Hhas : has_content_id x part) by by right.
    destruct (list_find (λ part, header_content_id part = Some x
                                 ∨ header_content_id part = Some ("<" +:+ x +:+ ">"))
                        (walk message)) as [[id' part']|] eqn:Hfind.
    + exists id', part'. split; [done|].
      apply list_find_Some in Hfind as (Hlook & Hq & Hmin). split; [|done].
      destruct (decide (id' ≤ id)) as [|Hgt]; [done|].
      destruct (Hmin id part Hpart); [lia|done].
    + apply list_find_None in Hfind. rewrite Forall_forall in Hfind.
      destruct (Hfind part); [by eapply list_elem_of_lookup_2|done].
Qed.

Lemma content_id_round_trip_witness :
  get_content_id Example.logo_part = Some "logo@example"
  ∧ ∃ id' part', find_part_by_content_id Example.newsletter "logo@example" = Some (id', part')
                 ∧ id' ≤ 2 ∧ has_content_id "logo@example" part'.
Proof.
  apply (content_id_round_trip Example.newsletter 2 Example.logo_part "logo@example");
    reflexivity.
Defined.

(** ** Enumeration of the attachments *)

Lemma elem_of_attachment_candidates (message : Message) (ignored : gset part_id)
    (id : part_id) :
  id ∈ attachment_candidates message ignored
  ↔ ∃ part, walk message !! id = Some part ∧ (id ∉ ignored)
            ∧ is_multipart part = false
            ∧ get_content_type part ≠ "text/html" ∧ get_content_type part ≠ "text/plain".
Proof.
  unfold attachment_candidates.
  rewrite elem_of_list_to_set, list_elem_of_fmap. split.
  - intros ([id' part] & -> & [(Hign & Hleaf & Htype) Hentry]%list_elem_of_filter).
    simpl in *. apply list_elem_of_lookup in Hentry as [i Hentry].
    rewrite list_lookup_imap in Hentry.
    destruct (walk message !! i) as [part'|] eqn:Hwalk; [|done].
    injection Hentry as <- <-. exists part'. split; [done|]. split; [done|].
    split; [done|]. unfold MIME_TYPES_BLACKLIST in Htype.
    rewrite !not_elem_of_cons in Htype. tauto.
  - intros (part & Hwalk & Hign & Hleaf & Hhtml & Hplain).
    exists (id, part). split; [done|]. apply list_elem_of_filter. split.
    + split; [done|]. split; [done|]. simpl. unfold MIME_TYPES_BLACKLIST.
      rewrite !not_elem_of_cons. split; [done|]. split; [done|]. apply not_elem_of_nil.
    + apply list_elem_of_lookup. exists id. by rewrite list_lookup_imap, Hwalk.
Qed.

(** X4. [find_all_attachments] returns a new set object and changes nothing
    else, the exclude-set included.  Its members are exactly the parts of the
    message that are not in the exclude-set, are not multipart, and whose
    content type is neither [text/html] nor [text/plain]. *)
Theorem find_all_attachments_members (message : Message) (parts_to_ignore : loc)
    (σ : state) :
  parts_to_ignore < length (heap σ) →
  ∃ parts σ',
    find_all_attachments message parts_to_ignore σ = (Return parts, σ')
    ∧ heap σ !! parts = None
    ∧ (∀ l, l < length (heap σ) → heap σ' !! l = heap σ !! l)
    ∧ files σ' = files σ ∧ warnings σ' = warnings σ ∧ trace σ' = trace σ
    ∧ ∀ id, id ∈ members σ' parts
            ↔ ∃ part, walk message !! id = Some part
                      ∧ (id ∉ members σ parts_to_ignore)
                      ∧ is_multipart part = false
                      ∧ get_content_type part ≠ "text/html"
                      ∧ get_content_type part ≠ "text/plain".
Proof.
  intros Hlt. eexists _, _. split; [by apply find_all_attachments_spec|].
  split; [by apply lookup_ge_None_2|].
  split; [intros l Hl; simpl; by apply lookup_app_l|].
  do 3 (split; [done|]). intros id.
  unfold members at 1. simpl. rewrite list_lookup_middle by done. simpl.
  apply elem_of_attachment_candidates.
Qed.

Lemma find_all_attachments_members_witness :
  ∃ parts σ',
    find_all_attachments Example.floating 0 (set_heap [{[1]}] Example.initial)
    = (Return parts, σ')
    ∧ (2 ∈ members σ' parts) ∧ (1 ∉ members σ' parts) ∧ (0 ∉ members σ' parts).
Proof.
  destruct (find_all_attachments_members Example.floating 0
              (set_heap [{[1]}] Example.initial))
    as (parts & σ' & Hrun & _ & _ & _ & _ & _ & Hmembers).
  - simpl. lia.
  - exists parts, σ'. split; [exact Hrun|]. split; [|split].
    + apply Hmembers. eexists. repeat split; try reflexivity; vm_compute; set_solver.
    + intros (part & _ & Hin & _)%Hmembers. apply Hin. vm_compute. set_solver.
    + intros (part & Hwalk & _ & Hleaf & _)%Hmembers. vm_compute in Hwalk.
      injection Hwalk as <-. discriminate.
Defined.


(** ** What a pass of [handle_attachments] does to the files *)

Lemma extract_part_filename_outcome (P : Platform) part σ :
  extract_part_filename P part σ = ((extract_part_filename P part σ).1, σ).
Proof.
  rewrite <- (extract_part_filename_pure P part σ) at 3.
  by destruct (extract_part_filename P part σ).
Qed.

(** One part: either nothing changes, or the part is written to a path at
    which there was no file. *)
Lemma handle_attachment_step (P : Platform) input_email output_directory add_prefix
    ignore_floating id σ :
  let run := handle_attachment P input_email output_directory add_prefix ignore_floating
               id σ in
  run.2 = σ
  ∨ (run.1 = Return ()
     ∧ ∃ path, files σ !! path = None
               ∧ run.2 = set_files (<[path := get_payload_decoded (part_at input_email id)]>
                                      (files σ))
                           (add_event (EvWrite path) σ)).
Proof.
  cbv zeta. unfold handle_attachment. unfold mbind, M_bind.
  rewrite extract_part_filename_outcome.
  destruct (extract_part_filename P (part_at input_email id) σ).1 as [filename|e];
    [|by left].
  cbv zeta.
  match goal with
  | |- context [match ?named with Some _ => _ | None => mret () end] =>
      destruct named as [name|]; [|by left]
  end.
  unfold get_state.
  match goal with
  | |- context [get_unique_version ?fs ?full] =>
      destruct (get_unique_version_returns fs full) as (path & -> & Hfree)
  end.
  right. split; [done|]. exists path. split; [|done].
  unfold isfile in Hfree. apply bool_decide_eq_false in Hfree.
  by apply eq_None_not_Some.
Qed.

Lemma handle_attachment_loop_files (P : Platform) input_email output_directory add_prefix
    ignore_floating (ids : list part_id) σ :
  let run := for_each ids (handle_attachment P input_email output_directory add_prefix
                             ignore_floating) σ in
  ∃ paths,
    files_written (trace run.2) = files_written (trace σ) ++ paths
    ∧ NoDup paths
    ∧ Forall (λ path, files σ !! path = None) paths
    ∧ files σ ⊆ files run.2
    ∧ dom (files run.2) = dom (files σ) ∪ list_to_set paths
    ∧ length paths ≤ length ids.
Proof.
  revert σ. induction ids as [|id ids IH]; intros σ run.
  - exists []. unfold run. simpl. rewrite app_nil_r.
    split; [done|]. split; [constructor|]. split; [constructor|].
    split; [done|]. split; [set_solver|done].
  - unfold run. clear run. cbn [for_each]. unfold mbind, M_bind.
    destruct (handle_attachment_step P input_email output_directory add_prefix
                ignore_floating id σ) as [Hsame|[Hret (path & Hfree & Hstate)]].
    + destruct (handle_attachment _ _ _ _ _ id σ) as [[[]|e] σ1]; simpl in Hsame; subst σ1.
      * destruct (IH σ) as (paths & H1 & H2 & H3 & H4 & H5 & H6).
        exists paths. do 5 (split; [done|]). simpl. lia.
      * exists []. simpl. rewrite app_nil_r.
        split; [done|]. split; [constructor|]. split; [constructor|].
        split; [done|]. split; [set_solver|lia].
    + destruct (handle_attachment _ _ _ _ _ id σ) as [[[]|e] σ1]; [|done].
      simpl in Hstate. subst σ1.
      match goal with |- context [for_each ids ?body ?σ1] => specialize (IH σ1) end.
      destruct IH as (paths & H1 & H2 & H3 & H4 & H5 & H6).
      simpl in H1, H3, H4, H5.
      exists (path :: paths). rewrite H1, files_written_snoc, <- app_assoc.
      split; [done|].
      assert (Hnotin : path ∉ paths).
      { intros Hin. rewrite Forall_forall in H3. specialize (H3 path Hin).
        by rewrite lookup_insert_eq in H3. }
      split; [by constructor|]. split.
      { constructor; [done|]. rewrite Forall_forall in H3 |- *. intros p Hp.
        specialize (H3 p Hp). destruct (decide (path = p)) as [->|Hne]; [done|].
        by rewrite lookup_insert_ne in H3. }
      split.
      { etransitivity; [|exact H4]. by apply insert_subseteq. }
      split; [|simpl; lia].
      rewrite H5, dom_insert_L. set_solver.
Qed.

(** X6. A call of [handle_attachments] never overwrites: whether it returns
    or raises, every file that existed before is still there with its
    contents, the paths it wrote are pairwise different, none of them named
    a file before, they are the only new files, and they are no more than
    the candidates. *)
Theorem handle_attachments_never_overwrites (P : Platform) (input_email : Message)
    (output_directory : string) (add_prefix ignore_floating : bool) (l : loc) (σ : state) :
  l < length (heap σ) →
  let run := handle_attachments P input_email output_directory add_prefix
               ignore_floating l σ in
  ∃ paths,
    files_written (trace run.2) = files_written (trace σ) ++ paths
    ∧ NoDup paths
    ∧ Forall (λ path, files σ !! path = None) paths
    ∧ files σ ⊆ files run.2
    ∧ dom (files run.2) = dom (files σ) ∪ list_to_set paths
    ∧ length paths ≤ size (attachment_candidates input_email (members σ l)).
Proof.
  intros Hlt run. unfold run. rewrite handle_attachments_unfold by done.
  match goal with
  | |- context [for_each ?ids ?body ?σ0] =>
      destruct (handle_attachment_loop_files P input_email output_directory add_prefix
                  ignore_floating ids σ0) as (paths & H1 & H2 & H3 & H4 & H5 & H6);
      assert (Hlen : length ids = size (attachment_candidates input_email (members σ l)))
        by (by rewrite (iter_parts_perm P));
      destruct (for_each ids body σ0) as [[[]|e] σ']
  end.
  all: exists paths; simpl in *.
  all: unfold entered, files_written in H1; simpl in H1.
  all: rewrite omap_app, app_nil_r in H1.
  all: repeat split; try done; lia.
Qed.

Lemma handle_attachments_never_overwrites_witness :
  let P := Example.platform Example.quiet_engine in
  let σ := set_files {[ "out/floating_attachment.jpg" := [] ]} (set_heap [∅] Example.initial) in
  let run := handle_attachments P Example.floating "out" false false 0 σ in
  ∃ paths,
    files_written (trace run.2) = files_written (trace σ) ++ paths
    ∧ NoDup paths
    ∧ Forall (λ path, files σ !! path = None) paths
    ∧ files σ ⊆ files run.2
    ∧ dom (files run.2) = dom (files σ) ∪ list_to_set paths
    ∧ length paths ≤ size (attachment_candidates Example.floating (members σ 0)).
Proof.
  intros P σ.
  apply (handle_attachments_never_overwrites P Example.floating "out" false false 0 σ).
  simpl. lia.
Defined.

Example second_attachment_is_numbered :
  let P := Example.platform Example.quiet_engine in
  let σ := set_files {[ "out/floating_attachment.jpg" := [] ]} (set_heap [∅] Example.initial) in
  files_written (trace (handle_attachments P Example.floating "out" false false 0 σ).2)
  = ["out/floating_attachment_1.jpg"].
Proof. reflexivity. Qed.

(** X7. When floating attachments are not ignored, the number a call of
    [handle_attachments] returns is the number of files it wrote: it is the
    number of candidate parts, so many files are recorded as written, and
    the directory holds so many files more. *)
Theorem handle_attachments_count_exact (P : Platform) (input_email : Message)
    (output_directory : string) (add_prefix : bool) (l : loc) (σ : state)
    (n : nat) (σ' : state) :
  l < length (heap σ) →
  handle_attachments P input_email output_directory add_prefix false l σ = (Return n, σ') →
  n = size (attachment_candidates input_email (members σ l))
  ∧ length (files_written (trace σ')) = length (files_written (trace σ)) + n
  ∧ size (files σ') = size (files σ) + n.
Proof. apply handle_attachments_count_is_files_written. Qed.

Lemma handle_attachments_count_exact_witness :
  let P := Example.platform Example.quiet_engine in
  let σ := set_heap [∅] Example.initial in
  let run := handle_attachments P Example.floating "out" false false 0 σ in
  1 = size (attachment_candidates Example.floating (members σ 0))
  ∧ length (files_written (trace run.2)) = length (files_written (trace σ)) + 1
  ∧ size (files run.2) = size (files σ) + 1.
Proof.
  intros P σ run.
  apply (handle_attachments_count_exact P Example.floating "out" false 0 σ 1 run.2).
  - simpl. lia.
  - vm_compute. reflexivity.
Defined.

(** ** What can be raised *)

Lemma raises_only_weaken {A} (Q Q' : exn → Prop) (m : M A) :
  (∀ e, Q e → Q' e) → raises_only Q m → raises_only Q' m.
Proof. intros Himp Hm σ e σ' Hrun. eapply Himp, Hm, Hrun. Qed.

Lemma raises_only_ret {A} (Q : exn → Prop) (a : A) : raises_only Q (mret a).
Proof. intros σ e σ'. unfold_monad. congruence. Qed.

Lemma raises_only_raise {A} (Q : exn → Prop) (e : exn) :
  Q e → raises_only Q (raise (A := A) e).
Proof. intros He σ e' σ'. unfold_monad. congruence. Qed.

Lemma raises_only_bind {A B} (Q : exn → Prop) (m : M A) (f : A → M B) :
  raises_only Q m → (∀ a, raises_only Q (f a)) → raises_only Q (m ≫= f).
Proof.
  intros Hm Hf σ e σ'. unfold mbind, M_bind.
  destruct (m σ) as [[a|e'] σ1] eqn:Hrun; [apply Hf|].
  intros [= <- <-]. by eapply Hm.
Qed.

Lemma raises_only_bind_ret {A B C} (Q : exn → Prop) (m : M A) (f : A → B)
    (k : B → M C) :
  raises_only Q (m ≫= λ a, k (f a)) →
  raises_only Q ((m ≫= λ a, mret (f a)) ≫= k).
Proof.
  intros Hm σ e σ'. specialize (Hm σ e σ'). revert Hm.
  unfold mbind, M_bind, mret, M_ret. by destruct (m σ) as [[a|e'] σ1].
Qed.

Lemma raises_only_ret_bind {A B} (Q : exn → Prop) (a : A) (k : A → M B) :
  raises_only Q (k a) → raises_only Q (mret a ≫= k).
Proof. intros Hk σ e σ'. apply Hk. Qed.

Lemma raises_only_total {A} (Q : exn → Prop) (m : M A) :
  (∀ σ, ∃ a σ', m σ = (Return a, σ')) → raises_only Q m.
Proof. intros Hm σ e σ' Hrun. destruct (Hm σ) as (a & σ1 & Heq). congruence. Qed.

Lemma raises_only_for_each {A} (Q : exn → Prop) (l : list A) (body : A → M unit) :
  (∀ x, raises_only Q (body x)) → raises_only Q (for_each l body).
Proof.
  intros Hbody. induction l as [|x l IH]; simpl.
  - apply raises_only_ret.
  - apply raises_only_bind; [apply Hbody|by intros _].
Qed.

Lemma raises_only_map_each {A B} (Q : exn → Prop) (f : A → M B) (l : list A) :
  (∀ x, raises_only Q (f x)) → raises_only Q (map_each f l).
Proof.
  intros Hf. induction l as [|x l IH]; simpl.
  - apply raises_only_ret.
  - apply raises_only_bind; [apply Hf|intros y].
    apply raises_only_bind; [apply IH|intros ys]. apply raises_only_ret.
Qed.

Lemma raises_only_re_sub_cid_go (Q : exn → Prop) (repl : string → M string)
    (skip : nat) (s : string) :
  (∀ group1, raises_only Q (repl group1)) → raises_only Q (re_sub_cid_go repl skip s).
Proof.
  intros Hrepl. revert skip. induction s as [|c r IH]; intros skip.
  - apply raises_only_ret.
  - destruct skip as [|k]; [|apply IH].
    rewrite re_sub_cid_go_here. destruct (cid_match (String c r)) as [group1|].
    + apply raises_only_bind; [apply Hrepl|intros replacement].
      apply raises_only_bind; [apply IH|intros rest]. apply raises_only_ret.
    + apply raises_only_bind; [apply IH|intros rest]. apply raises_only_ret.
Qed.

Create HintDb raises.

Ltac raises_total :=
  apply raises_only_total; intros ?; unfold_monad; by eexists _, _.

Ltac raises_step :=
  lazymatch goal with
  | |- raises_only _ (mret _) => apply raises_only_ret
  | |- raises_only _ (raise _) => apply raises_only_raise; first [exact I | done]
  | |- raises_only _ get_state => raises_total
  | |- raises_only _ (modify _) => raises_total
  | |- raises_only _ (logger_warning _) => raises_total
  | |- raises_only _ (emit _) => raises_total
  | |- raises_only _ set_new => raises_total
  | |- raises_only _ (set_read _) => raises_total
  | |- raises_only _ (set_add _ _) => raises_total
  | |- raises_only _ (set_difference _ _) => raises_total
  | |- raises_only _ (set_copy _) => raises_total
  | |- raises_only _ (write_file _ _) => raises_total
  | |- raises_only _ (mbind _ _) => apply raises_only_bind; [|intros ?]
  | |- raises_only _ (for_each _ _) => apply raises_only_for_each; intros ?
  | |- raises_only _ (map_each _ _) => apply raises_only_map_each; intros ?
  | |- raises_only _ (re_sub_cid _ _) =>
      apply raises_only_re_sub_cid_go; intros ?
  | |- raises_only _ (if ?b then _ else _) => destruct b
  | |- raises_only _ (match ?x with _ => _ end) => destruct x
  end.

Ltac raises_auto :=
  repeat (cbv beta; first [solve [eauto with raises] | raises_step]).

(** From a smaller kind of exceptions to a larger one. *)
Ltac raises_from lemma :=
  eapply raises_only_weaken; [|apply lemma]; intros []; simpl; try done.

Lemma raises_get_utf8_header (P : Platform) header :
  raises_only is_header_error (get_utf8_header P header).
Proof.
  unfold get_utf8_header. destruct (decode_header P header) as [segments|];
    [|raises_auto].
  generalize EmptyString.
  induction segments as [|[[b|s] charset] segments IH]; intros hdr; simpl; raises_auto.
Qed.

Lemma raises_extract_part_filename (P : Platform) part :
  raises_only is_filename_error (extract_part_filename P part).
Proof. unfold extract_part_filename. raises_auto. Qed.

Lemma raises_handle_attachment (P : Platform) input_email output_directory add_prefix
    ignore_floating id :
  raises_only is_filename_error
    (handle_attachment P input_email output_directory add_prefix ignore_floating id).
Proof.
  unfold handle_attachment.
  apply raises_only_bind; [apply raises_extract_part_filename|intros filename].
  cbv zeta.
  match goal with
  | |- context [match ?named with Some _ => _ | None => mret () end] =>
      destruct named as [name|]; [|raises_auto]
  end.
  apply raises_only_bind; [raises_auto|intros σ].
  match goal with
  | |- context [get_unique_version ?fs ?full] =>
      destruct (get_unique_version_returns fs full) as (path & -> & _)
  end.
  raises_auto.
Qed.

Lemma raises_find_all_attachments (Q : exn → Prop) message parts_to_ignore :
  raises_only Q (find_all_attachments message parts_to_ignore).
Proof. unfold find_all_attachments. raises_auto. Qed.

Lemma raises_filter_filenamed_parts (Q : exn → Prop) (P : Platform) message parts :
  raises_only Q (filter_filenamed_parts P message parts).
Proof. unfold filter_filenamed_parts. raises_auto. Qed.

Lemma raises_handle_attachments (P : Platform) input_email output_directory add_prefix
    ignore_floating parts_to_ignore :
  raises_only is_filename_error
    (handle_attachments P input_email output_directory add_prefix ignore_floating
       parts_to_ignore).
Proof.
  unfold handle_attachments.
  pose proof (raises_find_all_attachments is_filename_error input_email parts_to_ignore).
  pose proof (raises_handle_attachment P input_email output_directory add_prefix
                ignore_floating).
  raises_auto.
Qed.

Lemma extract_part_filename_const (P : Platform) part σ σ0 :
  (extract_part_filename P part σ).1 = (extract_part_filename P part σ0).1.
Proof.
  unfold extract_part_filename. unfold_monad.
  repeat match goal with
         | |- context [match ?x with _ => _ end] => destruct x
         end; reflexivity.
Qed.

Lemma raises_only_and {A} (Q1 Q2 : exn → Prop) (m : M A) :
  raises_only Q1 m → raises_only Q2 m → raises_only (λ e, Q1 e ∧ Q2 e) m.
Proof. intros H1 H2 σ e σ' Hrun. split; [by eapply H1|by eapply H2]. Qed.

(** Whatever a pass raises, [extract_part_filename] raises on a part. *)
Lemma raises_handle_attachments_from (P : Platform) input_email output_directory
    add_prefix ignore_floating parts_to_ignore :
  raises_only
    (λ e, ∃ id, ∀ σ0, (extract_part_filename P (part_at input_email id) σ0).1 = Raise e)
    (handle_attachments P input_email output_directory add_prefix ignore_floating
       parts_to_ignore).
Proof.
  unfold handle_attachments.
  match goal with |- raises_only ?Q _ => set (from := Q) end.
  pose proof (raises_find_all_attachments from input_email parts_to_ignore).
  assert (∀ id, raises_only from
                  (handle_attachment P input_email output_directory add_prefix
                     ignore_floating id)).
  { intros id. unfold handle_attachment.
    apply raises_only_bind; [|intros filename].
    { intros σ e σ' Hrun. exists id. intros σ0.
      by rewrite (extract_part_filename_const P _ σ0 σ), Hrun. }
    cbv zeta.
    match goal with
    | |- context [match ?named with Some _ => _ | None => mret () end] =>
        destruct named as [name|]; [|raises_auto]
    end.
    apply raises_only_bind; [raises_auto|intros σ].
    match goal with
    | |- context [get_unique_version ?fs ?full] =>
        destruct (get_unique_version_returns fs full) as (path & -> & _)
    end.
    raises_auto. }
  raises_auto.
Qed.

(** X8. Whatever the message and the state, a call of [handle_attachments]
    can only raise what [extract_part_filename] raises on a part of the
    message while it decodes its file name: [UnicodeDecodeError],
    [LookupError], what [decode_header] raises, [TypeError], [IndexError], or
    the exception of another class that [str(bytes, charset)] raises (plain
    [UnicodeError] for the charset [undefined]).  It never raises the fatal
    failure, and the search for a free name always ends.  (Opening and
    writing a file are taken to succeed, as [write_file] does.) *)
Theorem handle_attachments_raises_only (P : Platform) (input_email : Message)
    (output_directory : string) (add_prefix ignore_floating : bool)
    (parts_to_ignore : loc) (σ : state) :
  match (handle_attachments P input_email output_directory add_prefix ignore_floating
           parts_to_ignore σ).1 with
  | Return _ => True
  | Raise e =>
      (∃ id, (extract_part_filename P (part_at input_email id) σ).1 = Raise e)
      ∧ (e = UnicodeDecodeError ∨ e = LookupError ∨ e = HeaderParseError
         ∨ e = TypeError ∨ e = IndexError ∨ ∃ name, e = OtherException name)
  end.
Proof.
  destruct (handle_attachments _ _ _ _ _ _ σ) as [[n|e] σ'] eqn:Hrun; [done|].
  simpl. split.
  - apply raises_handle_attachments_from in Hrun as [id Hid]. by exists id.
  - apply raises_handle_attachments in Hrun.
    destruct e; simpl in Hrun; try done; eauto 10.
Qed.

(** A file name in the charset [undefined] stops the pass on the plain
    [UnicodeError] of the codec. *)
Example handle_attachments_undefined_charset :
  let P := Example.platform Example.quiet_engine in
  let message :=
    Example.message [Example.with_filename "=?undefined?q?abc?="
                       (Example.leaf "application/pdf")] in
  (handle_attachments P message "out" false false 0 (set_heap [∅] Example.initial)).1
  = Raise (OtherException "UnicodeError").
Proof. reflexivity. Qed.

Lemma raises_handle_plain_message_body (P : Platform) part :
  raises_only is_body_error (handle_plain_message_body P part).
Proof. unfold handle_plain_message_body. raises_auto. Qed.

Lemma raises_cid_replace (P : Platform) input_email used cid :
  raises_only is_body_error (cid_replace P input_email used cid).
Proof. unfold cid_replace. raises_auto. Qed.

Lemma raises_handle_html_message_body (P : Platform) input_email part :
  raises_only is_body_error (handle_html_message_body P input_email part).
Proof.
  unfold handle_html_message_body.
  pose proof (raises_cid_replace P input_email).
  raises_auto.
Qed.

(** X9. [handle_message_body] raises the fatal failure exactly when the
    message has neither a [text/html] nor a [text/plain] part and the body is
    wanted; its message then is "No body parts found; aborting." and no
    warning has been logged, no file written and no event recorded.  For such
    a message, when the body is not wanted, it returns: no payload, and a
    new, empty set. *)
Theorem handle_message_body_fatal_iff (P : Platform) (args : Args) (input_email : Message)
    (σ : state) :
  ((∃ value σ', handle_message_body P args input_email σ
                = (Raise (FatalException value), σ'))
   ↔ find_part_by_content_type input_email "text/html" = None
     ∧ find_part_by_content_type input_email "text/plain" = None
     ∧ body args = true)
  ∧ (∀ value σ',
      handle_message_body P args input_email σ = (Raise (FatalException value), σ') →
      value = "No body parts found; aborting."
      ∧ files σ' = files σ ∧ warnings σ' = warnings σ ∧ trace σ' = trace σ)
  ∧ (find_part_by_content_type input_email "text/html" = None →
     find_part_by_content_type input_email "text/plain" = None →
     body args = false →
     handle_message_body P args input_email σ
     = (Return (None, length (heap σ)), set_heap (heap σ ++ [∅]) σ)).
Proof.
  apply and_assoc.
  split; [|intros Hhtml Hplain Hbody; unfold handle_message_body;
           by rewrite Hhtml, Hplain, Hbody].
  unfold handle_message_body. unfold mbind at 1 3, M_bind at 1 3, set_new.
  assert (Hhtml : ∀ html value σ0 σ',
            ('(payload, cid_parts_used) ← handle_html_message_body P input_email html;
             mret (Some payload, cid_parts_used)) σ0
            ≠ (Raise (FatalException value), σ')).
  { intros html value σ0 σ' Hrun.
    assert (Hno : raises_only is_body_error
              ('(payload, cid_parts_used) ← handle_html_message_body P input_email html;
               mret (Some payload, cid_parts_used))).
    { pose proof (raises_handle_html_message_body P input_email html). raises_auto. }
    by apply Hno in Hrun. }
  assert (Hplain : ∀ plain (used : loc) value σ0 σ',
            (payload ← handle_plain_message_body P plain; mret (Some payload, used)) σ0
            ≠ (Raise (FatalException value), σ')).
  { intros plain used value σ0 σ' Hrun.
    assert (Hno : raises_only is_body_error
              (payload ← handle_plain_message_body P plain; mret (Some payload, used))).
    { pose proof (raises_handle_plain_message_body P plain). raises_auto. }
    by apply Hno in Hrun. }
  destruct (find_part_by_content_type input_email "text/html") as [[? html]|].
  { split; [split; [|by intros [? _]]|].
    - intros (value & σ' & Hrun). by apply Hhtml in Hrun.
    - intros value σ' Hrun. by apply Hhtml in Hrun. }
  destruct (find_part_by_content_type input_email "text/plain") as [[? plain]|].
  { split; [split; [|by intros (_ & ? & _)]|].
    - intros (value & σ' & Hrun). by apply Hplain in Hrun.
    - intros value σ' Hrun. by apply Hplain in Hrun. }
  destruct (body args); simpl; unfold_monad.
  - split; [split; [done|by eexists _, _]|]. by intros value σ' [= <- <-].
  - split; [split; [|by intros (_ & _ & ?)]|].
    + intros (value & σ' & Hrun). congruence.
    + intros value σ' Hrun. congruence.
Qed.

Lemma raises_get_formatted_header_info (P : Platform) input_email :
  raises_only is_header_error (get_formatted_header_info P input_email).
Proof.
  unfold get_formatted_header_info, FORMATTED_HEADERS_TO_INCLUDE. simpl.
  pose proof (raises_get_utf8_header P). raises_auto.
Qed.

Lemma raises_add_update_pdf_metadata (P : Platform) filename update_dictionary :
  raises_only is_run_error (add_update_pdf_metadata P filename update_dictionary).
Proof. unfold add_update_pdf_metadata. raises_auto. Qed.

Lemma raises_output_body_pdf (P : Platform) input_email payload output_file_name :
  raises_only is_run_error (output_body_pdf P input_email payload output_file_name).
Proof.
  unfold output_body_pdf, HEADER_MAPPING. simpl.
  assert (Hheader : ∀ header, raises_only is_run_error (get_utf8_header P header))
    by (intros; raises_from raises_get_utf8_header).
  pose proof (raises_add_update_pdf_metadata P).
  raises_auto.
Qed.

Lemma raises_remove_invalid_urls (P : Platform) payload :
  raises_only is_run_error (remove_invalid_urls P payload).
Proof. unfold remove_invalid_urls, check_img, can_url_fetch. raises_auto. Qed.

Lemma raises_handle_message_body (P : Platform) args input_email :
  raises_only (λ e, if body args then is_run_error e else is_body_error e)
    (handle_message_body P args input_email).
Proof.
  unfold handle_message_body.
  assert (Hhtml : ∀ part, raises_only (λ e, if body args then is_run_error e
                                            else is_body_error e)
                            (handle_html_message_body P input_email part)).
  { intros part. eapply raises_only_weaken; [|apply raises_handle_html_message_body].
    intros []; destruct (body args); simpl; done. }
  assert (Hplain : ∀ part, raises_only (λ e, if body args then is_run_error e
                                             else is_body_error e)
                             (handle_plain_message_body P part)).
  { intros part. eapply raises_only_weaken; [|apply raises_handle_plain_message_body].
    intros []; destruct (body args); simpl; done. }
  apply raises_only_bind; [raises_auto|intros used].
  destruct (find_part_by_content_type input_email "text/html") as [[? html]|];
    [raises_auto|].
  destruct (find_part_by_content_type input_email "text/plain") as [[? plain]|];
    [raises_auto|].
  destruct (body args); simpl; raises_auto.
Qed.

Lemma raises_main (P : Platform) args input_email output_directory output_file_name :
  raises_only (λ e, if body args then is_run_error e
                    else if attachments args then is_filename_error e || is_body_error e
                    else negb (is_fatal e))
    (main P args input_email output_directory output_file_name).
Proof.
  unfold main.
  pose proof (raises_handle_message_body P args input_email) as Hbody.
  pose proof (raises_handle_attachments P input_email output_directory
                (add_prefix_date args) (ignore_floating_attachments args)) as Hpass.
  destruct (body args), (attachments args); simpl.
  - assert (Hpass' : ∀ l, raises_only is_run_error
              (handle_attachments P input_email output_directory (add_prefix_date args)
                 (ignore_floating_attachments args) l))
      by (intros; raises_from Hpass).
    assert (Hinfo : raises_only is_run_error (get_formatted_header_info P input_email))
      by raises_from raises_get_formatted_header_info.
    pose proof (raises_output_body_pdf P input_email).
    pose proof (raises_remove_invalid_urls P).
    apply raises_only_bind; [raises_auto|intros [payload used]].
    apply raises_only_bind; [raises_auto|intros _].
    apply raises_only_bind_ret. raises_auto.
  - assert (Hinfo : raises_only is_run_error (get_formatted_header_info P input_email))
      by raises_from raises_get_formatted_header_info.
    pose proof (raises_output_body_pdf P input_email).
    pose proof (raises_remove_invalid_urls P).
    raises_auto.
  - assert (Hbody' : raises_only (λ e, is_filename_error e || is_body_error e)
              (handle_message_body P args input_email)).
    { eapply raises_only_weaken; [|apply Hbody]. intros [] He; simpl in *; done. }
    assert (Hpass' : ∀ l, raises_only (λ e, is_filename_error e || is_body_error e)
              (handle_attachments P input_email output_directory (add_prefix_date args)
                 (ignore_floating_attachments args) l))
      by (intros; raises_from Hpass).
    pose proof (raises_filter_filenamed_parts
                  (λ e, is_filename_error e || is_body_error e) P input_email).
    apply raises_only_bind; [raises_auto|intros [payload used]].
    apply raises_only_bind; [raises_auto|intros _].
    apply raises_only_bind_ret. raises_auto.
  - assert (Hbody' : raises_only (λ e, negb (is_fatal e))
              (handle_message_body P args input_email)).
    { eapply raises_only_weaken; [|apply Hbody]. intros [] He; simpl in *; done. }
    apply raises_only_bind; [raises_auto|intros [payload used]].
    apply raises_only_bind; [raises_auto|intros _].
    apply raises_only_ret_bind. raises_auto.
Qed.

(** X10. If the body or the attachments are wanted, as [handle_args] asserts,
    the steps from body resolution to the second attachment pass never stop
    on the unbound [number_of_attachments], and a fatal failure they raise
    says either that no body part was found or that [wkhtmltopdf] failed. *)
Theorem main_raises_only (P : Platform) (args : Args) (input_email : Message)
    (output_directory output_file_name : string) (σ : state) (e : exn) (σ' : state) :
  body args || attachments args = true →
  main P args input_email output_directory output_file_name σ = (Raise e, σ') →
  e ≠ UnboundLocalError
  ∧ ∀ value, e = FatalException value →
             value = "No body parts found; aborting."
             ∨ String.prefix "wkhtmltopdf " value = true.
Proof.
  intros Hargs Hrun. apply raises_main in Hrun.
  destruct (body args); [|destruct (attachments args); [|done]].
  - split; [by intros ->|]. intros value ->. simpl in Hrun.
    apply orb_prop_elim in Hrun as [Hrun|Hrun]; apply Is_true_true in Hrun.
    + left. by apply String.eqb_eq.
    + by right.
  - split; [by intros ->|]. by intros value ->.
Qed.

Lemma main_raises_only_witness :
  let P := Example.platform Example.quiet_engine in
  let message := Example.message [Example.leaf "image/png"] in
  let value := "No body parts found; aborting." in
  FatalException value ≠ UnboundLocalError
  ∧ ∀ value', FatalException value = FatalException value' →
              value' = "No body parts found; aborting."
              ∨ String.prefix "wkhtmltopdf " value' = true.
Proof.
  intros P message value.
  apply (main_raises_only P Example.everything message "out" "out/mail.pdf"
           Example.initial (FatalException value)
           (main P Example.everything message "out" "out/mail.pdf" Example.initial).2).
  - reflexivity.
  - vm_compute. reflexivity.
Defined.

(** X11. When the body is not wanted, the steps from body resolution to the
    second attachment pass never raise the fatal failure; if attachments are
    wanted, what they raise is what body resolution raises on the message,
    or what [extract_part_filename] raises on one of its parts.  (Opening
    and writing a file are taken to succeed, as [write_file] does.) *)
Theorem main_no_body_never_fatal (P : Platform) (args : Args) (input_email : Message)
    (output_directory output_file_name : string) (σ : state) (e : exn) (σ' : state) :
  body args = false →
  main P args input_email output_directory output_file_name σ = (Raise e, σ') →
  (∀ value, e ≠ FatalException value)
  ∧ (attachments args = true →
     (handle_message_body P args input_email σ).1 = Raise e
     ∨ ∃ id, (extract_part_filename P (part_at input_email id) σ).1 = Raise e).
Proof.
  intros Hbody Hrun. split.
  { apply raises_main in Hrun. rewrite Hbody in Hrun.
    destruct (attachments args); intros value ->; done. }
  intros Hattachments. unfold main in Hrun.
  rewrite Hbody, Hattachments, bind_unfold in Hrun.
  destruct (handle_message_body P args input_email σ) as [[[payload used]|e0] σ1];
    [|left; by injection Hrun as ->].
  right.
  match type of Hrun with
  | ?rest σ1 = _ =>
      assert (Hrest : raises_only
                (λ e, ∃ id, ∀ σ0,
                   (extract_part_filename P (part_at input_email id) σ0).1 = Raise e)
                rest)
  end.
  { match goal with |- raises_only ?Q _ => set (from := Q) end.
    pose proof (raises_handle_attachments_from P input_email output_directory
                  (add_prefix_date args) (ignore_floating_attachments args)).
    pose proof (raises_filter_filenamed_parts from P input_email).
    simpl. apply raises_only_bind; [raises_auto|intros _].
    apply raises_only_bind_ret. raises_auto. }
  apply Hrest in Hrun as [id Hid]. by exists id.
Qed.

Lemma main_no_body_never_fatal_witness :
  let P := Example.platform Example.quiet_engine in
  let message :=
    Example.message [Example.with_filename "=?undefined?q?abc?="
                       (Example.leaf "application/pdf")] in
  let e := OtherException "UnicodeError" in
  (∀ value, e ≠ FatalException value)
  ∧ (attachments Example.no_body = true →
     (handle_message_body P Example.no_body message Example.initial).1 = Raise e
     ∨ ∃ id, (extract_part_filename P (part_at message id) Example.initial).1 = Raise e).
Proof.
  intros P message e.
  apply (main_no_body_never_fatal P Example.no_body message "out" "out/mail.pdf"
           Example.initial e
           (main P Example.no_body message "out" "out/mail.pdf" Example.initial).2).
  - reflexivity.
  - vm_compute. reflexivity.
Defined.

(** ** What a run leaves alone *)

Global Instance no_fetch_preorder : PreOrder no_fetch.
Proof.
  split.
  - by intros σ.
  - intros σ1 σ2 σ3 H12 H23. unfold no_fetch in *. congruence.
Qed.

Global Instance no_write_preorder : PreOrder no_write.
Proof.
  split.
  - by intros σ.
  - intros σ1 σ2 σ3 H12 H23. unfold no_write in *. congruence.
Qed.

Global Instance files_kept_but_preorder keep : PreOrder (files_kept_but keep).
Proof.
  split.
  - by intros σ path content _ Hfile.
  - intros σ1 σ2 σ3 H12 H23 path content Hkeep Hfile. by apply H23, H12.
Qed.

Global Instance files_same_but_preorder keep : PreOrder (files_same_but keep).
Proof.
  split.
  - by intros σ path _.
  - intros σ1 σ2 σ3 H12 H23 path Hkeep. by rewrite H23, H12.
Qed.

Lemma urls_fetched_snoc t url :
  urls_fetched (t ++ [EvUrlFetch url]) = urls_fetched t ++ [url].
Proof. unfold urls_fetched. by rewrite omap_app. Qed.

(** The steps that touch nothing but the set objects and the record of
    warnings are related by every relation those two do not matter to. *)
Section frame.
Context (R : state → state → Prop) `{!PreOrder R}.
Hypothesis R_heap : ∀ σ h, R σ (set_heap h σ).
Hypothesis R_warning : ∀ σ w, R σ (add_warning w σ).

Lemma frame_set_new : run_rel R set_new.
Proof. intros σ. apply R_heap. Qed.

Lemma frame_set_add l id : run_rel R (set_add l id).
Proof. intros σ. apply R_heap. Qed.

Lemma frame_set_difference a b : run_rel R (set_difference a b).
Proof. intros σ. apply R_heap. Qed.

Lemma frame_set_copy a : run_rel R (set_copy a).
Proof. intros σ. apply R_heap. Qed.

Lemma frame_logger_warning msg : run_rel R (logger_warning msg).
Proof. intros σ. apply R_warning. Qed.

#[local] Hint Resolve frame_set_new frame_set_add frame_set_difference frame_set_copy
  frame_logger_warning : run_rel.

Lemma frame_get_utf8_header (P : Platform) header : run_rel R (get_utf8_header P header).
Proof.
  unfold get_utf8_header. destruct (decode_header P header) as [segments|];
    [|run_rel_auto].
  generalize EmptyString.
  induction segments as [|[[b|s] charset] segments IH]; intros hdr; simpl;
    run_rel_auto.
Qed.
#[local] Hint Resolve frame_get_utf8_header : run_rel.

Lemma frame_get_formatted_header_info (P : Platform) input_email :
  run_rel R (get_formatted_header_info P input_email).
Proof.
  unfold get_formatted_header_info, FORMATTED_HEADERS_TO_INCLUDE. simpl.
  run_rel_auto.
Qed.

Lemma frame_extract_part_filename (P : Platform) part :
  run_rel R (extract_part_filename P part).
Proof. unfold extract_part_filename. run_rel_auto. Qed.
#[local] Hint Resolve frame_extract_part_filename : run_rel.

Lemma frame_handle_message_body (P : Platform) args input_email :
  run_rel R (handle_message_body P args input_email).
Proof.
  unfold handle_message_body, handle_html_message_body, handle_plain_message_body,
    re_sub_cid.
  run_rel_auto.
  apply run_rel_re_sub_cid_go; [apply _|]. intros. unfold cid_replace. run_rel_auto.
Qed.

Lemma frame_find_all_attachments message parts_to_ignore :
  run_rel R (find_all_attachments message parts_to_ignore).
Proof. unfold find_all_attachments. run_rel_auto. Qed.

Lemma frame_filter_filenamed_parts (P : Platform) message parts :
  run_rel R (filter_filenamed_parts P message parts).
Proof. unfold filter_filenamed_parts. run_rel_auto. Qed.

Lemma frame_handle_attachments (P : Platform) input_email output_directory add_prefix
    ignore_floating parts_to_ignore :
  (∀ σ l ignored, R σ (add_event (EvHandleAttachments l ignored) σ)) →
  (∀ id, run_rel R (handle_attachment P input_email output_directory add_prefix
                      ignore_floating id)) →
  run_rel R (handle_attachments P input_email output_directory add_prefix ignore_floating
               parts_to_ignore).
Proof.
  intros Hpass Hpart. unfold handle_attachments.
  pose proof frame_find_all_attachments.
  assert (∀ l ignored, run_rel R (emit (EvHandleAttachments l ignored)))
    by (intros l ignored σ; apply Hpass).
  run_rel_auto.
Qed.

(** The run, given what rendering and the attachment passes do. *)
Lemma frame_main (P : Platform) args input_email output_directory output_file_name :
  (body args = true →
   (∀ payload, run_rel R (remove_invalid_urls P payload))
   ∧ ∀ payload, run_rel R (output_body_pdf P input_email payload output_file_name)) →
  (attachments args = true →
   ∀ l, run_rel R (handle_attachments P input_email output_directory (add_prefix_date args)
                     (ignore_floating_attachments args) l)) →
  run_rel R (main P args input_email output_directory output_file_name).
Proof.
  intros Hbody Hpass. unfold main.
  pose proof (frame_handle_message_body P args input_email).
  pose proof (frame_get_formatted_header_info P input_email).
  pose proof (frame_filter_filenamed_parts P input_email).
  apply run_rel_bind; [apply _|done|intros [payload used]].
  apply run_rel_bind; [apply _| |intros _].
  { destruct (body args); [|run_rel_auto].
    destruct Hbody as [Hurls Hpdf]; [done|]. run_rel_auto. }
  destruct (attachments args).
  - specialize (Hpass eq_refl). run_rel_auto.
  - intros σ. change (R σ ((if negb (body args)
                            then raise (A := ()) UnboundLocalError else mret ()) σ).2).
    by destruct (body args).
Qed.

End frame.

Global Instance only_files_preorder : PreOrder only_files.
Proof.
  split.
  - by intros σ.
  - intros σ1 σ2 σ3 (? & ? & ?) (? & ? & ?). repeat split; congruence.
Qed.

(** ** Remote images, one document *)

Lemma contains_space_cons (d : ascii) (r : string) :
  d ≠ " "%char → PyStr.contains " " (String d r) = PyStr.contains " " r.
Proof.
  intros Hd. cbn [PyStr.contains String.prefix].
  destruct (ascii_dec " " d) as [Heq|_]; [by subst d|done].
Qed.

Lemma encoded_no_space (src : string) : PyStr.contains " " (encoded src) = false.
Proof.
  unfold encoded. induction src as [|d r IH]; [done|].
  cbn [PyStr.replace_char]. destruct (Ascii.eqb d " ") eqn:Hd.
  - change ("%20" +:+ ?s) with (String "%" (String "2" (String "0" s))).
    by rewrite !contains_space_cons.
  - apply Ascii.eqb_neq in Hd. by rewrite contains_space_cons.
Qed.

(** One [img] element. *)
Lemma check_img_outcome (P : Platform) (img_src : option string) (σ : state) :
  check_img P img_src σ
  = match img_src with
    | Some src =>
        if is_fetched src then
          let fetching := add_event (EvUrlFetch (encoded src)) σ in
          match urlopen P (encoded src) with
          | Fetched => (Return (Some src), fetching)
          | RaisesOther => (Raise FetchError, fetching)
          | _ => (Return None,
                  add_warning ("Could not retrieve img URL " +:+ src
                               +:+ ", replacing with blank.") fetching)
          end
        else
          (Return (if negb (String.eqb (PyStr.lower src) "broken")
                      && PyStr.startswith (PyStr.lower src) "data"
                   then Some src else None), σ)
    | None => (Return None, σ)
    end.
Proof.
  destruct img_src as [src|]; [|done].
  unfold check_img, is_fetched. cbv beta zeta.
  destruct (String.eqb (PyStr.lower src) "broken"); [done|].
  destruct (PyStr.startswith (PyStr.lower src) "data"); [done|].
  destruct (existsb _ IMAGE_LOAD_BLACKLIST); [done|].
  cbn [negb andb]. unfold can_url_fetch. fold (encoded src). unfold_monad. simpl.
  by destruct (urlopen P (encoded src)).
Qed.

Lemma map_each_check_img_outcome (P : Platform) (srcs : list (option string))
    (σ : state) :
  let run := map_each (check_img P) srcs σ in
  let wanted := List.filter is_fetched (omap id srcs) in
  heap run.2 = heap σ ∧ files run.2 = files σ
  ∧ ∃ fetched,
      trace run.2 = trace σ ++ map (λ src, EvUrlFetch (encoded src)) fetched
      ∧ warnings run.2
        = warnings σ ++ map retrieval_warning (List.filter (fetch_gives_up P) fetched)
      ∧ match run.1 with
        | Return rs =>
            Forall (λ src, fetch_stops P src = false) wanted
            ∧ fetched = wanted
            ∧ rs = map (checked P) srcs
        | Raise e =>
            e = FetchError
            ∧ ∃ before src after,
                wanted = before ++ src :: after
                ∧ Forall (λ src, fetch_stops P src = false) before
                ∧ fetch_stops P src = true
                ∧ fetched = before ++ [src]
        end.
Proof.
  revert σ. induction srcs as [|img_src srcs IH]; intros σ; cbv zeta.
  { simpl. split; [done|]. split; [done|]. exists []. by rewrite !app_nil_r. }
  cbn [map_each]. rewrite bind_unfold, check_img_outcome.
  destruct img_src as [src|].
  2:{ change (omap id (None :: srcs)) with (omap id srcs).
      specialize (IH σ). cbv zeta in IH. rewrite bind_unfold.
      destruct (map_each (check_img P) srcs σ) as [[rs|e] σ1];
        destruct IH as (Hheap & Hfiles & fetched & Htrace & Hwarn & Hrun); simpl in *.
      - split; [done|]. split; [done|]. exists fetched. do 2 (split; [done|]).
        destruct Hrun as (Hall & -> & ->). done.
      - split; [done|]. split; [done|]. exists fetched. done. }
  change (omap id (Some src :: srcs)) with (src :: omap id srcs).
  cbn [List.filter].
  destruct (is_fetched src) eqn:Hwanted.
  2:{ specialize (IH σ). cbv zeta in IH. rewrite bind_unfold.
      destruct (map_each (check_img P) srcs σ) as [[rs|e] σ1];
        destruct IH as (Hheap & Hfiles & fetched & Htrace & Hwarn & Hrun); simpl in *.
      - split; [done|]. split; [done|]. exists fetched. do 2 (split; [done|]).
        destruct Hrun as (Hall & -> & ->). do 2 (split; [done|]).
        unfold checked at 1. by rewrite Hwanted, orb_false_r.
      - split; [done|]. split; [done|]. exists fetched. done. }
  assert (Hdata : negb (String.eqb (PyStr.lower src) "broken")
                  && PyStr.startswith (PyStr.lower src) "data" = false).
  { unfold is_fetched in Hwanted. cbv zeta in Hwanted.
    destruct (String.eqb (PyStr.lower src) "broken"); [done|].
    by destruct (PyStr.startswith (PyStr.lower src) "data"). }
  cbv zeta.
  destruct (urlopen P (encoded src)) eqn:Hopen.
  5:{ simpl. split; [done|]. split; [done|]. exists [src]. split; [done|].
      split.
      { simpl. unfold fetch_gives_up. rewrite Hopen. simpl. by rewrite app_nil_r. }
      split; [done|]. exists [], src, (List.filter is_fetched (omap id srcs)).
      split; [done|]. split; [constructor|]. split; [|done].
      unfold fetch_stops. by rewrite Hopen. }
  all: match goal with
       | |- context [mbind _ (map_each _ ?l) ?σ1] =>
           specialize (IH σ1); cbv zeta in IH; rewrite bind_unfold;
           destruct (map_each (check_img P) l σ1) as [[rs|e] σ2];
           destruct IH as (Hheap & Hfiles & fetched & Htrace & Hwarn & Hrun);
           simpl in Hheap, Hfiles, Htrace, Hwarn, Hrun |- *
       end.
  all: split; [done|]; split; [done|]; exists (src :: fetched).
  all: split; [by rewrite Htrace, <- app_assoc|].
  all: assert (Hgives : fetch_gives_up P src = caught (urlopen P (encoded src))) by done.
  all: rewrite Hopen in Hgives; simpl in Hgives.
  all: split; [rewrite Hwarn; cbn [List.filter]; rewrite Hgives;
               simpl; by rewrite <- ?app_assoc|].
  all: assert (Hgo : fetch_stops P src = false) by (unfold fetch_stops; by rewrite Hopen).
  all: try (destruct Hrun as (Hall & -> & ->); split; [by constructor|]; split; [done|];
            unfold mret, M_ret; simpl; unfold checked at 1, fetch_stops, fetch_gives_up;
            by rewrite Hwanted, Hdata, Hopen).
  all: destruct Hrun as (-> & before & failed & after & -> & Hall & Hstop & ->).
  all: split; [done|]; exists (src :: before), failed, after.
  all: split; [done|]; split; [by constructor|done].
Qed.

(** X12. [remove_invalid_urls] visits the [img] elements in document order
    and asks the network about exactly the [src] values that are not
    [broken], do not begin with [data] and contain no blacklisted item, each
    once, in that order, with every space percent-encoded.  When one of these
    fetches fails otherwise than with [HTTPError], [URLError] or
    [ValueError], the run stops there with that failure, and it returns
    only when none does: then every such address has been fetched, a warning
    has been logged for each fetch that failed, and in the document returned
    a [src] is kept when it begins with [data] or its fetch succeeded, and is
    deleted otherwise.  The set objects are not touched. *)
Theorem remove_invalid_urls_fetches (P : Platform) (payload : string) (σ : state) :
  let run := remove_invalid_urls P payload σ in
  let wanted := List.filter is_fetched (omap id (soup_img_srcs P payload)) in
  heap run.2 = heap σ
  ∧ ∃ fetched,
      fetched `prefix_of` wanted
      ∧ urls_fetched (trace run.2) = urls_fetched (trace σ) ++ map encoded fetched
      ∧ Forall (λ url, PyStr.contains " " url = false) (map encoded fetched)
      ∧ warnings run.2
        = warnings σ ++ map retrieval_warning (List.filter (fetch_gives_up P) fetched)
      ∧ match run.1 with
        | Return payload' =>
            Forall (λ src, fetch_stops P src = false) wanted
            ∧ fetched = wanted
            ∧ payload' = soup_str P payload (map (checked P) (soup_img_srcs P payload))
        | Raise e =>
            e = FetchError
            ∧ ∃ before src after,
                wanted = before ++ src :: after
                ∧ Forall (λ src, fetch_stops P src = false) before
                ∧ fetch_stops P src = true
                ∧ fetched = before ++ [src]
        end.
Proof.
  cbv zeta. unfold remove_invalid_urls. rewrite bind_unfold.
  destruct (map_each_check_img_outcome P (soup_img_srcs P payload) σ)
    as (Hheap & _ & fetched & Htrace & Hwarn & Hrun).
  assert (Hurls : ∀ t, urls_fetched (t ++ map (λ src, EvUrlFetch (encoded src)) fetched)
                       = urls_fetched t ++ map encoded fetched).
  { intros t. unfold urls_fetched. rewrite omap_app. f_equal.
    clear. induction fetched as [|src fetched IH]; [done|]. simpl. by f_equal. }
  assert (Hspace : Forall (λ url, PyStr.contains " " url = false) (map encoded fetched)).
  { apply Forall_fmap, Forall_forall. intros src _. apply encoded_no_space. }
  destruct (map_each (check_img P) (soup_img_srcs P payload) σ) as [[srcs|e] σ1];
    simpl in Hheap, Htrace, Hwarn, Hrun |- *.
  - split; [done|]. exists fetched. destruct Hrun as (Hall & Hfetched & ->).
    split; [by rewrite Hfetched|]. rewrite Htrace, Hurls. done.
  - split; [done|]. exists fetched.
    destruct Hrun as (-> & before & failed & after & Hwanted & Hall & Hstop & ->).
    split; [rewrite Hwanted; apply prefix_app, prefix_cons, prefix_nil|].
    rewrite Htrace, Hurls. do 3 (split; [done|]). split; [done|].
    by exists before, failed, after.
Qed.

(** On an example.  Of the seven [img] elements one has no [src], one a
    [data:] address and one the text [broken]; the host of the second address
    asked for cannot be found, and the third times out: the run stops there,
    and the fourth address is never asked for. *)
Example remove_invalid_urls_stops_at_timeout :
  let run :=
    remove_invalid_urls (Example.gallery Example.timeouts) "<html/>" Example.initial in
  run.1 = Raise FetchError
  ∧ urls_fetched (trace run.2)
    = ["http://reachable/a%20b.png"; "http://gone/x.png"; "http://timeout/y.png"]
  ∧ warnings run.2
    = ["Could not retrieve img URL http://gone/x.png, replacing with blank."].
Proof. vm_compute. done. Qed.

(** The same document when the third host cannot be found either: the run
    returns, the [data:] address and the addresses fetched are kept, the
    others deleted. *)
Example remove_invalid_urls_returns :
  let run :=
    remove_invalid_urls (Example.gallery Example.reachability) "<html/>" Example.initial in
  run.1 = Return "http://reachable/a b.png - data:image/png;base64,AA== - - - http://reachable/z.png"
  ∧ urls_fetched (trace run.2)
    = ["http://reachable/a%20b.png"; "http://gone/x.png"; "http://timeout/y.png";
       "http://reachable/z.png"]
  ∧ warnings run.2
    = ["Could not retrieve img URL http://gone/x.png, replacing with blank.";
       "Could not retrieve img URL http://timeout/y.png, replacing with blank."].
Proof. vm_compute. done. Qed.


(** ** Rendering touches one file *)

Lemma only_files_set_files f : run_rel only_files (modify (λ σ, set_files (f σ) σ)).
Proof. by intros σ. Qed.

Lemma only_files_add_update_pdf_metadata (P : Platform) filename update_dictionary :
  run_rel only_files (add_update_pdf_metadata P filename update_dictionary).
Proof.
  intros σ. unfold add_update_pdf_metadata. unfold_monad.
  destruct (files σ !! filename); [|done].
  by destruct (pdf_merge_info P _ _).
Qed.

Lemma only_files_output_body_pdf (P : Platform) input_email payload output_file_name :
  run_rel only_files (output_body_pdf P input_email payload output_file_name).
Proof.
  unfold output_body_pdf, HEADER_MAPPING. simpl.
  pose proof (frame_get_utf8_header only_files P).
  pose proof (only_files_add_update_pdf_metadata P).
  pose proof only_files_set_files.
  run_rel_auto.
Qed.

Lemma files_same_but_insert keep content :
  run_rel (files_same_but keep)
    (modify (λ σ, set_files (<[keep := content]> (files σ)) σ)).
Proof. intros σ path Hne. simpl. by rewrite lookup_insert_ne. Qed.

Lemma files_same_but_add_update_pdf_metadata (P : Platform) filename update_dictionary :
  run_rel (files_same_but filename) (add_update_pdf_metadata P filename update_dictionary).
Proof.
  intros σ. unfold add_update_pdf_metadata. unfold_monad.
  destruct (files σ !! filename); [|done].
  destruct (pdf_merge_info P _ _); [|done].
  intros path Hne. simpl. by rewrite lookup_insert_ne.
Qed.

Lemma files_same_but_output_body_pdf (P : Platform) input_email payload output_file_name :
  run_rel (files_same_but output_file_name)
    (output_body_pdf P input_email payload output_file_name).
Proof.
  unfold output_body_pdf, HEADER_MAPPING. simpl.
  pose proof (frame_get_utf8_header (files_same_but output_file_name) P).
  pose proof (files_same_but_add_update_pdf_metadata P output_file_name).
  pose proof (files_same_but_insert output_file_name).
  run_rel_auto.
Qed.

(** When [output_body_pdf] returns, the file at the output path holds the
    document of the engine, or the one that was there, with the metadata
    merged in. *)
Lemma output_body_pdf_returns (P : Platform) input_email payload output_file_name σ σ' :
  output_body_pdf P input_email payload output_file_name σ = (Return (), σ') →
  ∃ pdf_input metadata pdf_output,
    (produced (wkhtmltopdf P payload output_file_name) = Some pdf_input
     ∨ (produced (wkhtmltopdf P payload output_file_name) = None
        ∧ files σ !! output_file_name = Some pdf_input))
    ∧ ("/Producer", "email2pdf") ∈ metadata
    ∧ pdf_merge_info P pdf_input metadata = Some pdf_output
    ∧ files σ' !! output_file_name = Some pdf_output.
Proof.
  intros Hrun. unfold output_body_pdf in Hrun. cbv zeta in Hrun.
  apply bind_inv_return in Hrun as ([] & σ1 & Hfirst & Hrun).
  destruct (negb (bool_decide _)); [done|].
  destruct (str_decode P _ _) as [text| | |name]; [|done|done|done].
  repeat match type of Hrun with
         | (if ?b then raise _ else _) _ = _ => destruct b; [done|]
         end.
  apply bind_inv_return in Hrun as (add_metadata_obj & σ2 & Hmeta & Hrun).
  assert (σ1 = σ2) as <-.
  { match type of Hmeta with
    | ?m σ1 = _ => assert (Hpure : run_rel eq m)
    end.
    { unfold HEADER_MAPPING. simpl. pose proof (frame_get_utf8_header eq P).
      run_rel_auto. }
    specialize (Hpure σ1). by rewrite Hmeta in Hpure. }
  clear Hmeta. unfold add_update_pdf_metadata in Hrun. unfold_monad.
  destruct (files σ1 !! output_file_name) as [pdf_input|] eqn:Hinput; [|done].
  destruct (pdf_merge_info P pdf_input _) as [pdf_output|] eqn:Hmerge; [|done].
  injection Hrun as <-.
  eexists pdf_input, _, pdf_output. split; [|split; [|split; [exact Hmerge|]]].
  - destruct (produced (wkhtmltopdf P payload output_file_name)) as [pdf|].
    + injection Hfirst as <-. simpl in Hinput. rewrite lookup_insert_eq in Hinput.
      left. congruence.
    + injection Hfirst as <-. by right.
  - rewrite map_app. apply elem_of_app. right. apply list_elem_of_here.
  - simpl. by rewrite lookup_insert_eq.
Qed.

(** X13. [output_body_pdf] changes nothing but the file at the output path:
    no other file, no set object, no warning, no event.  When it returns,
    that file holds the document the engine left there, or the one that was
    there already if the engine left none, with the metadata merged in;
    [Producer] is among the entries merged. *)
Theorem output_body_pdf_touches_one_file (P : Platform) (input_email : Message)
    (payload output_file_name : string) (σ : state) :
  let run := output_body_pdf P input_email payload output_file_name σ in
  let engine := wkhtmltopdf P payload output_file_name in
  heap run.2 = heap σ ∧ warnings run.2 = warnings σ ∧ trace run.2 = trace σ
  ∧ (∀ path, path ≠ output_file_name → files run.2 !! path = files σ !! path)
  ∧ (run.1 = Return () →
     ∃ pdf_input metadata pdf_output,
       (produced engine = Some pdf_input
        ∨ (produced engine = None ∧ files σ !! output_file_name = Some pdf_input))
       ∧ ("/Producer", "email2pdf") ∈ metadata
       ∧ pdf_merge_info P pdf_input metadata = Some pdf_output
       ∧ files run.2 !! output_file_name = Some pdf_output).
Proof.
  cbv zeta.
  destruct (only_files_output_body_pdf P input_email payload output_file_name σ)
    as (Hheap & Hwarnings & Htrace).
  do 3 (split; [done|]).
  split; [apply (files_same_but_output_body_pdf P input_email payload output_file_name σ)|].
  destruct (output_body_pdf P input_email payload output_file_name σ) as [[[]|e] σ']
    eqn:Hrun; [intros _|done].
  by apply output_body_pdf_returns in Hrun.
Qed.

(** ** The modelled steps of a run, as a whole *)

Section frame_fetch.
Context (R : state → state → Prop) `{!PreOrder R}.
Hypothesis R_warning : ∀ σ w, R σ (add_warning w σ).
Hypothesis R_fetch : ∀ σ url, R σ (add_event (EvUrlFetch url) σ).

Lemma frame_remove_invalid_urls (P : Platform) payload :
  run_rel R (remove_invalid_urls P payload).
Proof.
  assert (∀ msg, run_rel R (logger_warning msg)) by (intros msg σ; apply R_warning).
  assert (∀ url, run_rel R (emit (EvUrlFetch url))) by (intros url σ; apply R_fetch).
  unfold remove_invalid_urls, check_img, can_url_fetch. run_rel_auto.
Qed.

End frame_fetch.

Lemma files_kept_but_handle_attachment keep (P : Platform) input_email output_directory
    add_prefix ignore_floating id :
  run_rel (files_kept_but keep)
    (handle_attachment P input_email output_directory add_prefix ignore_floating id).
Proof.
  intros σ.
  pose proof (handle_attachment_step P input_email output_directory add_prefix
                ignore_floating id σ) as Hstep.
  cbv zeta in Hstep. destruct Hstep as [->|[_ (path & Hfree & ->)]]; [reflexivity|].
  intros p content _ Hp. simpl. rewrite lookup_insert_ne; [done|]. congruence.
Qed.

Lemma no_fetch_handle_attachment (P : Platform) input_email output_directory
    add_prefix ignore_floating id :
  run_rel no_fetch
    (handle_attachment P input_email output_directory add_prefix ignore_floating id).
Proof.
  intros σ.
  pose proof (handle_attachment_step P input_email output_directory add_prefix
                ignore_floating id σ) as Hstep.
  cbv zeta in Hstep. destruct Hstep as [->|[_ (path & Hfree & ->)]]; [reflexivity|].
  unfold no_fetch, urls_fetched. simpl. by rewrite omap_app, app_nil_r.
Qed.

Lemma files_kept_but_main (P : Platform) args input_email output_directory
    output_file_name :
  run_rel (files_kept_but (if body args then Some output_file_name else None))
    (main P args input_email output_directory output_file_name).
Proof.
  apply frame_main; [apply _|by intros σ h p c _ Hp|by intros σ w p c _ Hp| |].
  - intros ->. split; intros payload.
    + by apply frame_remove_invalid_urls; [apply _|intros σ w p c _ Hp|intros σ w p c _ Hp].
    + eapply run_rel_weaken; [|apply files_same_but_output_body_pdf].
      intros σ σ' Hsame path content Hne Hfile. rewrite Hsame; [done|congruence].
  - intros _ l. apply frame_handle_attachments;
      [apply _|by intros σ h p c _ Hp|by intros σ l0 ignored p c _ Hp|].
    intros id. apply files_kept_but_handle_attachment.
Qed.

(** X14. From body resolution to the second attachment pass, the code
    overwrites no file but the output document: a file that was there, at
    any other path, is there afterwards with the same contents, whether
    these steps return or raise; and without the body, this holds for the
    output path too.  (The records of [warnings], and the files a logging
    handler keeps of them, are not part of [files].) *)
Theorem main_keeps_existing_files (P : Platform) (args : Args) (input_email : Message)
    (output_directory output_file_name : string) (σ : state)
    (path : string) (content : bytes) :
  files σ !! path = Some content →
  (body args = true → path ≠ output_file_name) →
  files (main P args input_email output_directory output_file_name σ).2 !! path
  = Some content.
Proof.
  intros Hfile Hne.
  apply (files_kept_but_main P args input_email output_directory output_file_name σ);
    [|done].
  destruct (body args); [|done]. intros [= ->]. by apply Hne.
Qed.

Lemma main_keeps_existing_files_witness :
  let P := Example.platform Example.quiet_engine in
  let σ := set_files {[ "out/floating_attachment.jpg" := Example.bytes_of "old" ]}
             Example.initial in
  files (main P Example.everything Example.floating "out" "out/mail.pdf" σ).2
    !! "out/floating_attachment.jpg"
  = Some (Example.bytes_of "old").
Proof.
  intros P σ.
  apply (main_keeps_existing_files P Example.everything Example.floating "out"
           "out/mail.pdf" σ).
  - reflexivity.
  - intros _. discriminate.
Defined.

(** X15. Without the attachments, the steps from body resolution to the
    second attachment pass never call [handle_attachments], write no
    attachment, and leave every file but the output document as it was: none
    appears, disappears or changes.  (As before, the files a logging handler
    keeps of the warnings are not part of [files].) *)
Theorem main_without_attachments (P : Platform) (args : Args) (input_email : Message)
    (output_directory output_file_name : string) (σ : state) :
  attachments args = false →
  let σ' := (main P args input_email output_directory output_file_name σ).2 in
  attachment_passes (trace σ') = attachment_passes (trace σ)
  ∧ files_written (trace σ') = files_written (trace σ)
  ∧ ∀ path, path ≠ output_file_name → files σ' !! path = files σ !! path.
Proof.
  intros Hargs σ'. unfold σ'. clear σ'. split; [|split].
  - apply (frame_main no_pass); [intros; exact eq_refl|intros; exact eq_refl| |by rewrite Hargs].
    intros _. split; intros payload.
    + apply frame_remove_invalid_urls; [apply _|intros; exact eq_refl|]. intros σ0 url.
      unfold no_pass, attachment_passes. simpl. by rewrite omap_app, app_nil_r.
    + apply (run_rel_weaken quiet); [apply quiet_no_pass|apply quiet_output_body_pdf].
  - apply (frame_main no_write); [intros; exact eq_refl|intros; exact eq_refl| |by rewrite Hargs].
    intros _. split; intros payload.
    + apply frame_remove_invalid_urls; [apply _|intros; exact eq_refl|]. intros σ0 url.
      unfold no_write, files_written. simpl. by rewrite omap_app, app_nil_r.
    + eapply run_rel_weaken; [|apply only_files_output_body_pdf].
      intros σ1 σ2 (_ & _ & Htrace). unfold no_write. by rewrite Htrace.
  - apply (frame_main (files_same_but output_file_name));
      [by intros σ0 h p _|by intros σ0 w p _| |by rewrite Hargs].
    intros _. split; intros payload.
    + by apply frame_remove_invalid_urls; [apply _|intros σ0 w p _|intros σ0 url p _].
    + apply files_same_but_output_body_pdf.
Qed.

Lemma main_without_attachments_witness :
  let P := Example.platform Example.quiet_engine in
  let args := {| body := true; attachments := false; headers := false;
                 add_prefix_date := false; ignore_floating_attachments := false |} in
  let σ' := (main P args Example.floating "out" "out/mail.pdf" Example.initial).2 in
  attachment_passes (trace σ') = attachment_passes (trace Example.initial)
  ∧ files_written (trace σ') = files_written (trace Example.initial)
  ∧ ∀ path, path ≠ "out/mail.pdf" → files σ' !! path = files Example.initial !! path.
Proof.
  intros P args.
  apply (main_without_attachments P args Example.floating "out" "out/mail.pdf"
           Example.initial).
  reflexivity.
Defined.

(** X16. Without the body, the steps from body resolution to the second
    attachment pass fetch no address. *)
Theorem main_without_body_fetches_nothing (P : Platform) (args : Args)
    (input_email : Message) (output_directory output_file_name : string) (σ : state) :
  body args = false →
  urls_fetched (trace (main P args input_email output_directory output_file_name σ).2)
  = urls_fetched (trace σ).
Proof.
  intros Hargs.
  apply (frame_main no_fetch); [intros; exact eq_refl|intros; exact eq_refl|
                                by rewrite Hargs|].
  intros _ l. apply frame_handle_attachments; [apply _|intros; exact eq_refl| |].
  - intros σ0 l0 ignored. unfold no_fetch, urls_fetched. simpl.
    by rewrite omap_app, app_nil_r.
  - intros id. apply no_fetch_handle_attachment.
Qed.

Lemma main_without_body_fetches_nothing_witness :
  let P := Example.platform Example.quiet_engine in
  urls_fetched (trace (main P Example.no_body Example.newsletter "out" "out/mail.pdf"
                         Example.initial).2)
  = urls_fetched (trace Example.initial).
Proof.
  intros P.
  apply (main_without_body_fetches_nothing P Example.no_body Example.newsletter "out"
           "out/mail.pdf" Example.initial).
  reflexivity.
Defined.

(** ** Inline images are not remote images *)

Lemma data_address_is_kept (s : string) :
  String.eqb (PyStr.lower ("data:" +:+ s)) "broken" = false
  ∧ PyStr.startswith (PyStr.lower ("data:" +:+ s)) "data" = true.
Proof.
  change ("data:" +:+ s) with (String "d" (String "a" (String "t" (String "a"
                                 (String ":" s))))).
  split; reflexivity.
Qed.

(** X17. What [cid_replace] puts in the place of a [cid:] reference is never
    looked up on the network: an [img] whose [src] is that text has the
    attribute deleted when it is [broken] and kept when it is the [data:]
    address of the image, and in both cases [remove_invalid_urls] fetches
    nothing and logs nothing for it. *)
Theorem inline_image_is_not_fetched (P : Platform) (message : Message) (used : loc)
    (cid replacement : string) (σ σ1 σ2 : state) :
  cid_replace P message used cid σ = (Return replacement, σ1) →
  check_img P (Some replacement) σ2
  = (Return (if String.eqb replacement "broken" then None else Some replacement), σ2).
Proof.
  unfold cid_replace. intros Hrun.
  destruct (match find_part_by_content_id message cid with
            | Some found => Some found
            | None => find_part_by_content_type_name message cid
            end) as [[image_id image_part]|].
  - destruct (bool_decide _); [|done]. destruct (is_multipart image_part); [done|].
    injection Hrun as <- _.
    unfold check_img. cbv zeta.
    match goal with
    | |- context [PyStr.lower (_ +:+ ?s)] =>
        pose proof (data_address_is_kept s) as Hkept
    end.
    destruct Hkept as [Hbroken Hdata].
    rewrite Hbroken, Hdata. simpl.
    reflexivity.
  - injection Hrun as <- _. reflexivity.
Qed.

Lemma inline_image_is_not_fetched_witness :
  let P := Example.platform Example.quiet_engine in
  let σ := set_heap [∅] Example.initial in
  let replacement := data_uri P Example.logo_part in
  check_img P (Some replacement) Example.initial
  = (Return (if String.eqb replacement "broken" then None else Some replacement),
     Example.initial).
Proof.
  intros P σ replacement.
  apply (inline_image_is_not_fetched P Example.newsletter 0 "logo@example" replacement σ
           (cid_replace P Example.newsletter 0 "logo@example" σ).2 Example.initial).
  vm_compute. reflexivity.
Defined.

(** ** The output file *)

(** X18. [get_output_file_name] changes nothing and never returns the path
    of a file that is there.  Given a non-empty [--output-file] it returns
    it, or raises the fatal failure when a file is there; given none it
    returns the date-and-time name under the output directory, numbered if
    needed. *)
Theorem get_output_file_name_is_free (output_file : option string)
    (now output_directory : string) (σ : state) :
  let run := get_output_file_name output_file now output_directory σ in
  run.2 = σ
  ∧ match run.1 with
    | Return output_file_name =>
        isfile (files σ) output_file_name = false
        ∧ if truthy output_file then output_file = Some output_file_name
          else get_unique_version (files σ)
                 (OsPath.join output_directory (now +:+ ".pdf"))
               = Some output_file_name
    | Raise e =>
        ∃ given, output_file = Some given ∧ given ≠ EmptyString
                 ∧ isfile (files σ) given = true
                 ∧ e = FatalException ("Output file " +:+ given +:+ " already exists.")
    end.
Proof.
  cbv zeta. unfold get_output_file_name. unfold_monad.
  destruct output_file as [given|]; simpl.
  - destruct (String.eqb given EmptyString) eqn:Hempty; simpl.
    + destruct (get_unique_version_returns (files σ)
                  (OsPath.join output_directory (now +:+ ".pdf")))
        as (path & -> & Hfree).
      done.
    + destruct (isfile (files σ) given) eqn:Hfile; simpl; [|done].
      split; [done|]. exists given. apply String.eqb_neq in Hempty. done.
  - destruct (get_unique_version_returns (files σ)
                (OsPath.join output_directory (now +:+ ".pdf")))
      as (path & -> & Hfree).
    done.
Qed.

(** X19. Started on the name [get_output_file_name] gives, the steps from
    body resolution to the second attachment pass overwrite no file at all:
    every file that was there is there afterwards, with its contents.  (As
    before, the files a logging handler keeps of the warnings are not part of
    [files].) *)
Theorem run_overwrites_nothing (P : Platform) (args : Args) (input_email : Message)
    (output_file : option string) (now output_directory output_file_name : string)
    (σ : state) :
  (get_output_file_name output_file now output_directory σ).1 = Return output_file_name →
  files σ ⊆ files (main P args input_email output_directory output_file_name σ).2.
Proof.
  intros Hname. apply map_subseteq_spec. intros path content Hfile.
  apply (files_kept_but_main P args input_email output_directory output_file_name σ);
    [|done].
  destruct (body args); [|done]. intros [= ->].
  assert (Hfree : isfile (files σ) output_file_name = false).
  { revert Hname. unfold get_output_file_name. unfold_monad.
    destruct (truthy output_file).
    - destruct (isfile (files σ) (default EmptyString output_file)) eqn:Hfree; [done|].
      intros [= <-]. done.
    - destruct (get_unique_version_returns (files σ)
                  (OsPath.join output_directory (now +:+ ".pdf")))
        as (path & -> & Hfree).
      intros [= <-]. done. }
  unfold isfile in Hfree. apply bool_decide_eq_false in Hfree.
  apply Hfree. by eexists.
Qed.

Lemma run_overwrites_nothing_witness :
  let P := Example.platform Example.quiet_engine in
  let σ := set_files {[ "out/mail.pdf" := Example.bytes_of "old";
                        "out/floating_attachment.jpg" := Example.bytes_of "older" ]}
             Example.initial in
  files σ ⊆ files (main P Example.everything Example.floating "out" "out/mail_1.pdf" σ).2.
Proof.
  intros P σ.
  apply (run_overwrites_nothing P Example.everything Example.floating None "mail" "out"
           "out/mail_1.pdf" σ).
  vm_compute. reflexivity.
Defined.

(** ** Bodies without references, and text bodies *)

(** X20. An HTML body in which the text [cid:] does not occur is returned as
    it was decoded, with a new, empty consumed set; nothing else changes and
    nothing is logged. *)
Theorem handle_html_message_body_without_cid (P : Platform) (input_email : Message)
    (part : Part) (text : string) (σ : state) :
  is_multipart part = false →
  str_decode P (get_payload_decoded part)
    (if truthy (get_content_charset part)
     then default EmptyString (get_content_charset part) else "utf-8")
  = Decoded text →
  PyStr.contains "cid:" text = false →
  handle_html_message_body P input_email part σ
  = (Return (text, length (heap σ)), set_heap (heap σ ++ [∅]) σ).
Proof.
  intros Hleaf Hdecode Hno. unfold handle_html_message_body.
  unfold mbind at 1, M_bind at 1. unfold set_new. cbv iota beta.
  rewrite Hleaf. cbv zeta. rewrite Hdecode.
  unfold mbind, M_bind. unfold mret at 1, M_ret at 1. cbv iota beta.
  by rewrite re_sub_cid_without_cid.
Qed.

Lemma handle_html_message_body_without_cid_witness :
  let P := Example.platform Example.quiet_engine in
  let part := Example.with_payload (Some "7bit") "<p>hello</p>" (Example.leaf "text/html") in
  handle_html_message_body P Example.floating part Example.initial
  = (Return ("<p>hello</p>", 0), set_heap [∅] Example.initial).
Proof.
  intros P part.
  apply (handle_html_message_body_without_cid P Example.floating part "<p>hello</p>"
           Example.initial); reflexivity.
Defined.

Lemma forallb_app (p : ascii → bool) (s t : string) :
  PyStr.forallb p (s +:+ t) = PyStr.forallb p s && PyStr.forallb p t.
Proof.
  induction s as [|c s IH]; [done|].
  rewrite string_app_cons. simpl. rewrite IH. by rewrite andb_assoc.
Qed.

Lemma html_escape_no_markup (s : string) :
  PyStr.forallb (λ c, negb (Re.mem c "<>'" || Ascii.eqb c "034")) (PyStr.html_escape s)
  = true.
Proof.
  induction s as [|c s IH]; [done|].
  cbn [PyStr.html_escape]. rewrite forallb_app, IH, andb_true_r.
  repeat match goal with
         | |- context [if Ascii.eqb c ?d then _ else _] =>
             destruct (Ascii.eqb c d) eqn:?; [reflexivity|]
         end.
  simpl. repeat match goal with H : Ascii.eqb c _ = false |- _ => rewrite H; clear H end.
  done.
Qed.

(** X21. Under a transfer encoding other than [8bit] the document made of a
    text part is always [<html><body><pre>], a line feed, the escaped text,
    a line feed and [</pre></body></html>], and the escaped text holds no
    [<], [>] or quote character: nothing of the mail can open or close an
    element.  No set object, file or event is touched. *)
Theorem handle_plain_message_body_escapes (P : Platform) (part : Part)
    (document : string) (σ σ' : state) :
  header_content_transfer_encoding part ≠ Some "8bit" →
  handle_plain_message_body P part σ = (Return document, σ') →
  heap σ' = heap σ ∧ files σ' = files σ ∧ trace σ' = trace σ
  ∧ ∃ inner,
      document = "<html><body><pre>" +:+ nl +:+ inner +:+ nl +:+ "</pre></body></html>"
      ∧ PyStr.forallb (λ c, negb (Re.mem c "<>'" || Ascii.eqb c "034")) inner = true.
Proof.
  intros Hcte Hrun.
  destruct (is_multipart part) eqn:Hleaf.
  { unfold handle_plain_message_body in Hrun.
    rewrite bool_decide_eq_false_2, Hleaf in Hrun by done. done. }
  rewrite handle_plain_message_body_decoded in Hrun by done. cbv zeta in Hrun.
  destruct (str_decode P _ _) as [text| | |name]; [| |done|done];
    injection Hrun as <- <-; (do 3 (split; [done|])); eexists;
    (split; [reflexivity|apply html_escape_no_markup]).
Qed.

Lemma handle_plain_message_body_escapes_witness :
  let P := Example.platform Example.quiet_engine in
  let part := Example.with_payload (Some "7bit") "1 < 2" (Example.leaf "text/plain") in
  let document := "<html><body><pre>" +:+ nl +:+ "1 &lt; 2" +:+ nl +:+ "</pre></body></html>" in
  heap Example.initial = heap Example.initial
  ∧ files Example.initial = files Example.initial
  ∧ trace Example.initial = trace Example.initial
  ∧ ∃ inner,
      document = "<html><body><pre>" +:+ nl +:+ inner +:+ nl +:+ "</pre></body></html>"
      ∧ PyStr.forallb (λ c, negb (Re.mem c "<>'" || Ascii.eqb c "034")) inner = true.
Proof.
  intros P part document.
  apply (handle_plain_message_body_escapes P part document Example.initial Example.initial).
  - discriminate.
  - reflexivity.
Defined.

(** ** The header block *)

Lemma concatenation_app (a b : list string) :
  concatenation (a ++ b) = concatenation a +:+ concatenation b.
Proof.
  induction a as [|text a IH]; [done|].
  simpl. by rewrite IH, string_app_assoc.
Qed.

Lemma get_utf8_header_outcome (P : Platform) header σ :
  get_utf8_header P header σ = ((get_utf8_header P header σ).1, σ).
Proof.
  pose proof (frame_get_utf8_header eq P header σ) as Hpure.
  destruct (get_utf8_header P header σ) as [r σ']. simpl in *. by subst σ'.
Qed.

Lemma get_formatted_header_info_loop (P : Platform) (input_email : Message)
    (names : list string) (σ : state) :
  let value name := default EmptyString (header input_email name) in
  let line name text :=
    "<b>" +:+ name +:+ "</b>: " +:+ PyStr.html_escape text +:+ "<br/>" in
  let present := List.filter (λ name, truthy (header input_email name)) names in
  let run :=
    foldl (λ (acc : M string) (name : string),
             header_info ← acc;
             if truthy (header input_email name) then
               decoded_string ← get_utf8_header P (value name);
               mret (header_info +:+ line name decoded_string)
             else mret header_info)
          (mret EmptyString) names σ in
  run.2 = σ
  ∧ match run.1 with
    | Return header_info =>
        ∃ decoded,
          Forall2 (λ name text, get_utf8_header P (value name) σ = (Return text, σ))
                  present decoded
          ∧ header_info = concatenation (zip_with line present decoded)
    | Raise e =>
        ∃ before name after decoded,
          present = before ++ name :: after
          ∧ Forall2 (λ name text, get_utf8_header P (value name) σ = (Return text, σ))
                    before decoded
          ∧ get_utf8_header P (value name) σ = (Raise e, σ)
    end.
Proof.
  intros value line. induction names as [|name names IH] using rev_ind.
  { simpl. split; [done|]. by exists []. }
  cbv zeta in IH |- *. rewrite foldl_app, List.filter_app. cbn [foldl List.filter].
  rewrite (bind_unfold (foldl _ _ names)).
  destruct (foldl _ (mret EmptyString : M string) names σ) as [[header_info|e] σ1];
    destruct IH as [Hstate IH]; simpl in Hstate; subst σ1; simpl in IH.
  - destruct IH as (decoded & Hall & ->).
    destruct (truthy (header input_email name)).
    + unfold mbind, M_bind. rewrite (get_utf8_header_outcome P (value name) σ).
      destruct (get_utf8_header P (value name) σ).1 as [text|e] eqn:Hname.
      * simpl. split; [done|]. exists (decoded ++ [text]). split.
        -- apply Forall2_app; [done|]. constructor; [|constructor].
           by rewrite get_utf8_header_outcome, Hname.
        -- rewrite zip_with_app by (by eapply Forall2_length).
           rewrite concatenation_app. simpl. by rewrite string_app_empty_r.
      * simpl. split; [done|]. exists (List.filter (λ name, truthy (header input_email name)) names), name, [], decoded.
        split; [done|]. split; [done|].
        by rewrite get_utf8_header_outcome, Hname.
    + simpl. split; [done|]. exists decoded. by rewrite app_nil_r.
  - destruct IH as (before & failed & after & decoded & Hpresent & Hall & Hfail).
    simpl. split; [done|].
    exists before, failed,
      (after ++ if truthy (header input_email name) then [name] else []), decoded.
    rewrite Hpresent, <- app_assoc. done.
Qed.

(** X22. [get_formatted_header_info] changes nothing.  It returns one line
    [<b>Name</b>: value<br/>] for each of Subject, From, To and Date that the
    message has with a non-empty value, in that order, the value decoded and
    escaped, and [<br/>] after them; it raises what the first of these headers
    that cannot be decoded raises. *)
Theorem get_formatted_header_info_lines (P : Platform) (input_email : Message)
    (σ : state) :
  let value name := default EmptyString (header input_email name) in
  let line name text :=
    "<b>" +:+ name +:+ "</b>: " +:+ PyStr.html_escape text +:+ "<br/>" in
  let present :=
    List.filter (λ name, truthy (header input_email name)) ["Subject"; "From"; "To"; "Date"] in
  let run := get_formatted_header_info P input_email σ in
  run.2 = σ
  ∧ match run.1 with
    | Return header_info =>
        ∃ decoded,
          Forall2 (λ name text, get_utf8_header P (value name) σ = (Return text, σ))
                  present decoded
          ∧ header_info = concatenation (zip_with line present decoded) +:+ "<br/>"
    | Raise e =>
        ∃ before name after decoded,
          present = before ++ name :: after
          ∧ Forall2 (λ name text, get_utf8_header P (value name) σ = (Return text, σ))
                    before decoded
          ∧ get_utf8_header P (value name) σ = (Raise e, σ)
    end.
Proof.
  intros value line present run. unfold run, get_formatted_header_info. clear run.
  rewrite (bind_unfold (foldl _ _ FORMATTED_HEADERS_TO_INCLUDE)).
  pose proof (get_formatted_header_info_loop P input_email FORMATTED_HEADERS_TO_INCLUDE σ)
    as Hloop.
  cbv zeta in Hloop. fold value in Hloop.
  destruct (foldl _ (mret EmptyString : M string) FORMATTED_HEADERS_TO_INCLUDE σ)
    as [[header_info|e] σ1]; destruct Hloop as [Hstate Hloop]; simpl in Hstate; subst σ1.
  - simpl. split; [done|]. destruct Hloop as (decoded & Hall & ->). by exists decoded.
  - simpl. split; [done|]. exact Hloop.
Qed.

(** ** A run that returns leaves the document *)

(** X23. With the body wanted, when the steps from body resolution to the
    second attachment pass return, the output path holds a document with the
    metadata merged in: the attachments written after it did not replace
    it. *)
Theorem main_leaves_the_document (P : Platform) (args : Args) (input_email : Message)
    (output_directory output_file_name : string) (σ σ' : state) :
  body args = true →
  main P args input_email output_directory output_file_name σ = (Return (), σ') →
  ∃ pdf_input metadata pdf_output,
    ("/Producer", "email2pdf") ∈ metadata
    ∧ pdf_merge_info P pdf_input metadata = Some pdf_output
    ∧ files σ' !! output_file_name = Some pdf_output.
Proof.
  intros Hargs Hrun. unfold main in Hrun. rewrite Hargs in Hrun.
  apply bind_inv_return in Hrun as ([payload used] & σ1 & _ & Hrun).
  apply bind_inv_return in Hrun as ([] & σ2 & Hrender & Hrun).
  destruct payload as [payload|]; [|done].
  apply bind_inv_return in Hrender as (checked & σ3 & _ & Hrender).
  apply bind_inv_return in Hrender as (final & σ4 & _ & Hrender).
  apply output_body_pdf_returns in Hrender
    as (pdf_input & metadata & pdf_output & _ & Hproducer & Hmerge & Hfile).
  exists pdf_input, metadata, pdf_output. split; [done|]. split; [done|].
  match type of Hrun with
  | ?tail σ2 = _ => assert (Hkept : run_rel (files_kept_but None) tail)
  end.
  { assert (∀ l, run_rel (files_kept_but None)
                   (handle_attachments P input_email output_directory
                      (add_prefix_date args) (ignore_floating_attachments args) l)).
    { intros l. apply frame_handle_attachments;
        [apply _|by intros σ0 h p c _ Hp|by intros σ0 l0 ignored p c _ Hp|].
      intros id. apply files_kept_but_handle_attachment. }
    simpl. run_rel_auto. }
  specialize (Hkept σ2). rewrite Hrun in Hkept. by apply Hkept.
Qed.

Lemma main_leaves_the_document_witness :
  let P := Example.platform Example.quiet_engine in
  ∃ pdf_input metadata pdf_output,
    ("/Producer", "email2pdf") ∈ metadata
    ∧ pdf_merge_info P pdf_input metadata = Some pdf_output
    ∧ files (main P Example.everything Example.floating "out" "out/mail.pdf"
               Example.initial).2 !! "out/mail.pdf" = Some pdf_output.
Proof.
  intros P.
  apply (main_leaves_the_document P Example.everything Example.floating "out"
           "out/mail.pdf" Example.initial).
  - reflexivity.
  - vm_compute. reflexivity.
Defined.

(** ** Names derived from the output file *)

Lemma rfind_go_app (c : ascii) (s t : string) (i : nat) (last : option nat) :
  OsPath.rfind_go c (s +:+ t) i last
  = OsPath.rfind_go c t (i + String.length s) (OsPath.rfind_go c s i last).
Proof.
  revert i last. induction s as [|d s IH]; intros i last.
  - rewrite string_app_nil_l. simpl. by rewrite Nat.add_0_r.
  - rewrite string_app_cons. simpl. rewrite IH. f_equal. lia.
Qed.

Lemma contains_char_cons (c d : ascii) (r : string) :
  PyStr.contains (String c EmptyString) (String d r) = false →
  Ascii.eqb d c = false ∧ PyStr.contains (String c EmptyString) r = false.
Proof.
  cbn [PyStr.contains String.prefix]. intros Hno.
  apply orb_false_elim in Hno as [Hhere Hrest]. split; [|done].
  destruct (ascii_dec c d) as [->|Hne]; [by destruct r|].
  apply Ascii.eqb_neq. congruence.
Qed.

Lemma rfind_go_absent (c : ascii) (s : string) (i : nat) (last : option nat) :
  PyStr.contains (String c EmptyString) s = false → OsPath.rfind_go c s i last = last.
Proof.
  revert i last. induction s as [|d s IH]; intros i last Hno; [done|].
  apply contains_char_cons in Hno as [Hd Hrest]. simpl. rewrite Hd. by apply IH.
Qed.

Lemma substring_app_l (s t : string) : substring 0 (String.length s) (s +:+ t) = s.
Proof.
  induction s as [|c s IH]; [by destruct t|].
  rewrite string_app_cons. simpl. by rewrite IH.
Qed.

Lemma substring_app_r (s t : string) (n : nat) :
  substring (String.length s) n (s +:+ t) = substring 0 n t.
Proof.
  induction s as [|c s IH]; [by rewrite string_app_nil_l|].
  rewrite string_app_cons. simpl. exact IH.
Qed.

Lemma not_all_slashes (s : string) :
  s ≠ EmptyString → PyStr.endswith_char s "/" = false →
  PyStr.forallb (Ascii.eqb "/") s = false.
Proof.
  induction s as [|c s IH]; [done|]. intros _ Hend. cbn [PyStr.forallb].
  destruct s as [|d s].
  - cbn [PyStr.endswith_char] in Hend. by rewrite Ascii.eqb_sym, Hend.
  - rewrite IH; [by destruct (Ascii.eqb "/" c)|done|done].
Qed.

Lemma startswith_slash_app (name append : string) :
  PyStr.contains "/" name = false → PyStr.startswith append "/" = false →
  PyStr.startswith (name +:+ append) "/" = false.
Proof.
  intros Hname Happend. destruct name as [|c r]; [by rewrite string_app_nil_l|].
  apply contains_char_cons in Hname as [Hc _]. rewrite string_app_cons.
  destruct (PyStr.startswith (String c (r +:+ append)) "/") eqn:Hstart; [|done].
  apply startswith_char in Hstart as <-. by rewrite Ascii.eqb_refl in Hc.
Qed.

(** X24. [get_modified_output_file_name] gives the output file name with its
    extension replaced by [append], whenever the name without the extension
    has no slash, or is a directory that does not end in a slash, one slash,
    and a last component; [append] must not begin with a slash.  (With two
    slashes before the last component only one is left.) *)
Theorem get_modified_output_file_name_appends (output_file_name append : string)
    (directory : option string) (name : string) :
  (OsPath.splitext output_file_name).1
  = match directory with
    | Some directory => directory +:+ "/" +:+ name
    | None => name
    end →
  PyStr.endswith_char (default EmptyString directory) "/" = false →
  PyStr.contains "/" name = false →
  PyStr.startswith append "/" = false →
  get_modified_output_file_name output_file_name append
  = (OsPath.splitext output_file_name).1 +:+ append.
Proof.
  intros Hroot Hdir Hname Happend. unfold get_modified_output_file_name. cbv zeta.
  rewrite Hroot. clear Hroot.
  pose proof (startswith_slash_app name append Hname Happend) as Hstart.
  destruct directory as [d|]; simpl in Hdir.
  - assert (Hfind : OsPath.rfind "/" (d +:+ "/" +:+ name) = Some (String.length d)).
    { unfold OsPath.rfind. rewrite rfind_go_app.
      change ("/" +:+ name) with (String "/" name). simpl.
      by apply rfind_go_absent. }
    assert (Hlen : String.length (d +:+ "/") = S (String.length d)).
    { rewrite string_app_length. simpl. lia. }
    assert (Hbase : OsPath.basename (d +:+ "/" +:+ name) = name).
    { unfold OsPath.basename. rewrite Hfind, <- Hlen, <- string_app_assoc.
      rewrite substring_app_r, string_app_length.
      replace (String.length (d +:+ "/") + String.length name - String.length (d +:+ "/"))
        with (String.length name) by lia.
      apply substring_full. }
    assert (Hhead : substring 0 (S (String.length d)) (d +:+ "/" +:+ name) = d +:+ "/").
    { rewrite <- Hlen, <- string_app_assoc. apply substring_app_l. }
    rewrite Hbase. unfold OsPath.dirname. rewrite Hfind, Hhead.
    destruct d as [|c d'].
    + simpl. unfold OsPath.join. rewrite Hstart. simpl.
      by rewrite !string_app_nil_l, string_app_cons.
    + assert (Hend : ∀ e, Ascii.eqb "/" e = true
                          → PyStr.endswith_char (String c d') e = false).
      { intros e He. apply Ascii.eqb_eq in He. by subst e. }
      rewrite forallb_app, not_all_slashes by done.
      rewrite string_app_cons at 1. cbn [String.eqb negb andb].
      rewrite rstrip_app_char, rstrip_id by done.
      unfold OsPath.join. rewrite Hstart, Hdir. cbn [String.eqb orb].
      by rewrite !string_app_assoc.
  - unfold OsPath.basename, OsPath.dirname, OsPath.rfind.
    rewrite rfind_go_absent by done. simpl.
    unfold OsPath.join. rewrite Hstart. simpl. by rewrite string_app_nil_l.
Qed.

Lemma get_modified_output_file_name_appends_witness :
  get_modified_output_file_name "out/2024-01-02T03-04-05.pdf" "_original.eml"
  = (OsPath.splitext "out/2024-01-02T03-04-05.pdf").1 +:+ "_original.eml".
Proof.
  apply (get_modified_output_file_name_appends "out/2024-01-02T03-04-05.pdf"
           "_original.eml" (Some "out") "2024-01-02T03-04-05"); reflexivity.
Defined.

(** ** The header decoder, the other way round *)

Lemma get_utf8_header_loop_cases (P : Platform) (segments : list (chunk * option string))
    (hdr : string) (σ : state) :
  let decodes segment text := segment_decoding P segment = Decoded text in
  match get_utf8_header_loop P segments hdr σ with
  | (Return text, σ') =>
      σ' = σ ∧ ∃ texts, Forall2 decodes segments texts ∧ text = hdr +:+ concatenation texts
  | (Raise e, σ') =>
      σ' = σ
      ∧ ∃ before segment after texts,
          segments = before ++ segment :: after
          ∧ Forall2 decodes before texts
          ∧ (segment_decoding P segment = DecodeError ∧ e = UnicodeDecodeError
             ∨ segment_decoding P segment = UnknownCharset ∧ e = LookupError
             ∨ ∃ name, segment_decoding P segment = OtherError name
                       ∧ e = OtherException name)
  end.
Proof.
  intros decodes. revert hdr.
  induction segments as [|segment segments IH]; intros hdr.
  { simpl. split; [done|]. exists []. split; [constructor|].
    by rewrite string_app_empty_r. }
  assert (Hstep : get_utf8_header_loop P (segment :: segments) hdr σ
                  = match segment_decoding P segment with
                    | Decoded s => get_utf8_header_loop P segments (hdr +:+ s) σ
                    | DecodeError => (Raise UnicodeDecodeError, σ)
                    | UnknownCharset => (Raise LookupError, σ)
                    | OtherError name => (Raise (OtherException name), σ)
                    end).
  { destruct segment as [[b|s] [charset|]]; simpl; try done.
    - destruct (String.eqb charset EmptyString); simpl; by destruct (str_decode P b _).
    - by destruct (str_decode P b _). }
  rewrite Hstep. clear Hstep.
  destruct (segment_decoding P segment) as [s| | |name] eqn:Hsegment.
  - specialize (IH (hdr +:+ s)).
    destruct (get_utf8_header_loop P segments (hdr +:+ s) σ) as [[text|e] σ'].
    + destruct IH as (-> & texts & Hall & ->). split; [done|].
      exists (s :: texts). split; [by constructor|].
      simpl. by rewrite string_app_assoc.
    + destruct IH as (-> & before & failed & after & texts & -> & Hall & Hfailed).
      split; [done|]. exists (segment :: before), failed, after, (s :: texts).
      split; [done|]. split; [by constructor|done].
  - split; [done|]. exists [], segment, segments, [].
    split; [done|]. split; [constructor|]. by left.
  - split; [done|]. exists [], segment, segments, [].
    split; [done|]. split; [constructor|]. right. by left.
  - split; [done|]. exists [], segment, segments, [].
    split; [done|]. split; [constructor|]. right. right. by exists name.
Qed.

(** X25. [get_utf8_header] changes nothing.  It returns only when
    [decode_header] splits the value and every segment can be decoded, and
    then returns the decoded segments put one after the other; otherwise it
    raises what [decode_header] raises, or what [str(bytes, charset)] raises
    for the first segment that cannot be decoded: [UnicodeDecodeError],
    [LookupError], or an exception of another class (plain [UnicodeError] for
    the charset [undefined]). *)
Theorem get_utf8_header_cases (P : Platform) (header : string) (σ : state) :
  let decodes segment text := segment_decoding P segment = Decoded text in
  let run := get_utf8_header P header σ in
  run.2 = σ
  ∧ match run.1 with
    | Return text =>
        ∃ segments texts,
          decode_header P header = Some segments
          ∧ Forall2 decodes segments texts
          ∧ text = concatenation texts
    | Raise e =>
        (decode_header P header = None ∧ e = HeaderParseError)
        ∨ ∃ before segment after texts,
            decode_header P header = Some (before ++ segment :: after)
            ∧ Forall2 decodes before texts
            ∧ (segment_decoding P segment = DecodeError ∧ e = UnicodeDecodeError
               ∨ segment_decoding P segment = UnknownCharset ∧ e = LookupError
               ∨ ∃ name, segment_decoding P segment = OtherError name
                         ∧ e = OtherException name)
    end.
Proof.
  intros decodes run. unfold run, get_utf8_header. clear run.
  destruct (decode_header P header) as [segments|]; [|split; [done|by left]].
  pose proof (get_utf8_header_loop_cases P segments EmptyString σ) as Hloop.
  cbv zeta in Hloop.
  destruct (get_utf8_header_loop P segments EmptyString σ) as [[text|e] σ'].
  - destruct Hloop as (-> & texts & Hall & ->). split; [done|].
    exists segments, texts. by rewrite string_app_nil_l.
  - destruct Hloop as (-> & before & failed & after & texts & -> & Hall & Hfailed).
    split; [done|]. right. by exists before, failed, after, texts.
Qed.

(** ** File names of one segment, and absolute file names *)

(** X26. On a file name that [decode_header] gives back as a single segment,
    either bytes with a non-empty charset or the name itself as text with no
    charset, [extract_part_filename] and [get_utf8_header] agree: the one
    returns what the other returns, and raises what it raises. *)
Theorem extract_part_filename_agrees (P : Platform) (part : Part) (filename : string)
    (segment : chunk * option string) (σ : state) :
  get_filename part = Some filename →
  decode_header P filename = Some [segment] →
  (∃ b charset, segment = (Bytes b, Some charset) ∧ charset ≠ EmptyString)
  ∨ segment = (Text filename, None) →
  extract_part_filename P part σ
  = match get_utf8_header P filename σ with
    | (Return text, σ') => (Return (Some text), σ')
    | (Raise e, σ') => (Raise e, σ')
    end.
Proof.
  intros Hname Hsplit Hsegment. unfold extract_part_filename, get_utf8_header.
  rewrite Hname, Hsplit.
  destruct Hsegment as [(b & charset & -> & Hcharset)| ->].
  - cbn [get_utf8_header_loop truthy].
    apply String.eqb_neq in Hcharset. rewrite Hcharset. cbn [negb].
    change (default EmptyString (Some charset)) with charset.
    destruct (str_decode P b charset); [|done|done|done].
    simpl. by rewrite string_app_nil_l.
  - simpl. by rewrite string_app_nil_l.
Qed.

Lemma extract_part_filename_agrees_witness :
  let P := Example.platform Example.quiet_engine in
  let part := Example.with_filename "report.pdf" (Example.leaf "application/pdf") in
  extract_part_filename P part Example.initial
  = match get_utf8_header P "report.pdf" Example.initial with
    | (Return text, σ') => (Return (Some text), σ')
    | (Raise e, σ') => (Raise e, σ')
    end.
Proof.
  intros P part.
  apply (extract_part_filename_agrees P part "report.pdf" (Text "report.pdf", None)
           Example.initial).
  - reflexivity.
  - reflexivity.
  - by right.
Defined.

Lemma get_unique_version_free (fs : filesystem) (p : string) :
  isfile fs p = false → get_unique_version fs p = Some p.
Proof.
  intros Hfree. unfold get_unique_version, get_unique_version_fuel.
  replace (size fs + 2) with (S (size fs + 1)) by lia. simpl. by rewrite Hfree.
Qed.

(** X27. The output directory does not confine the attachments.  With no
    date prefix asked for, a part whose decoded file name begins with a slash
    is written at that very path when no file is there, whatever the output
    directory is: [os.path.join] drops the directory before an absolute
    name. *)
Theorem handle_attachment_absolute_name (P : Platform) (input_email : Message)
    (output_directory : string) (ignore_floating : bool) (id : part_id)
    (filename : string) (σ : state) :
  (extract_part_filename P (part_at input_email id) σ).1 = Return (Some filename) →
  PyStr.startswith filename "/" = true →
  isfile (files σ) filename = false →
  handle_attachment P input_email output_directory false ignore_floating id σ
  = (Return (),
     set_files (<[filename := get_payload_decoded (part_at input_email id)]> (files σ))
               (add_event (EvWrite filename) σ)).
Proof.
  intros Hname Habsolute Hfree. unfold handle_attachment.
  rewrite bind_unfold, extract_part_filename_outcome, Hname. cbv zeta.
  assert (Htruthy : truthy (Some filename) = true).
  { destruct filename; [done|done]. }
  rewrite Htruthy. cbn [negb andb].
  change (default EmptyString (Some filename)) with filename.
  unfold OsPath.join. rewrite Habsolute.
  rewrite bind_unfold. unfold get_state. cbv iota beta.
  by rewrite (get_unique_version_free _ _ Hfree).
Qed.

Lemma handle_attachment_absolute_name_witness :
  let P := Example.platform Example.quiet_engine in
  let message :=
    Example.message [Example.with_filename "/tmp/x.bin"
                       (Example.leaf "application/octet-stream")] in
  handle_attachment P message "out" false false 0 Example.initial
  = (Return (),
     set_files (<["/tmp/x.bin" := get_payload_decoded (part_at message 0)]>
                  (files Example.initial))
               (add_event (EvWrite "/tmp/x.bin") Example.initial)).
Proof.
  intros P message.
  apply (handle_attachment_absolute_name P message "out" false 0 "/tmp/x.bin"
           Example.initial); reflexivity.
Defined.
